(** * Coordinate resampling of the MLX image backend

    A shallow embedding of [keras/backend/mlx/image.py]: the index fixers
    of the five fill modes, the two interpolation kernels, the gather and
    weighted-sum loop [_extract_coordinates], and the public operations
    [map_coordinates], [affine_transform] and [resize] built on it.

    The array runtime ([mlx.core]) is not part of the repository.  Its
    operations are modelled here, one definition per primitive the source
    calls, with the following conventions.

    - A tensor is a shape together with a function from positions to
      elements; only positions inside the shape are meaningful.
    - Floating-point elements are rationals: arithmetic is exact, and
      infinities and NaN do not exist.
    - Index tensors ([int32] in the source) hold elements of [Z]; the model
      agrees with the runtime as long as no intermediate value leaves the
      [int32] range.
    - Integer remainder and division by zero have no defined result in the
      runtime; the model raises [Undefined] there.
    - Python exceptions are values of [exn]; a computation is a [result]. *)

From Stdlib Require Import ZArith QArith Qround Qabs List Lia Lqa Bool String.
From stdpp Require Import base decidable option list gmap strings.
Import ListNotations.

Local Open Scope nat_scope.

(** ** Exceptions *)

Inductive exn : Set :=
| ValueError
| TypeError
| ZeroDivisionError
| NotImplementedError
| Undefined.

Inductive result (A : Type) : Type :=
| Ok (a : A)
| Raise (e : exn).
Arguments Ok {A} a.
Arguments Raise {A} e.

#[global] Instance result_ret : MRet result := fun A a => Ok a.
#[global] Instance result_bind : MBind result := fun A B f m =>
  match m with
  | Ok a => f a
  | Raise e => Raise e
  end.

Definition is_ok {A} (m : result A) : bool :=
  match m with Ok _ => true | Raise _ => false end.

(** ** Element types *)

Inductive Dtype : Set :=
| bool_
| uint8 | uint16 | uint32 | uint64
| int8 | int16 | int32 | int64
| float16 | bfloat16 | float32.

#[global] Instance Dtype_eq_dec : EqDecision Dtype.
Proof. solve_decision. Defined.

Definition is_floating (d : Dtype) : bool :=
  match d with float16 | bfloat16 | float32 => true | _ => false end.

Definition is_signed (d : Dtype) : bool :=
  match d with int8 | int16 | int32 | int64 => true | _ => false end.

Definition is_unsigned (d : Dtype) : bool :=
  match d with uint8 | uint16 | uint32 | uint64 => true | _ => false end.

(** Width in bits of an integer type ([bool_] counts as width 0). *)
Definition bits (d : Dtype) : nat :=
  match d with
  | bool_ => 0
  | uint8 | int8 => 8
  | uint16 | int16 | float16 | bfloat16 => 16
  | uint32 | int32 | float32 => 32
  | uint64 | int64 => 64
  end.

Definition signed_of_bits (n : nat) : Dtype :=
  if n <=? 8 then int8 else if n <=? 16 then int16
  else if n <=? 32 then int32 else int64.

Definition unsigned_of_bits (n : nat) : Dtype :=
  if n =? 0 then bool_ else if n <=? 8 then uint8 else if n <=? 16 then uint16
  else if n <=? 32 then uint32 else uint64.

(** The runtime's type promotion lattice. *)
Definition promote_types (a b : Dtype) : Dtype :=
  if is_floating a || is_floating b then
    if is_floating a && is_floating b then
      (if bool_decide (a = b) then a else float32)
    else if is_floating a then a else b
  else if is_signed a && is_signed b then signed_of_bits (max (bits a) (bits b))
  else if negb (is_signed a) && negb (is_signed b) then
    unsigned_of_bits (max (bits a) (bits b))
  else
    let s := if is_signed a then a else b in
    let u := if is_signed a then b else a in
    if bits u <? bits s then s
    else if bits u =? 64 then float32
    else signed_of_bits (2 * bits u).

(** A Python [int] or [float] operand keeps the array's type when it can
    (weak typing of scalars). *)
Definition promote_py_int (d : Dtype) : Dtype :=
  if bool_decide (d = bool_) then int32 else d.
Definition promote_py_float (d : Dtype) : Dtype :=
  if is_floating d then d else float32.

(** ** Numbers *)

(** Truncation toward zero: Python's [int(x)] and the runtime's
    float-to-integer conversion. *)
Definition Qtrunc (q : Q) : Z :=
  if Qle_bool 0 q then Qfloor q else Qceiling q.

(** Rounding to the nearest integer, ties to the even neighbour. *)
Definition Qround_even (q : Q) : Z :=
  let f := Qfloor q in
  match Qcompare (q - inject_Z f) (1 # 2) with
  | Lt => f
  | Gt => (f + 1)%Z
  | Eq => if Z.even f then f else (f + 1)%Z
  end.

(** Two's complement wrap-around of an integer type. *)
Definition wrap_int (d : Dtype) (z : Z) : Z :=
  let m := (2 ^ Z.of_nat (bits d))%Z in
  if is_signed d then ((z + m / 2) mod m - m / 2)%Z else (z mod m)%Z.

(** Conversion of one element to type [d]. *)
Definition cast (d : Dtype) (q : Q) : Q :=
  if is_floating d then q
  else if bool_decide (d = bool_) then (if Qeq_bool q 0 then 0%Q else 1%Q)
  else inject_Z (wrap_int d (Qtrunc q)).

(** ** Tensors *)

Record tensor (A : Type) : Type := Tensor {
  shape : list nat;
  at_ : list nat -> A;
}.
Arguments Tensor {A} shape at_.
Arguments shape {A} t.
Arguments at_ {A} t p.

Definition ndim {A} (t : tensor A) : nat := length (shape t).

Definition prod (sh : list nat) : nat := fold_right Nat.mul 1 sh.

Definition in_bounds (sh p : list nat) : Prop := Forall2 (fun i d => i < d) p sh.

(** All positions of a shape, in row-major order. *)
Fixpoint positions (sh : list nat) : list (list nat) :=
  match sh with
  | [] => [[]]
  | d :: sh' => i ← seq 0 d; p ← positions sh'; [i :: p]
  end.

Definition to_list {A} (t : tensor A) : list A := map (at_ t) (positions (shape t)).

Definition tmap {A B} (f : A -> B) (t : tensor A) : tensor B :=
  Tensor (shape t) (fun p => f (at_ t p)).

(** Row-major flat index of a position, and back. *)
Fixpoint ravel (sh p : list nat) : nat :=
  match sh, p with
  | _ :: sh', i :: p' => i * prod sh' + ravel sh' p'
  | _, _ => 0
  end.

Fixpoint unravel (sh : list nat) (n : nat) : list nat :=
  match sh with
  | [] => []
  | _ :: sh' => n / prod sh' :: unravel sh' (n mod prod sh')
  end.

(** *** Broadcasting *)

Definition bdim (d1 d2 : nat) : result nat :=
  if d1 =? d2 then Ok d1
  else if d1 =? 1 then Ok d2
  else if d2 =? 1 then Ok d1
  else Raise ValueError.

Fixpoint bdims (s1 s2 : list nat) : result (list nat) :=
  match s1, s2 with
  | [], [] => Ok []
  | d1 :: t1, d2 :: t2 => d ← bdim d1 d2; t ← bdims t1 t2; Ok (d :: t)
  | _, _ => Raise ValueError
  end.

Definition pad_to (n : nat) (sh : list nat) : list nat :=
  replicate (n - length sh) 1 ++ sh.

(** Shapes are aligned at their last axis; an axis of length 1 stretches. *)
Definition broadcast_shapes (s1 s2 : list nat) : result (list nat) :=
  let n := max (length s1) (length s2) in
  bdims (pad_to n s1) (pad_to n s2).

(** The position of an operand of shape [sh] read at output position [p]. *)
Definition bindex (sh p : list nat) : list nat :=
  zip_with (fun d i => if d =? 1 then 0 else i) sh (drop (length p - length sh) p).

Definition broadcast2 {A B C} (f : A -> B -> C) (a : tensor A) (b : tensor B)
  : result (tensor C) :=
  sh ← broadcast_shapes (shape a) (shape b);
  Ok (Tensor sh (fun p => f (at_ a (bindex (shape a) p)) (at_ b (bindex (shape b) p)))).

(** *** Shape manipulation *)

Definition count_neg (dims : list Z) : nat :=
  length (filter (fun d => (d <? 0)%Z = true) dims).

Definition known_size (dims : list Z) : nat :=
  prod (map Z.to_nat (filter (fun d => (d <? 0)%Z = false) dims)).

(** [x.reshape(dims)]: at most one entry of [dims] may be [-1]. *)
Definition infer_shape (total : nat) (dims : list Z) : result (list nat) :=
  match count_neg dims with
  | 0 =>
      let sh := map Z.to_nat dims in
      if prod sh =? total then Ok sh else Raise ValueError
  | 1 =>
      let k := known_size dims in
      if (k =? 0) || negb (total mod k =? 0) then Raise ValueError
      else Ok (map (fun d => if (d <? 0)%Z then total / k else Z.to_nat d) dims)
  | _ => Raise ValueError
  end.

Definition reshape {A} (t : tensor A) (dims : list Z) : result (tensor A) :=
  sh ← infer_shape (prod (shape t)) dims;
  Ok (Tensor sh (fun p => at_ t (unravel (shape t) (ravel sh p)))).

(** [x.transpose(axes)]: output axis [k] is input axis [axes[k]]. *)
Fixpoint index_of (j : nat) (l : list nat) : nat :=
  match l with
  | [] => 0
  | k :: l' => if k =? j then 0 else S (index_of j l')
  end.

Definition transpose {A} (t : tensor A) (axes : list nat) : tensor A :=
  Tensor (map (fun k => nth k (shape t) 0) axes)
         (fun p => at_ t (map (fun j => nth (index_of j axes) p 0) (seq 0 (ndim t)))).

(** [x.split(n)] along the first axis, into [n] equal parts. *)
Definition split {A} (t : tensor A) (n : nat) : result (list (tensor A)) :=
  match shape t with
  | [] => Raise ValueError
  | d :: sh' =>
      if (n =? 0) || negb (d mod n =? 0) then Raise ValueError
      else
        let m := d / n in
        Ok (map (fun j =>
                   Tensor (m :: sh')
                          (fun p => at_ t ((j * m + nth 0 p 0) :: tail p)))
                (seq 0 n))
  end.

(** [x.squeeze(0)]. *)
Definition squeeze0 {A} (t : tensor A) : result (tensor A) :=
  match shape t with
  | 1 :: sh' => Ok (Tensor sh' (fun p => at_ t (0 :: p)))
  | _ => Raise ValueError
  end.

(** ** Arrays: tensors of numbers with an element type *)

Record array : Type := Array {
  dtype : Dtype;
  data : tensor Q;
}.

Definition ashape (a : array) : list nat := shape (data a).
Definition aat (a : array) (p : list nat) : Q := at_ (data a) p.
Definition andim (a : array) : nat := ndim (data a).

(** Index tensors and masks. *)
Abbreviation itensor := (tensor Z).
Abbreviation mask := (tensor bool).

(** Python numbers, and the operands that are either a number or an array. *)
Inductive pynum : Type :=
| PyInt (z : Z)
| PyFloat (q : Q).

Inductive pyobj : Type :=
| PyNum (n : pynum)
| PyArr (a : array).

Definition py_value (n : pynum) : Q :=
  match n with PyInt z => inject_Z z | PyFloat q => q end.

Definition scalar_dtype (n : pynum) (d : Dtype) : Dtype :=
  match n with PyInt _ => promote_py_int d | PyFloat _ => promote_py_float d end.

(** Python's [int(x)] on a number. *)
Definition py_int (n : pynum) : pynum :=
  match n with PyInt z => PyInt z | PyFloat q => PyInt (Qtrunc q) end.

Definition astype (d : Dtype) (a : array) : array :=
  if bool_decide (dtype a = d) then a else Array d (tmap (cast d) (data a)).

(** [a.astype(mx.int32)] as an index tensor. *)
Definition astype_int32 (a : array) : itensor := tmap Qtrunc (data a).

Definition mx_arange (n : nat) : array :=
  Array int32 (Tensor [n] (fun p => inject_Z (Z.of_nat (nth 0 p 0)))).

(** [mx.array(l)] of a flat list of Python floats. *)
Definition mx_array (l : list Q) : array :=
  Array float32 (Tensor [length l] (fun p => nth (nth 0 p 0) l 0%Q)).

Definition mx_floor (a : array) : array :=
  if is_floating (dtype a)
  then Array (dtype a) (tmap (fun q => inject_Z (Qfloor q)) (data a))
  else a.

Definition mx_round (a : array) : array :=
  if is_floating (dtype a)
  then Array (dtype a) (tmap (fun q => inject_Z (Qround_even q)) (data a))
  else a.

Definition mx_binary (f : Q -> Q -> Q) (a b : array) : result array :=
  t ← broadcast2 f (data a) (data b);
  Ok (Array (promote_types (dtype a) (dtype b)) t).

Definition mx_add : array -> array -> result array := mx_binary Qplus.
Definition mx_subtract : array -> array -> result array := mx_binary Qminus.
Definition mx_multiply : array -> array -> result array := mx_binary Qmult.

(** True division: the quotient of two integer arrays is [float32].  A zero
    divisor gives an infinity or NaN in the runtime; the rational model has
    none, and every use below is shown to divide by a non-zero element. *)
Definition mx_divide (a b : array) : result array :=
  t ← broadcast2 Qdiv (data a) (data b);
  Ok (Array (promote_py_float (promote_types (dtype a) (dtype b))) t).

(** Arithmetic with a Python number on one side. *)
Definition mx_add_py (a : array) (n : pynum) : array :=
  let d := scalar_dtype n (dtype a) in
  Array d (tmap (fun x => x + cast d (py_value n))%Q (data a)).

Definition mx_rsub_py (n : pynum) (a : array) : array :=
  let d := scalar_dtype n (dtype a) in
  Array d (tmap (fun x => cast d (py_value n) - x)%Q (data a)).

Definition mx_multiply_py (a : array) (n : pynum) : array :=
  let d := scalar_dtype n (dtype a) in
  Array d (tmap (fun x => x * cast d (py_value n))%Q (data a)).

(** Index arithmetic with a Python [int]. *)
Definition i_add (t : itensor) (k : Z) : itensor := tmap (fun x => x + k)%Z t.
Definition i_sub (t : itensor) (k : Z) : itensor := tmap (fun x => x - k)%Z t.
Definition i_rmul (k : Z) (t : itensor) : itensor := tmap (fun x => k * x)%Z t.
Definition i_abs (t : itensor) : itensor := tmap Z.abs t.
Definition i_clip (t : itensor) (lo hi : Z) : itensor :=
  tmap (fun x => Z.min (Z.max x lo) hi) t.

(** [t % m]: the remainder takes the sign of the divisor. *)
Definition i_remainder (t : itensor) (m : Z) : result itensor :=
  if (m =? 0)%Z then Raise Undefined else Ok (tmap (fun x => x mod m)%Z t).

Definition i_floor_divide (t : itensor) (d : Z) : result itensor :=
  if (d =? 0)%Z then Raise Undefined else Ok (tmap (fun x => x / d)%Z t).

(** [k <= t] and [t < k]. *)
Definition i_rle (k : Z) (t : itensor) : mask := tmap (fun x => (k <=? x)%Z) t.
Definition i_lt (t : itensor) (k : Z) : mask := tmap (fun x => (x <? k)%Z) t.

Definition mx_logical_and (a b : mask) : result mask := broadcast2 andb a b.

(** [mx.where(c, x, y)] with an array [x] and a number or array [y]. *)
Definition mx_where (c : mask) (x : array) (y : pyobj) : result array :=
  match y with
  | PyNum n =>
      let d := scalar_dtype n (dtype x) in
      t ← broadcast2 (fun (b : bool) v => if b then v else cast d (py_value n)) c (data x);
      Ok (Array d t)
  | PyArr y =>
      xy ← broadcast2 pair (data x) (data y);
      t ← broadcast2 (fun (b : bool) (v : Q * Q) => if b then v.1 else v.2) c xy;
      Ok (Array (promote_types (dtype x) (dtype y)) t)
  end.

(** *** Indexing by arrays *)

Fixpoint broadcast_shapes_list (shs : list (list nat)) : result (list nat) :=
  match shs with
  | [] => Ok []
  | sh :: rest => r ← broadcast_shapes_list rest; broadcast_shapes sh r
  end.

(** A negative index counts from the end of its axis. *)
Definition norm_index (size : nat) (i : Z) : nat :=
  Z.to_nat (if (i <? 0)%Z then i + Z.of_nat size else i).

(** [src[:, ..., :, i_1, ..., i_k]] with [start_axis] leading full slices and
    [k] index tensors: the index tensors are broadcast together and their
    common shape replaces the [k] indexed axes.  Positions are not checked
    against the shape of [src]. *)
Definition gather (src : array) (start_axis : nat) (idx : list itensor) : result array :=
  let k := length idx in
  if ndim (data src) <? start_axis + k then Raise ValueError
  else
    bsh ← broadcast_shapes_list (map shape idx);
    let nb := length bsh in
    let sizes := drop start_axis (ashape src) in
    Ok (Array (dtype src)
         (Tensor (take start_axis (ashape src) ++ bsh ++ drop (start_axis + k) (ashape src))
                 (fun p =>
                    let bp := take nb (drop start_axis p) in
                    aat src (take start_axis p
                             ++ zip_with (fun it size => norm_index size (at_ it (bindex (shape it) bp)))
                                         idx sizes
                             ++ drop (start_axis + nb) p)))).

(** ** Python helpers *)

(** [functools.reduce(f, l)] without an initial value. *)
Fixpoint reduce_from {A} (f : A -> A -> result A) (acc : A) (l : list A) : result A :=
  match l with
  | [] => Ok acc
  | x :: l' => acc' ← f acc x; reduce_from f acc' l'
  end.

Definition reduce {A} (f : A -> A -> result A) (l : list A) : result A :=
  match l with
  | [] => Raise TypeError
  | x :: l' => reduce_from f x l'
  end.

(** [itertools.product] of the lists [ls]: the first list varies slowest. *)
Fixpoint product {A} (ls : list (list A)) : list (list A) :=
  match ls with
  | [] => [[]]
  | l :: ls' => x ← l; r ← product ls'; [x :: r]
  end.

(** [mapM] for [result], evaluated left to right. *)
Fixpoint traverse {A B} (f : A -> result B) (l : list A) : result (list B) :=
  match l with
  | [] => Ok []
  | x :: l' => y ← f x; ys ← traverse f l'; Ok (y :: ys)
  end.

(** Shape operations lifted to arrays. *)
Definition areshape (a : array) (dims : list Z) : result array :=
  t ← reshape (data a) dims; Ok (Array (dtype a) t).
Definition atranspose (a : array) (axes : list nat) : array :=
  Array (dtype a) (transpose (data a) axes).
(** [a.T]: all axes reversed. *)
Definition aT (a : array) : array := atranspose a (rev (seq 0 (andim a))).
Definition asplit (a : array) (n : nat) : result (list array) :=
  ts ← split (data a) n; Ok (map (Array (dtype a)) ts).
Definition asqueeze0 (a : array) : result array :=
  t ← squeeze0 (data a); Ok (Array (dtype a) t).

(** * The source: [keras/backend/mlx/image.py] *)

Local Open Scope string_scope.
Local Open Scope Z_scope.

(** Modelled from the spec: [convert_to_tensor] and [to_mlx_dtype] live in
    [keras/backend/mlx/core.py], which is outside the sources at hand.  The
    spec treats the conversion of caller inputs into tensors as an external
    collaborator; callers of this model pass arrays, on which the conversion
    is the identity, and runtime element types, which [to_mlx_dtype] returns
    unchanged. *)
Definition convert_to_tensor (a : array) : array := a.
Definition to_mlx_dtype (d : Dtype) : Dtype := d.

Definition index_fixer : Type := itensor -> Z -> result itensor.

Definition _mirror_index_fixer : index_fixer := fun index size =>
  let s := size - 1 in
  r ← i_remainder (i_add index s) (2 * s);
  Ok (i_abs (i_sub r s)).

Definition _reflect_index_fixer : index_fixer := fun index size =>
  m ← _mirror_index_fixer (i_add (i_rmul 2 index) 1) (2 * size + 1);
  i_floor_divide (i_sub m 1) 2.

Definition _INDEX_FIXERS : gmap string index_fixer :=
  {[ "constant" := (fun index size => Ok (i_clip index 0 (size - 1))) : index_fixer;
     "nearest" := (fun index size => Ok (i_clip index 0 (size - 1))) : index_fixer;
     "wrap" := (fun index size => i_remainder index size) : index_fixer;
     "mirror" := _mirror_index_fixer;
     "reflect" := _reflect_index_fixer ]}.

Definition _is_integer (a : array) : bool :=
  bool_decide (to_mlx_dtype (dtype a)
               ∈ [int32; uint32; int64; uint64; int16; uint16; int8; uint8]).

(** A weight is the Python number [1] or an array. *)
Inductive weight : Type :=
| WPy (n : pynum)
| WArr (a : array).

Definition kernel : Type := array -> result (list (itensor * weight)).

Definition _nearest_indices_and_weights : kernel := fun coordinate =>
  let coordinate := if _is_integer coordinate then coordinate else mx_round coordinate in
  let index := astype_int32 coordinate in
  Ok [(index, WPy (PyInt 1))].

Definition _linear_indices_and_weights : kernel := fun coordinate =>
  let lower := mx_floor coordinate in
  upper_weight ← mx_subtract coordinate lower;
  let lower_weight := mx_rsub_py (PyInt 1) upper_weight in
  let index := astype_int32 lower in
  Ok [(index, WArr lower_weight); (i_add index 1, WArr upper_weight)].

(** [_expand], the local helper of [_extract_coordinates]: trailing axes of
    length 1 are appended until the rank of [src] is reached. *)
Definition _expand {A} (src : array) (x : tensor A) : result (tensor A) :=
  reshape x (map Z.of_nat (shape x) ++ replicate (andim src - ndim x)%nat 1).

Definition _expand_weight (src : array) (w : weight) : result weight :=
  match w with
  | WPy n => Ok (WPy n)
  | WArr a => t ← _expand src (data a); Ok (WArr (Array (dtype a) t))
  end.

(** [operator.mul] on weights and [contribution * weight]. *)
Definition py_mul (m n : pynum) : pynum :=
  match m, n with
  | PyInt a, PyInt b => PyInt (a * b)
  | _, _ => PyFloat (py_value m * py_value n)
  end.

Definition weight_mul (v w : weight) : result weight :=
  match v, w with
  | WPy m, WPy n => Ok (WPy (py_mul m n))
  | WPy m, WArr a => Ok (WArr (mx_multiply_py a m))
  | WArr a, WPy n => Ok (WArr (mx_multiply_py a n))
  | WArr a, WArr b => c ← mx_multiply a b; Ok (WArr c)
  end.

(** [isinstance(weight, (float, int)) and weight == 1]. *)
Definition weight_is_one (w : weight) : bool :=
  match w with
  | WPy n => Qeq_bool (py_value n) 1
  | WArr _ => false
  end.

Definition apply_weight (contribution : array) (w : weight) : result array :=
  match w with
  | WPy n => Ok (mx_multiply_py contribution n)
  | WArr a => mx_multiply contribution a
  end.

Definition candidate : Type := itensor * mask * weight.

(** The element of the list comprehension in the first loop of
    [_extract_coordinates]: the fixed index, the expanded validity mask and
    the expanded weight of one pair returned by the kernel. *)
Definition candidate_step (src : array) (index_fixer : index_fixer) (size : nat)
    (iw : itensor * weight) : result candidate :=
  let '(index, weight) := iw in
  fixed ← index_fixer index (Z.of_nat size);
  valid ← mx_logical_and (i_rle 0 index) (i_lt index (Z.of_nat size));
  valid ← _expand src valid;
  weight ← _expand_weight src weight;
  Ok (fixed, valid, weight).

(** The first loop of [_extract_coordinates]: the candidates of one axis. *)
Definition axis_candidates (src : array) (interpolation_function : kernel)
    (index_fixer : index_fixer) (ci : array) (size : nat) : result (list candidate) :=
  cands ← interpolation_function ci;
  traverse (candidate_step src index_fixer size) cands.

(** The body of the second loop: the contribution of one combination. *)
Definition contribution_of (src : array) (fill_value : pyobj) (check_validity : bool)
    (start_axis : nat) (items : list candidate) : result array :=
  match items with
  | [] => Raise ValueError
  | _ =>
      let indices := map (fun c => c.1.1) items in
      let validities := map (fun c => c.1.2) items in
      let weights := map (fun c => c.2) items in
      contribution ← gather src start_axis indices;
      contribution ←
        (if check_validity then
           all_valid ← reduce mx_logical_and validities;
           mx_where all_valid contribution fill_value
         else Ok contribution);
      weight ← reduce weight_mul weights;
      if weight_is_one weight then Ok contribution
      else apply_weight contribution weight
  end.

(** The running sum over all combinations, before rounding and casting. *)
Definition accumulate (src : array) (coordinates : list array)
    (interpolation_function : kernel) (index_fixer : index_fixer)
    (fill_value : pyobj) (check_validity : bool) (start_axis : nat) : result array :=
  indices ← traverse (fun '(ci, size) =>
                        axis_candidates src interpolation_function index_fixer ci size)
                     (zip coordinates (drop start_axis (ashape src)));
  outputs ← traverse (contribution_of src fill_value check_validity start_axis)
                     (product indices);
  reduce mx_add outputs.

Definition _extract_coordinates (src : array) (coordinates : list array)
    (interpolation_function : kernel) (index_fixer : index_fixer)
    (fill_value : pyobj) (check_validity : bool) (start_axis : nat) : result array :=
  result ← accumulate src coordinates interpolation_function index_fixer
             fill_value check_validity start_axis;
  let result :=
    if _is_integer src && negb (_is_integer result) then mx_round result else result in
  Ok (astype (dtype src) result).

Definition map_coordinates (input : array) (coordinates : list array) (order : Z)
    (fill_mode : string) (fill_value : pyobj) : result array :=
  let input_arr := convert_to_tensor input in
  let coordinate_arrs := map convert_to_tensor coordinates in
  let fill_value :=
    match fill_value with
    | PyNum n => if _is_integer input_arr then PyNum (py_int n) else fill_value
    | PyArr _ => fill_value
    end in
  if negb (length coordinates =? length (ashape input_arr))%nat then Raise ValueError
  else
    match _INDEX_FIXERS !! fill_mode with
    | None => Raise ValueError
    | Some index_fixer =>
        interp_fun ←
          (if order =? 0 then Ok _nearest_indices_and_weights
           else if order =? 1 then Ok _linear_indices_and_weights
           else Raise NotImplementedError);
        _extract_coordinates input_arr coordinate_arrs interp_fun index_fixer
          fill_value (bool_decide (fill_mode = "constant")) 0
    end.

Definition AFFINE_TRANSFORM_INTERPOLATIONS : gmap string kernel :=
  {[ "nearest" := _nearest_indices_and_weights;
     "bilinear" := _linear_indices_and_weights ]}.

Definition AFFINE_TRANSFORM_FILL_MODES : gset string :=
  {[ "constant"; "nearest"; "wrap"; "mirror"; "reflect" ]}.

Definition _affine_transform (src transform : array) (target_size : nat * nat)
    (interpolation_function : kernel) (index_fixer : index_fixer)
    (fill_value : pyobj) (check_validity : bool) : result array :=
  y_target ← areshape (mx_arange target_size.1) [1; -1; 1];
  x_target ← areshape (mx_arange target_size.2) [1; 1; -1];
  flat ← areshape (aT transform) [-1];
  rows ← areshape flat [8; -1];
  parts ← asplit rows 8;
  coefficients ← traverse (fun t => areshape t [-1; 1; 1]) parts;
  match coefficients with
  | [a0; a1; a2; b0; b1; b2; c0; c1] =>
      c0x ← mx_multiply c0 x_target;
      c1y ← mx_multiply c1 y_target;
      k ← mx_add c0x c1y;
      let k := mx_add_py k (PyInt 1) in
      a0x ← mx_multiply a0 x_target;
      a1y ← mx_multiply a1 y_target;
      xn ← mx_add a0x a1y;
      xn ← mx_add xn a2;
      x_src ← mx_divide xn k;
      b0x ← mx_multiply b0 x_target;
      b1y ← mx_multiply b1 y_target;
      yn ← mx_add b0x b1y;
      yn ← mx_add yn b2;
      y_src ← mx_divide yn k;
      indices ←
        (if (andim src =? 3)%nat then
           y ← asqueeze0 y_src;
           x ← asqueeze0 x_src;
           Ok [y; x]
         else
           batch ← areshape (mx_arange (hd 0%nat (ashape src))) [-1; 1; 1];
           Ok [batch; y_src; x_src]);
      _extract_coordinates src indices interpolation_function index_fixer
        fill_value check_validity 0
  | _ => Raise ValueError
  end.

(** The layout change of [channels_first] inputs, and its inverse. *)
Definition to_channels_last (image : array) : array :=
  if (andim image =? 4)%nat then atranspose image [0; 2; 3; 1]%nat
  else atranspose image [1; 2; 0]%nat.

Definition to_channels_first (rank : nat) (result : array) : array :=
  if (rank =? 4)%nat then atranspose result [0; 3; 1; 2]%nat
  else atranspose result [2; 0; 1]%nat.

Definition affine_transform (image transform : array) (interpolation fill_mode : string)
    (fill_value : pyobj) (data_format : string) : result array :=
  match AFFINE_TRANSFORM_INTERPOLATIONS !! interpolation with
  | None => Raise ValueError
  | Some interpolation_function =>
      if negb (bool_decide (fill_mode ∈ AFFINE_TRANSFORM_FILL_MODES)) then Raise ValueError
      else
        let image := convert_to_tensor image in
        let transform := convert_to_tensor transform in
        if negb (bool_decide (andim image ∈ [3; 4]%nat)) then Raise ValueError
        else if negb (bool_decide (andim transform ∈ [1; 2]%nat)) then Raise ValueError
        else
          let image :=
            if bool_decide (data_format = "channels_first")
            then to_channels_last image else image in
          match _INDEX_FIXERS !! fill_mode with
          | None => Raise ValueError
          | Some index_fixer =>
              let sh := ashape image in
              let target_size :=
                if (andim image =? 3)%nat
                then (nth 0 sh 0%nat, nth 1 sh 0%nat)
                else (nth 1 sh 0%nat, nth 2 sh 0%nat) in
              result ← _affine_transform image transform target_size
                         interpolation_function index_fixer fill_value
                         (bool_decide (fill_mode = "constant"));
              Ok (if bool_decide (data_format = "channels_first")
                  then to_channels_first (andim image) result else result)
          end
  end.

(** Python's true division of two non-negative integers. *)
Definition py_truediv (a b : nat) : result Q :=
  if (b =? 0)%nat then Raise ZeroDivisionError
  else Ok (Z.of_nat a # Pos.of_nat b).

Definition resize (image : array) (size : nat * nat) (interpolation : string)
    (antialias : bool) (data_format : string) : result array :=
  if antialias then Raise NotImplementedError
  else
    match AFFINE_TRANSFORM_INTERPOLATIONS !! interpolation with
    | None => Raise ValueError
    | Some interpolation_function =>
        let image := convert_to_tensor image in
        if negb (bool_decide (andim image ∈ [3; 4]%nat)) then Raise ValueError
        else
          let image :=
            if bool_decide (data_format = "channels_first")
            then to_channels_last image else image in
          let sh := ashape image in
          let H := nth (length sh - 3) sh 0%nat in
          let W := nth (length sh - 2) sh 0%nat in
          sy ← py_truediv H size.1;
          sx ← py_truediv W size.2;
          let transform := mx_array [sy; 0; 0; 0; sx; 0; 0; 0]%Q in
          match _INDEX_FIXERS !! "constant" with
          | None => Raise ValueError
          | Some index_fixer =>
              result ← _affine_transform image transform size interpolation_function
                         index_fixer (PyNum (PyInt 0)) false;
              Ok (if bool_decide (data_format = "channels_first")
                  then to_channels_first (andim image) result else result)
          end
    end.

(** ** Building and reading small arrays *)

Definition array1 (d : Dtype) (l : list Q) : array :=
  Array d (Tensor [length l] (fun p => nth (nth 0 p 0%nat) l 0%Q)).

Definition array_of (d : Dtype) (sh : list nat) (l : list Q) : array :=
  Array d (Tensor sh (fun p => nth (ravel sh p) l 0%Q)).

Definition values (a : array) : list Q := map Qred (to_list (data a)).

Definition run (r : result array) : result (Dtype * list nat * list Q) :=
  a ← r; Ok (dtype a, ashape a, values a).

(** ** The boundary policy as a function of the fill mode *)

(** A Python [int] used where an index tensor is expected. *)
Definition scalar (z : Z) : itensor := Tensor [] (fun _ => z).

(** The fixer a fill mode selects, applied: the lookup [_INDEX_FIXERS[mode]]
    followed by the call. *)
Definition fix_index (fill_mode : string) (index : itensor) (size : Z) : result itensor :=
  match _INDEX_FIXERS !! fill_mode with
  | Some index_fixer => index_fixer index size
  | None => Raise ValueError
  end.

(** The same on a single integer. *)
Definition fix_scalar (fill_mode : string) (index size : Z) : result Z :=
  r ← fix_index fill_mode (scalar index) size; Ok (at_ r []).

(** The triangular waves of [mirror] and [reflect] on one integer. *)
Definition mirror_Z (x size : Z) : Z :=
  Z.abs ((x + (size - 1)) mod (2 * (size - 1)) - (size - 1)).

Definition reflect_Z (x size : Z) : Z :=
  (mirror_Z (2 * x + 1) (2 * size + 1) - 1) / 2.

(** An element that is a whole number. *)
Definition integral (q : Q) : Prop := exists z : Z, q = inject_Z z.

(** A weight that is an array of floating-point numbers. *)
Definition float_weight (w : weight) : Prop :=
  exists a, w = WArr a /\ is_floating (dtype a) = true.

(** The transform [(1, 0, 0, 0, 1, 0, 0, 0)]. *)
Definition identity_transform : array := array1 float32 [1; 0; 0; 0; 1; 0; 0; 0]%Q.

(** What a test reads off a result: element type, shape and one element. *)
Definition observe (r : result array) (p : list nat) : result (Dtype * list nat * Q) :=
  a ← r; Ok (dtype a, ashape a, aat a p).

(** ** Reading tensors through broadcasting *)

(** The element of [t] that an operation reads at output position [P]. *)
Definition view {A} (t : tensor A) (P : list nat) : A := at_ t (bindex (shape t) P).

Definition aview (a : array) (P : list nat) : Q := view (data a) P.

(** [sh] broadcasts to [OS] without changing it, axis by axis. *)
Definition fits (sh OS : list nat) : Prop :=
  Forall2 (fun d D => d = D \/ d = 1%nat) sh OS.

Definition fits_mask (OS : list nat) (m : mask) : Prop := fits (shape m) OS.
Definition fits_array (OS : list nat) (a : array) : Prop := fits (ashape a) OS.

(** The result of [_expand] on [x] with [e] appended axes. *)
Definition expanded {A} (x : tensor A) (e : nat) : tensor A :=
  Tensor (shape x ++ replicate e 1%nat)
         (fun p => at_ x (unravel (shape x) (ravel (shape x ++ replicate e 1%nat) p))).

(** ** The loop of [_extract_coordinates], element by element *)

(** The element gathered for one combination at output position [P]. *)
Definition gathered (src : array) (bsh : list nat) (idx : list itensor) (P : list nat) : Q :=
  aat src (zip_with (fun it size => norm_index size (view it (take (length bsh) P)))
                    idx (ashape src)
           ++ drop (length bsh) P)%list.

(** The same after the validity test. *)
Definition masked (src : array) (bsh : list nat) (n : pynum) (check_validity : bool)
    (items : list candidate) (P : list nat) : Q :=
  let g := gathered src bsh (map (fun c : candidate => c.1.1) items) P in
  if check_validity then
    if forallb (fun c : candidate => view c.1.2 P) items then g
    else cast (scalar_dtype n (dtype src)) (py_value n)
  else g.

(** The weight of a candidate read at an output position, and the product
    over one combination in the order of [functools.reduce]. *)
Definition wview (P : list nat) (c : candidate) : Q :=
  match c.2 with
  | WArr a => aview a P
  | WPy n => py_value n
  end.

Definition weight_product (items : list candidate) (P : list nat) : Q :=
  match items with
  | [] => 1
  | c :: rest => fold_left Qmult (map (wview P) rest) (wview P c)
  end.

Definition array_weight (OS : list nat) (c : candidate) : Prop :=
  exists a, c.2 = WArr a /\ fits_array OS a.

(** A fixer that is defined on an axis of length [size], returns indices of
    that axis, and leaves the indices of the axis alone. *)
Definition good_fixer (fx : index_fixer) (size : Z) : Prop :=
  forall index, exists r,
    fx index size = Ok r /\ shape r = shape index /\
    forall p, 0 <= at_ r p < size /\ (0 <= at_ index p < size -> at_ r p = at_ index p).

(** The validity test [0 <= index < size]. *)
Definition in_range (size : nat) (i : Z) : bool := (0 <=? i) && (i <? Z.of_nat size).

(** What [candidate_step] makes of one pair returned by the kernel, for
    index tensors that broadcast to [bsh] and outputs of shape [bsh ++ T]. *)
Definition candidate_of (fx : index_fixer) (bsh T : list nat) (size : nat)
    (iw : itensor * weight) (c : candidate) : Prop :=
  fx iw.1 (Z.of_nat size) = Ok c.1.1 /\
  shape c.1.1 = shape iw.1 /\
  fits (shape c.1.2) (bsh ++ T)%list /\
  (forall P, in_bounds (bsh ++ T)%list P ->
             view c.1.2 P = in_range size (view iw.1 (take (length bsh) P))) /\
  match iw.2 with
  | WPy n => c.2 = WPy n
  | WArr a => exists a', c.2 = WArr a' /\ fits_array (bsh ++ T)%list a' /\
                         forall P, in_bounds (bsh ++ T)%list P ->
                                   aview a' P = aview a (take (length bsh) P)
  end.

Definition raw_shape (sh : list nat) (iw : itensor * weight) : Prop :=
  shape iw.1 = sh /\ match iw.2 with WPy _ => True | WArr a => ashape a = sh end.

(** ** Notions of the element-by-element theorems *)

Definition sum_list (l : list Q) : Q := fold_right Qplus 0%Q l.

(** The candidates of one axis, related to what the kernel returned: the
    kernel returns pairs of the shape of the coordinate, with weights that
    satisfy [Wp], and [candidate_step] turns each pair into one candidate. *)
Definition axis_rel (src : array) (fx : index_fixer) (kf : kernel) (coords : list array)
    (bsh : list nat) (Wp : weight -> Prop) (cs : array * nat) (L : list candidate) : Prop :=
  exists raws,
    kf cs.1 = Ok raws /\ raws <> [] /\ Forall (raw_shape (ashape cs.1)) raws /\
    Forall (fun iw : itensor * weight => Wp iw.2) raws /\
    Forall2 (candidate_of fx bsh (drop (length coords) (ashape src)) cs.2) raws L.

(** One combination takes one candidate from every axis. *)
Definition picks (Ls : list (list candidate)) (items : list candidate) : Prop :=
  Forall2 (fun c L => c ∈ L) items Ls.

Definition item_rel (src : array) (fx : index_fixer) (coords : list array)
    (bsh : list nat) (Wp : weight -> Prop) (cs : array * nat) (c : candidate) : Prop :=
  exists iw, raw_shape (ashape cs.1) iw /\ Wp iw.2 /\
             candidate_of fx bsh (drop (length coords) (ashape src)) cs.2 iw c.

(** A list of candidates whose first element has weight 1 at [P] and whose
    other elements have weight 0 there. *)
Definition dominant (P : list nat) (L : list candidate) (c0 : candidate) : Prop :=
  exists rest, L = c0 :: rest /\ (wview P c0 == 1)%Q /\
               Forall (fun c => wview P c == 0)%Q rest.

(** The product of the weights of one combination, from the right. *)
Definition wprod (P : list nat) (items : list candidate) : Q :=
  fold_right (fun c acc => wview P c * acc)%Q 1%Q items.

(** The weight a kernel returned, read at a position of the coordinates. *)
Definition rw (bp : list nat) (w : weight) : Q :=
  match w with WPy n => py_value n | WArr a => aview a bp end.

(** The pairs of a kernel at a coordinate that is the whole number [z]: the
    first pair has index [z] and weight 1, the others have weight 0. *)
Definition hits (bp : list nat) (z : Z) (raws : list (itensor * weight)) : Prop :=
  exists iw0 rest, raws = iw0 :: rest /\ view iw0.1 bp = z /\ (rw bp iw0.2 == 1)%Q /\
                   Forall (fun iw : itensor * weight => rw bp iw.2 == 0)%Q rest.

Definition hit_at (kf : kernel) (bsh : list nat) (P : list nat) (cs : array * nat) (z : Z)
  : Prop :=
  (0 <= z < Z.of_nat cs.2)%Z /\
  forall raws, kf cs.1 = Ok raws -> hits (take (length bsh) P) z raws.

(** A value that the element type [d] holds: converting it changes nothing. *)
Definition representable (d : Dtype) (q : Q) : Prop := (cast d q == q)%Q.

(** Every element of [a] is a value of its element type. *)
Definition well_typed (a : array) : Prop :=
  forall P, in_bounds (ashape a) P -> representable (dtype a) (aat a P).

(** The interpolation kernels of the module. *)
Definition is_kernel (kf : kernel) : Prop :=
  kf = _nearest_indices_and_weights \/ kf = _linear_indices_and_weights.

(** Coordinate [cs.1] at position [bp] is the whole number [z], inside an
    axis of length [cs.2]. *)
Definition whole_at (bp : list nat) (cs : array * nat) (z : Z) : Prop :=
  (0 <= z < Z.of_nat cs.2)%Z /\ (aview cs.1 bp == inject_Z z)%Q.

(** An axis that fill mode [mode] handles: it is not empty, and [mirror]
    needs more than one element. *)
Definition axis_ok (mode : string) (d : nat) : Prop :=
  (0 < d)%nat /\ (mode = "mirror" -> (1 < d)%nat).

(** One of the eight coefficients of a transform: a [float32] array of
    shape [1; 1; 1] that holds [v]. *)
Definition coefficient (v : Q) (a : array) : Prop :=
  dtype a = float32 /\ ashape a = [1; 1; 1]%nat /\ aat a [0; 0; 0]%nat = v.

(** A target grid: the numbers [0 .. n-1] along axis [axis] of a rank 3
    array whose other axes have length 1, as [mx.arange(n).reshape(dims)]
    builds it. *)
Definition grid_shape (axis n : nat) : list nat := <[axis := n]> [1; 1; 1]%nat.
Definition grid_pos (axis i : nat) : list nat := <[axis := i]> [0; 0; 0]%nat.
Definition grid_dims (axis : nat) : list Z := <[axis := (-1)%Z]> [1; 1; 1]%Z.

Definition grid (axis n : nat) (a : array) : Prop :=
  dtype a = int32 /\ ashape a = grid_shape axis n /\
  forall i, (i < n)%nat -> aat a (grid_pos axis i) = inject_Z (Z.of_nat i).

(** ** Notions of the sampling theorems *)

(** Coefficient [i] of a transform of 8 numbers. *)
Definition coef (transform : array) (i : nat) : Q := aat transform [i].

(** The source coordinates [_affine_transform] computes for the target
    pixel in row [y] and column [x]: [k], [x_src] and [y_src]. *)
Definition k_at (t : array) (y x : nat) : Q :=
  coef t 6 * inject_Z (Z.of_nat x) + coef t 7 * inject_Z (Z.of_nat y) + 1.
Definition x_src_at (t : array) (y x : nat) : Q :=
  (coef t 0 * inject_Z (Z.of_nat x) + coef t 1 * inject_Z (Z.of_nat y) + coef t 2)
  / k_at t y x.
Definition y_src_at (t : array) (y x : nat) : Q :=
  (coef t 3 * inject_Z (Z.of_nat x) + coef t 4 * inject_Z (Z.of_nat y) + coef t 5)
  / k_at t y x.

(** A coefficient array of element type [d]. *)
Definition coefficient_in (d : Dtype) (v : Q) (a : array) : Prop :=
  dtype a = d /\ ashape a = [1; 1; 1]%nat /\ aat a [0; 0; 0]%nat = v.

(** Row and column of a pixel position of rank 3 or 4, and the position with
    another row and column. *)
Definition pixel_row (P : list nat) : nat := nth (length P - 3) P 0%nat.
Definition pixel_col (P : list nat) : nat := nth (length P - 2) P 0%nat.
Definition move_pixel (P : list nat) (y x : nat) : list nat :=
  <[(length P - 3)%nat := y]> (<[(length P - 2)%nat := x]> P).

(** The index the nearest kernel returns for coordinate array [c], read at
    position [bp]. *)
Definition nearest_index (c : array) (bp : list nat) : Z :=
  Qtrunc (aview (if _is_integer c then c else mx_round c) bp).

(** The fixed indices of one sample point, one per coordinate array, and
    the test that every unfixed index lies inside its axis. *)
Definition sampled (mode : string) (css : list (array * nat)) (bp : list nat)
  : result (list Z) :=
  traverse (fun cs : array * nat => fix_scalar mode (nearest_index cs.1 bp) (Z.of_nat cs.2))
           css.

Definition all_inside (css : list (array * nat)) (bp : list nat) : bool :=
  forallb (fun cs : array * nat => in_range cs.2 (nearest_index cs.1 bp)) css.

(** The element [mx.where] substitutes for the fill value [n] in an array of
    element type [d]. *)
Definition fill_element (n : pynum) (d : Dtype) : Q := cast (scalar_dtype n d) (py_value n).

(** What one candidate of the nearest kernel is at position [P], for the
    coordinate array and axis length [cs]. *)
Definition head_of (mode : string) (bsh : list nat) (P : list nat) (cs : array * nat)
    (c : candidate) : Prop :=
  let bp := take (length bsh) P in
  view c.1.2 P = in_range cs.2 (nearest_index cs.1 bp) /\
  fix_scalar mode (nearest_index cs.1 bp) (Z.of_nat cs.2) = Ok (view c.1.1 bp) /\
  (0 <= view c.1.1 bp < Z.of_nat cs.2)%Z.

(** The fill value [map_coordinates] passes on: [int(fill_value)] for an
    integer input. *)
Definition passed_fill (input : array) (n : pynum) : pynum :=
  if _is_integer input then py_int n else n.

(** The two taps of the linear kernel on an axis of length [a.2] at
    coordinate [a.1]: index, weight and axis length. *)
Definition linear_taps (a : Q * nat) : list (Z * Q * nat) :=
  [(Qfloor a.1, (1 - (a.1 - inject_Z (Qfloor a.1)))%Q, a.2);
   ((Qfloor a.1 + 1)%Z, (a.1 - inject_Z (Qfloor a.1))%Q, a.2)].

(** One corner takes one tap from every axis: its weight, the test that all
    its unfixed indices lie inside their axes, and its fixed indices. *)
Definition corner_weight (corner : list (Z * Q * nat)) : Q :=
  fold_right (fun (t : Z * Q * nat) acc => t.1.2 * acc)%Q 1%Q corner.

Definition corner_inside (corner : list (Z * Q * nat)) : bool :=
  forallb (fun t : Z * Q * nat => in_range t.2 t.1.1) corner.

Definition corner_index (mode : string) (corner : list (Z * Q * nat)) : result (list Z) :=
  traverse (fun t : Z * Q * nat => fix_scalar mode t.1.1 (Z.of_nat t.2)) corner.

(** The weighted sum over the corners of the cell around a point with
    coordinates and axis lengths [axes]; [rest] indexes the axes that are not
    sampled. *)
Definition blend_term (mode : string) (src : array) (n : pynum) (cv : bool)
    (rest : list nat) (corner : list (Z * Q * nat)) : result Q :=
  idx ← corner_index mode corner;
  Ok (corner_weight corner *
      (if cv && negb (corner_inside corner) then fill_element n (dtype src)
       else aat src (map Z.to_nat idx ++ rest)%list))%Q.

Definition blend (mode : string) (src : array) (n : pynum) (cv : bool)
    (axes : list (Q * nat)) (rest : list nat) : result Q :=
  terms ← traverse (blend_term mode src n cv rest) (product (map linear_taps axes));
  Ok (sum_list terms).

(** The last step of the resampler on a floating-point sum [s]: rounding for
    an integer source, then conversion to its element type. *)
Definition finalized (src : array) (s : Q) : Q :=
  cast (dtype src) (if _is_integer src then inject_Z (Qround_even s) else s).

(** What one candidate is at position [P] for the tap [t]. *)
Definition tap_of (mode : string) (bsh : list nat) (P : list nat) (t : Z * Q * nat)
    (c : candidate) : Prop :=
  let bp := take (length bsh) P in
  view c.1.2 P = in_range t.2 t.1.1 /\
  fix_scalar mode t.1.1 (Z.of_nat t.2) = Ok (view c.1.1 bp) /\
  (0 <= view c.1.1 bp < Z.of_nat t.2)%Z /\
  (wview P c == t.1.2)%Q.

(** Bilinear sampling of pixel [P] of an image of rank 3 or 4 at source row
    [ys] and column [xs]: the weighted sum over the four corners of the
    cell. *)
Definition bilinear_term (mode : string) (cv : bool) (image : array) (n : pynum)
    (P : list nat) (corner : list (Z * Q * nat)) : result Q :=
  idx ← corner_index mode corner;
  Ok (corner_weight corner *
      (if cv && negb (corner_inside corner) then fill_element n (dtype image)
       else aat image (move_pixel P (Z.to_nat (nth 0 idx 0%Z)) (Z.to_nat (nth 1 idx 0%Z)))))%Q.

Definition bilinear_at (mode : string) (cv : bool) (image : array) (n : pynum)
    (P : list nat) (ys xs : Q) : result Q :=
  terms ← traverse (bilinear_term mode cv image n P)
             (product [linear_taps (ys, pixel_row (ashape image));
                       linear_taps (xs, pixel_col (ashape image))]);
  Ok (sum_list terms).

(** Taps that agree up to the representation of the weight. *)
Definition same_tap (t t' : Z * Q * nat) : Prop :=
  t.1.1 = t'.1.1 /\ (t.1.2 == t'.1.2)%Q /\ t.2 = t'.2.

(** * Verification *)

(** ** The [result] monad *)

Lemma bind_Ok {A B} (m : result A) (f : A -> result B) (b : B) :
  m ≫= f = Ok b -> exists a, m = Ok a /\ f a = Ok b.
Proof. destruct m as [a|e]; simpl; [eauto | discriminate]. Qed.

Ltac inv_bind H :=
  let a := fresh "a" in
  let Ha := fresh "H" a in
  apply bind_Ok in H; destruct H as (a & Ha & H).

Lemma traverse_Forall2 {A B} (f : A -> result B) l l' :
  traverse f l = Ok l' -> Forall2 (fun x y => f x = Ok y) l l'.
Proof.
  revert l'. induction l as [|x l IH]; intros l' H; simpl in H.
  - injection H as <-. constructor.
  - inv_bind H. inv_bind H. injection H as <-. constructor; auto.
Qed.

(** ** Rounding *)

Lemma Qtrunc_inject_Z z : Qtrunc (inject_Z z) = z.
Proof.
  unfold Qtrunc. destruct (Qle_bool 0 (inject_Z z)); [apply Qfloor_Z | apply Qceiling_Z].
Qed.

Lemma Qround_even_inject_Z z : Qround_even (inject_Z z) = z.
Proof.
  unfold Qround_even. rewrite Qfloor_Z.
  assert (E : (inject_Z z - inject_Z z ?= 1 # 2)%Q = Lt).
  { rewrite <- Qlt_alt. lra. }
  by rewrite E.
Qed.

Lemma Qround_even_nearest q : (Qabs (q - inject_Z (Qround_even q)) <= 1 # 2)%Q.
Proof.
  unfold Qround_even.
  pose proof (Qfloor_le q) as Hlo. pose proof (Qlt_floor q) as Hhi.
  set (f := Qfloor q) in *.
  rewrite inject_Z_plus in Hhi. change (inject_Z 1) with 1%Q in Hhi.
  apply Qabs_Qle_condition.
  destruct (Qcompare_spec (q - inject_Z f) (1 # 2)) as [E|E|E].
  - destruct (Z.even f).
    + split; lra.
    + rewrite inject_Z_plus. change (inject_Z 1) with 1%Q. split; lra.
  - split; lra.
  - rewrite inject_Z_plus. change (inject_Z 1) with 1%Q. split; lra.
Qed.

(** [Qtrunc] moves toward zero and by less than one. *)
Lemma Qtrunc_toward_zero q :
  (Qabs (inject_Z (Qtrunc q)) <= Qabs q)%Q /\ (Qabs (q - inject_Z (Qtrunc q)) < 1)%Q.
Proof.
  unfold Qtrunc. destruct (Qle_bool 0 q) eqn:E.
  - apply Qle_bool_iff in E.
    pose proof (Qfloor_le q) as Hlo. pose proof (Qlt_floor q) as Hhi.
    rewrite inject_Z_plus in Hhi. change (inject_Z 1) with 1%Q in Hhi.
    assert (H0 : (0 <= inject_Z (Qfloor q))%Q).
    { pose proof (Qfloor_resp_le 0 q E) as Hc.
      change (Qfloor 0) with 0%Z in Hc. rewrite Zle_Qle in Hc. exact Hc. }
    rewrite !Qabs_pos by lra. split; lra.
  - assert (Hq : (q < 0)%Q).
    { apply Qnot_le_lt. intros H. apply Qle_bool_iff in H. congruence. }
    pose proof (Qle_ceiling q) as Hhi. pose proof (Qceiling_lt q) as Hlo.
    unfold Z.sub in Hlo. rewrite inject_Z_plus in Hlo.
    change (inject_Z (- (1))) with (-1)%Q in Hlo.
    assert (H0 : (inject_Z (Qceiling q) <= 0)%Q).
    { pose proof (Qceiling_resp_le q 0 (Qlt_le_weak _ _ Hq)) as Hc.
      change (Qceiling 0) with 0%Z in Hc. rewrite Zle_Qle in Hc. exact Hc. }
    rewrite !Qabs_neg by lra. split; lra.
Qed.

(** ** Shapes, positions and broadcasting *)

Section Shapes.
Local Open Scope nat_scope.

Lemma bsel d i : i < d -> (if d =? 1 then 0 else i) = i.
Proof. intros H. destruct (Nat.eqb_spec d 1); lia. Qed.

Lemma in_bounds_length sh p : in_bounds sh p -> length p = length sh.
Proof. apply Forall2_length. Qed.

Lemma bindex_in_bounds sh p : in_bounds sh p -> bindex sh p = p.
Proof.
  intros H. unfold bindex. rewrite (in_bounds_length _ _ H), Nat.sub_diag. simpl.
  induction H as [|i d p sh Hi H IH]; simpl; [done|].
  rewrite bsel by done. f_equal. exact IH.
Qed.

Lemma bdim_same d : bdim d d = Ok d.
Proof. unfold bdim. by rewrite Nat.eqb_refl. Qed.

Lemma bdim_1_l d : bdim 1 d = Ok d.
Proof. unfold bdim. destruct (Nat.eqb_spec 1 d); [by subst|done]. Qed.

Lemma bdim_1_r d : bdim d 1 = Ok d.
Proof.
  unfold bdim. destruct (Nat.eqb_spec d 1); [done|]. by destruct (Nat.eqb_spec 1 1).
Qed.

Lemma bdims_same s : bdims s s = Ok s.
Proof. induction s as [|d s IH]; simpl; [done|]. by rewrite bdim_same, IH. Qed.

Lemma pad_to_same s : pad_to (length s) s = s.
Proof. unfold pad_to. by rewrite Nat.sub_diag. Qed.

Lemma broadcast_shapes_same s : broadcast_shapes s s = Ok s.
Proof. unfold broadcast_shapes. by rewrite Nat.max_id, pad_to_same, bdims_same. Qed.

Lemma broadcast2_same {A B C} (f : A -> B -> C) a b :
  shape a = shape b ->
  broadcast2 f a b
  = Ok (Tensor (shape a)
          (fun p => f (at_ a (bindex (shape a) p)) (at_ b (bindex (shape b) p)))).
Proof. intros E. unfold broadcast2. by rewrite <- E, broadcast_shapes_same. Qed.

Lemma prod_pos sh p : in_bounds sh p -> 0 < prod sh.
Proof. induction 1; simpl; [lia|]. nia. Qed.

Lemma ravel_lt sh p : in_bounds sh p -> ravel sh p < prod sh.
Proof. induction 1 as [|i d p sh Hi H IH]; simpl; [lia|]. nia. Qed.

Lemma unravel_ravel sh p : in_bounds sh p -> unravel sh (ravel sh p) = p.
Proof.
  induction 1 as [|i d p sh Hi H IH]; simpl; [done|].
  pose proof (ravel_lt _ _ H) as Hlt.
  assert (E1 : (i * prod sh + ravel sh p) / prod sh = i).
  { rewrite Nat.div_add_l by lia. rewrite Nat.div_small by lia. lia. }
  assert (E2 : (i * prod sh + ravel sh p) mod prod sh = ravel sh p).
  { rewrite (Nat.add_comm (i * prod sh)), Nat.Div0.mod_add. apply Nat.mod_small; lia. }
  by rewrite E1, E2, IH.
Qed.

Lemma prod_app s1 s2 : prod (s1 ++ s2) = prod s1 * prod s2.
Proof. induction s1; simpl; [lia|]. rewrite IHs1. lia. Qed.

Lemma prod_ones k : prod (replicate k 1) = 1.
Proof. induction k; simpl; lia. Qed.

Lemma ravel_app_ones sh p k :
  length p = length sh ->
  ravel (sh ++ replicate k 1) (p ++ replicate k 0) = ravel sh p.
Proof.
  revert p. induction sh as [|d sh IH]; intros [|i p] Hl; simpl in *; try discriminate.
  - induction k; simpl; [done|]. by rewrite IHk.
  - rewrite IH by lia. by rewrite prod_app, prod_ones, Nat.mul_1_r.
Qed.

End Shapes.

(** ** The index fixers *)

Lemma fix_index_constant index size :
  fix_index "constant" index size = Ok (i_clip index 0 (size - 1)).
Proof. reflexivity. Qed.

Lemma fix_index_nearest index size :
  fix_index "nearest" index size = Ok (i_clip index 0 (size - 1)).
Proof. reflexivity. Qed.

Lemma fix_index_wrap index size :
  fix_index "wrap" index size = i_remainder index size.
Proof. reflexivity. Qed.

Lemma fix_index_mirror index size :
  fix_index "mirror" index size = _mirror_index_fixer index size.
Proof. reflexivity. Qed.

Lemma fix_index_reflect index size :
  fix_index "reflect" index size = _reflect_index_fixer index size.
Proof. reflexivity. Qed.

(** Replaces every lookup of a known fill mode by the fixer it selects. *)
Ltac fix_index_unfold :=
  repeat match goal with
    | |- context [fix_index "constant" ?i ?s] =>
        change (fix_index "constant" i s) with (Ok (i_clip i 0 (s - 1)) : result itensor)
    | |- context [fix_index "nearest" ?i ?s] =>
        change (fix_index "nearest" i s) with (Ok (i_clip i 0 (s - 1)) : result itensor)
    | |- context [fix_index "wrap" ?i ?s] =>
        change (fix_index "wrap" i s) with (i_remainder i s)
    | |- context [fix_index "mirror" ?i ?s] =>
        change (fix_index "mirror" i s) with (_mirror_index_fixer i s)
    | |- context [fix_index "reflect" ?i ?s] =>
        change (fix_index "reflect" i s) with (_reflect_index_fixer i s)
    end.

Lemma fill_modes_cases (m : string) :
  m ∈ AFFINE_TRANSFORM_FILL_MODES ->
  m = "constant" \/ m = "nearest" \/ m = "wrap" \/ m = "mirror" \/ m = "reflect".
Proof.
  unfold AFFINE_TRANSFORM_FILL_MODES. rewrite !elem_of_union, !elem_of_singleton. tauto.
Qed.

Lemma mirror_fixer_at index size :
  size <> 1 ->
  _mirror_index_fixer index size
  = Ok (i_abs (i_sub (tmap (fun x => x mod (2 * (size - 1))) (i_add index (size - 1)))
                     (size - 1))).
Proof.
  intros Hs. unfold _mirror_index_fixer, i_remainder.
  destruct (Z.eqb_spec (2 * (size - 1)) 0) as [E|E]; [lia|]. reflexivity.
Qed.

Lemma mirror_Z_range x size : 1 < size -> 0 <= mirror_Z x size < size.
Proof.
  intros Hs. unfold mirror_Z.
  pose proof (Z.mod_pos_bound (x + (size - 1)) (2 * (size - 1)) ltac:(lia)). lia.
Qed.

(** In [reflect] the wave is taken of an odd number over an even period, so
    it is odd, and halving it after subtracting one stays in range. *)
Lemma reflect_wave_odd x size :
  0 < size ->
  exists m, mirror_Z (2 * x + 1) (2 * size + 1) = 2 * m + 1 /\ 0 <= m < size.
Proof.
  intros Hs. unfold mirror_Z.
  replace (2 * size + 1 - 1) with (2 * size) by lia.
  set (a := 2 * x + 1 + 2 * size).
  pose proof (Z.mod_pos_bound a (2 * (2 * size)) ltac:(lia)) as Hb.
  pose proof (Z.div_mod a (2 * (2 * size)) ltac:(lia)) as Hd.
  set (r := a mod (2 * (2 * size))) in *.
  set (q := a / (2 * (2 * size))) in *.
  assert (Hq : 2 * (2 * size) * q = 4 * (size * q)) by ring.
  rewrite Hq in Hd. set (t := size * q) in *. clearbody t r. subst a.
  exists ((Z.abs (r - 2 * size) - 1) / 2).
  pose proof (Z.div_mod (Z.abs (r - 2 * size) - 1) 2 ltac:(lia)) as Hm.
  pose proof (Z.mod_pos_bound (Z.abs (r - 2 * size) - 1) 2 ltac:(lia)) as Hm2.
  lia.
Qed.

Lemma reflect_Z_range x size : 0 < size -> 0 <= reflect_Z x size < size.
Proof.
  intros Hs. unfold reflect_Z.
  destruct (reflect_wave_odd x size Hs) as (m & -> & Hm).
  replace (2 * m + 1 - 1) with (m * 2) by lia. rewrite Z.div_mul by lia. lia.
Qed.

Lemma reflect_fixer_at index size :
  0 < size ->
  exists r, _reflect_index_fixer index size = Ok r /\ shape r = shape index /\
            forall p, at_ r p = reflect_Z (at_ index p) size.
Proof.
  intros Hs. unfold _reflect_index_fixer.
  rewrite mirror_fixer_at by lia. simpl.
  eexists. split; [reflexivity|]. split; [reflexivity|].
  intros p. simpl. unfold reflect_Z, mirror_Z. reflexivity.
Qed.

(** X1. Every fixer returns a tensor of the shape of its argument whose
    elements lie in [[0, size)], for every positive [size], with one
    exception: [mirror] needs [size > 1]. *)
Theorem index_fixers_in_range (mode : string) (index : itensor) (size : Z) :
  mode ∈ AFFINE_TRANSFORM_FILL_MODES ->
  0 < size ->
  (mode = "mirror" -> 1 < size) ->
  exists r, fix_index mode index size = Ok r /\ shape r = shape index /\
            forall p, 0 <= at_ r p < size.
Proof.
  intros Hm Hs Hmirror.
  destruct (fill_modes_cases _ Hm) as [-> | [-> | [-> | [-> | ->]]]].
  - rewrite fix_index_constant. eexists. repeat split; simpl; lia.
  - rewrite fix_index_nearest. eexists. repeat split; simpl; lia.
  - rewrite fix_index_wrap. unfold i_remainder.
    destruct (Z.eqb_spec size 0); [lia|].
    eexists. split; [reflexivity|]. split; [reflexivity|].
    intros p. simpl. apply Z.mod_pos_bound. lia.
  - specialize (Hmirror eq_refl).
    rewrite fix_index_mirror, mirror_fixer_at by lia.
    eexists. split; [reflexivity|]. split; [reflexivity|].
    intros p. simpl. apply (mirror_Z_range (at_ index p) size Hmirror).
  - rewrite fix_index_reflect.
    destruct (reflect_fixer_at index size Hs) as (r & -> & Hsh & Hat).
    exists r. repeat split; auto; rewrite Hat; apply reflect_Z_range; lia.
Qed.

Lemma index_fixers_in_range_witness :
  exists r, fix_index "reflect" (scalar (-5)) 3 = Ok r /\ shape r = shape (scalar (-5)) /\
            forall p, 0 <= at_ r p < 3.
Proof.
  apply (index_fixers_in_range "reflect" (scalar (-5)) 3).
  - vm_compute. reflexivity.
  - lia.
  - discriminate.
Defined.

(** C3. The [mirror] fixer is not defined on an axis of length 1: the period
    [2 * (size - 1)] of its wave is zero there, and the remainder by zero has
    no value, whatever the index. *)
Theorem mirror_fixer_undefined_on_size_one (index : itensor) :
  fix_index "mirror" index 1 = Raise Undefined.
Proof. reflexivity. Qed.

(** C4. The [wrap] fixer is the mathematical modulo: for a positive [size]
    the fixed index is the remainder of the index in [[0, size)], also for a
    negative index, and shifting the index by a multiple of [size] does not
    change it. *)
Theorem wrap_fixer_true_modulo (index : itensor) (size : Z) :
  0 < size ->
  exists r, fix_index "wrap" index size = Ok r /\ shape r = shape index /\
    forall p,
      0 <= at_ r p < size /\
      (exists q, at_ index p = q * size + at_ r p) /\
      forall k, exists r', fix_index "wrap" (i_add index (k * size)) size = Ok r' /\
                           at_ r' p = at_ r p.
Proof.
  intros Hs. rewrite fix_index_wrap. unfold i_remainder.
  destruct (Z.eqb_spec size 0); [lia|].
  eexists. split; [reflexivity|]. split; [reflexivity|].
  intros p. simpl. split; [apply Z.mod_pos_bound; lia|]. split.
  - exists (at_ index p / size). rewrite Z.mul_comm. apply Z.div_mod. lia.
  - intros k. rewrite fix_index_wrap. unfold i_remainder.
    destruct (Z.eqb_spec size 0); [lia|].
    eexists. split; [reflexivity|]. simpl. apply Z.mod_add. lia.
Qed.

Lemma wrap_fixer_true_modulo_witness :
  exists r, fix_index "wrap" (scalar (-7)) 3 = Ok r /\ shape r = shape (scalar (-7)) /\
    forall p,
      0 <= at_ r p < 3 /\
      (exists q, at_ (scalar (-7)) p = q * 3 + at_ r p) /\
      forall k, exists r', fix_index "wrap" (i_add (scalar (-7)) (k * 3)) 3 = Ok r' /\
                           at_ r' p = at_ r p.
Proof. apply (wrap_fixer_true_modulo (scalar (-7)) 3). lia. Defined.


(** X2. [reflect] repeats the edge sample for every positive size; [mirror]
    does not, for every size above 1. *)
Theorem reflect_repeats_edge_mirror_does_not (size : Z) :
  0 < size ->
  fix_scalar "reflect" (-1) size = Ok 0 /\
  fix_scalar "reflect" 0 size = Ok 0 /\
  (1 < size ->
   fix_scalar "mirror" (-1) size = Ok 1 /\
   fix_scalar "mirror" 1 size = Ok 1 /\
   fix_scalar "mirror" 0 size = Ok 0).
Proof.
  intros Hs. unfold fix_scalar.
  fix_index_unfold.
  destruct (reflect_fixer_at (scalar (-1)) size Hs) as (r1 & -> & _ & H1).
  destruct (reflect_fixer_at (scalar 0) size Hs) as (r2 & -> & _ & H2).
  simpl. rewrite H1, H2. simpl. unfold reflect_Z, mirror_Z.
  replace (2 * size + 1 - 1) with (2 * size) by lia.
  replace (2 * -1 + 1 + 2 * size) with (2 * size - 1) by lia.
  replace (2 * 0 + 1 + 2 * size) with (2 * size + 1) by lia.
  rewrite !Z.mod_small by lia.
  replace (Z.abs (2 * size - 1 - 2 * size) - 1) with (0 * 2) by lia.
  replace (Z.abs (2 * size + 1 - 2 * size) - 1) with (0 * 2) by lia.
  rewrite !Z.div_mul by lia.
  split; [done|]. split; [done|].
  intros H2s. rewrite !mirror_fixer_at by lia. simpl.
  replace (-1 + (size - 1)) with (size - 2) by lia.
  rewrite (Z.mod_small (size - 2)) by lia.
  rewrite (Z.mod_small (0 + (size - 1))) by lia.
  assert (E : ((1 + (size - 1)) mod (2 * (size - 1)) - (size - 1) = 1
               \/ (1 + (size - 1)) mod (2 * (size - 1)) - (size - 1) = -1)).
  { destruct (Z.eq_dec size 2) as [->|Hne]; [right; reflexivity|].
    left. rewrite Z.mod_small by lia. lia. }
  repeat split; f_equal; lia.
Qed.

Lemma reflect_repeats_edge_mirror_does_not_witness :
  fix_scalar "reflect" (-1) 4 = Ok 0 /\
  fix_scalar "reflect" 0 4 = Ok 0 /\
  (1 < 4 ->
   fix_scalar "mirror" (-1) 4 = Ok 1 /\
   fix_scalar "mirror" 1 4 = Ok 1 /\
   fix_scalar "mirror" 0 4 = Ok 0).
Proof. apply (reflect_repeats_edge_mirror_does_not 4). lia. Defined.

(** ** Element types through the loop *)

Lemma astype_dtype d a : dtype (astype d a) = d.
Proof. unfold astype. case_bool_decide; [done|reflexivity]. Qed.

Lemma promote_floating_l a b : is_floating a = true -> is_floating (promote_types a b) = true.
Proof. by destruct a, b. Qed.

Lemma promote_floating_r a b : is_floating b = true -> is_floating (promote_types a b) = true.
Proof. by destruct a, b. Qed.

Lemma promote_types_diag d : promote_types d d = d.
Proof. by destruct d. Qed.

Lemma promote_py_int_floating d : is_floating d = true -> promote_py_int d = d.
Proof. by destruct d. Qed.

Lemma floating_not_integer a : is_floating (dtype a) = true -> _is_integer a = false.
Proof. unfold _is_integer, to_mlx_dtype. by destruct (dtype a). Qed.

Lemma mx_binary_dtype f a b c :
  mx_binary f a b = Ok c -> dtype c = promote_types (dtype a) (dtype b).
Proof. unfold mx_binary. intros H. inv_bind H. by injection H as <-. Qed.

Lemma linear_kernel_float_weights c l :
  is_floating (dtype c) = true ->
  _linear_indices_and_weights c = Ok l ->
  Forall (fun iw : itensor * weight => float_weight iw.2) l.
Proof.
  intros Hc H. unfold _linear_indices_and_weights in H. inv_bind H.
  injection H as <-.
  apply mx_binary_dtype in Ha.
  assert (Hd : dtype a = dtype c).
  { rewrite Ha. unfold mx_floor. rewrite Hc. simpl. apply promote_types_diag. }
  repeat constructor; simpl; eexists; split; try reflexivity; simpl.
  - rewrite Hd. by rewrite promote_py_int_floating.
  - by rewrite Hd.
Qed.

Lemma expand_weight_float src w w' :
  _expand_weight src w = Ok w' -> float_weight w -> float_weight w'.
Proof.
  intros H (a & -> & Ha). simpl in H. inv_bind H. injection H as <-.
  eexists. split; [reflexivity|]. exact Ha.
Qed.

Lemma traverse_Forall {A B} (P : A -> Prop) (Q : B -> Prop) (f : A -> result B) l l' :
  (forall x y, P x -> f x = Ok y -> Q y) ->
  Forall P l -> traverse f l = Ok l' -> Forall Q l'.
Proof.
  intros Hf Hl H. apply traverse_Forall2 in H.
  induction H as [|x y l l' Hxy H IH]; [constructor|].
  inversion Hl; subst. constructor; eauto.
Qed.

Lemma axis_candidates_float_weights src fx ci size cands :
  is_floating (dtype ci) = true ->
  axis_candidates src _linear_indices_and_weights fx ci size = Ok cands ->
  Forall (fun c : candidate => float_weight c.2) cands.
Proof.
  intros Hc H. unfold axis_candidates in H. inv_bind H.
  pose proof (linear_kernel_float_weights _ _ Hc Ha) as Hl.
  revert H. apply traverse_Forall with (P := fun iw : itensor * weight => float_weight iw.2); [|exact Hl].
  intros [index w] y Hw Hy. simpl in Hw. unfold candidate_step in Hy.
  inv_bind Hy. inv_bind Hy. inv_bind Hy. inv_bind Hy. injection Hy as <-. simpl.
  eapply expand_weight_float; eauto.
Qed.

Lemma product_Forall {A} (P : A -> Prop) (ls : list (list A)) :
  Forall (Forall P) ls -> Forall (Forall P) (product ls).
Proof.
  induction 1 as [|l ls Hl Hls IH]; simpl.
  - repeat constructor.
  - apply Forall_forall. intros items Hin.
    apply list_elem_of_bind in Hin as (x & Hin & Hx).
    apply list_elem_of_bind in Hin as (r & Hin & Hr).
    apply list_elem_of_singleton in Hin as ->.
    constructor.
    + rewrite Forall_forall in Hl. auto.
    + rewrite Forall_forall in IH. auto.
Qed.

Lemma weight_mul_float v w u :
  weight_mul v w = Ok u -> float_weight v -> float_weight w -> float_weight u.
Proof.
  intros H (a & -> & Ha) (b & -> & Hb). simpl in H. inv_bind H. injection H as <-.
  eexists. split; [reflexivity|]. apply mx_binary_dtype in Ha0. rewrite Ha0.
  by apply promote_floating_l.
Qed.

Lemma reduce_from_invariant {A} (P : A -> Prop) (f : A -> A -> result A) l acc r :
  (forall x y z, f x y = Ok z -> P x -> P y -> P z) ->
  P acc -> Forall P l -> reduce_from f acc l = Ok r -> P r.
Proof.
  intros Hf. revert acc. induction l as [|x l IH]; intros acc Hacc Hl H; simpl in H.
  - by injection H as <-.
  - inversion Hl as [|? ? Hx Hl']; subst. inv_bind H.
    apply (IH a); [exact (Hf _ _ _ Ha Hacc Hx) | exact Hl' | exact H].
Qed.

Lemma reduce_invariant {A} (P : A -> Prop) (f : A -> A -> result A) l r :
  (forall x y z, f x y = Ok z -> P x -> P y -> P z) ->
  Forall P l -> reduce f l = Ok r -> P r.
Proof.
  intros Hf Hl H. destruct l as [|x l]; [discriminate|].
  inversion Hl; subst. eapply reduce_from_invariant; eauto.
Qed.

Lemma contribution_of_floating src fill cv sa items c :
  Forall (fun c : candidate => float_weight c.2) items ->
  contribution_of src fill cv sa items = Ok c ->
  is_floating (dtype c) = true.
Proof.
  intros Hw H. unfold contribution_of in H.
  destruct items as [|it items]; [discriminate|].
  set (its := it :: items) in *.
  inv_bind H. inv_bind H. inv_bind H.
  assert (Hfw : float_weight a1).
  { eapply (reduce_invariant float_weight); [apply weight_mul_float| |exact Ha1].
    apply Forall_fmap. exact Hw. }
  destruct Hfw as (w & -> & Hfl). simpl in H.
  apply mx_binary_dtype in H. rewrite H. by apply promote_floating_r.
Qed.

Lemma accumulate_floating src coords fx fill cv sa acc :
  Forall (fun c => is_floating (dtype c) = true) coords ->
  accumulate src coords _linear_indices_and_weights fx fill cv sa = Ok acc ->
  is_floating (dtype acc) = true.
Proof.
  intros Hc H. unfold accumulate in H. inv_bind H. inv_bind H.
  assert (Hi : Forall (Forall (fun c : candidate => float_weight c.2)) a).
  { revert Ha. apply traverse_Forall with (P := fun cs : array * nat => is_floating (dtype cs.1) = true).
    - intros [ci size] cands Hci Hcands. eapply axis_candidates_float_weights; eauto.
    - apply Forall_forall. intros [ci size] Hin. simpl.
      apply elem_of_zip_l in Hin. rewrite Forall_forall in Hc. auto. }
  apply product_Forall in Hi.
  assert (Ho : Forall (fun c => is_floating (dtype c) = true) a0).
  { revert Ha0. apply traverse_Forall with (P := Forall (fun c : candidate => float_weight c.2)); [|exact Hi].
    intros items c Hitems Hcontrib. eapply contribution_of_floating; eauto. }
  revert H. apply (reduce_invariant (fun c => is_floating (dtype c) = true)); [|exact Ho].
  intros x y z Hz Hx _. apply mx_binary_dtype in Hz. rewrite Hz. by apply promote_floating_l.
Qed.

Lemma cast_integral d q :
  bool_decide (d ∈ [int32; uint32; int64; uint64; int16; uint16; int8; uint8]) = true ->
  integral (cast d q).
Proof.
  intros Hd. unfold cast.
  destruct d; try discriminate; simpl; eexists; reflexivity.
Qed.

(** C2. The output of the resampler has the element type of the source.
    When the source has an integer type and the running sum is
    floating-point, every output element is the sum rounded to the nearest
    integer and then cast, hence a whole number; with the linear kernel and
    floating-point coordinates the running sum is floating-point. *)
Theorem extract_coordinates_dtype_and_rounding
    src coords kf fx fill cv sa out :
  _extract_coordinates src coords kf fx fill cv sa = Ok out ->
  dtype out = dtype src /\
  exists acc,
    accumulate src coords kf fx fill cv sa = Ok acc /\
    (_is_integer src = true -> is_floating (dtype acc) = true ->
     forall p,
       aat out p = cast (dtype src) (inject_Z (Qround_even (aat acc p))) /\
       integral (aat out p) /\
       (Qabs (aat acc p - inject_Z (Qround_even (aat acc p))) <= 1 # 2)%Q) /\
    (kf = _linear_indices_and_weights ->
     Forall (fun c => is_floating (dtype c) = true) coords ->
     is_floating (dtype acc) = true).
Proof.
  intros H. unfold _extract_coordinates in H. inv_bind H. injection H as <-.
  split; [apply astype_dtype|].
  exists a. split; [exact Ha|]. split.
  - intros Hint Hfl p.
    rewrite Hint, (floating_not_integer _ Hfl). simpl.
    unfold mx_round. rewrite Hfl. unfold astype. simpl.
    case_bool_decide as E.
    + exfalso. rewrite E in Hfl. unfold _is_integer, to_mlx_dtype in Hint.
      by destruct (dtype src).
    + unfold aat. simpl. split; [reflexivity|]. split.
      * apply cast_integral. exact Hint.
      * apply Qround_even_nearest.
  - intros -> Hc. eapply accumulate_floating; eauto.
Qed.

Lemma extract_coordinates_dtype_and_rounding_witness :
  let src := array1 int32 [10; 20; 30]%Q in
  let coords := [array1 float32 [3 # 2; 1 # 4]%Q] in
  let fx : index_fixer := fun index size => Ok (i_clip index 0 (size - 1)) in
  exists out,
    _extract_coordinates src coords _linear_indices_and_weights fx (PyNum (PyInt 0)) true 0
    = Ok out /\
    dtype out = dtype src /\
    exists acc,
      accumulate src coords _linear_indices_and_weights fx (PyNum (PyInt 0)) true 0 = Ok acc /\
      (_is_integer src = true -> is_floating (dtype acc) = true ->
       forall p,
         aat out p = cast (dtype src) (inject_Z (Qround_even (aat acc p))) /\
         integral (aat out p) /\
         (Qabs (aat acc p - inject_Z (Qround_even (aat acc p))) <= 1 # 2)%Q) /\
      (_linear_indices_and_weights = _linear_indices_and_weights ->
       Forall (fun c => is_floating (dtype c) = true) coords ->
       is_floating (dtype acc) = true).
Proof.
  intros src coords fx.
  destruct (_extract_coordinates src coords _linear_indices_and_weights fx
              (PyNum (PyInt 0)) true 0) as [out|e] eqn:E.
  - exists out. split; [reflexivity|].
    exact (extract_coordinates_dtype_and_rounding _ _ _ _ _ _ _ _ E).
  - exfalso.
    assert (H : is_ok (_extract_coordinates src coords _linear_indices_and_weights fx
                         (PyNum (PyInt 0)) true 0) = true) by (vm_compute; reflexivity).
    rewrite E in H. discriminate.
Defined.

(** ** The interpolation kernels *)

Lemma cast_py_one d : cast (promote_py_int d) (inject_Z 1) = 1%Q.
Proof. by destruct d. Qed.

Lemma Qfloor_integral q : integral q -> inject_Z (Qfloor q) = q /\ Qtrunc q = Qfloor q.
Proof. intros [z ->]. by rewrite Qfloor_Z, Qtrunc_inject_Z. Qed.



(** ** The public operations *)

(** C8. Resizing a 2x2 image with one channel to 4x4 with nearest
    interpolation copies each source pixel into its 2x2 block of the output,
    for every element type and both layouts. *)
Theorem resize_nearest_2x2_to_4x4 (d : Dtype) (f : list nat -> Q) :
  (exists out,
     resize (Array d (Tensor [2; 2; 1]%nat f)) (4, 4)%nat "nearest" false "channels_last"
     = Ok out /\
     dtype out = d /\ ashape out = [4; 4; 1]%nat /\
     forall y x, (y < 4)%nat -> (x < 4)%nat ->
       aat out [y; x; 0%nat] = f [(y / 2)%nat; (x / 2)%nat; 0%nat]) /\
  (exists out,
     resize (Array d (Tensor [1; 2; 2]%nat f)) (4, 4)%nat "nearest" false "channels_first"
     = Ok out /\
     dtype out = d /\ ashape out = [1; 4; 4]%nat /\
     forall y x, (y < 4)%nat -> (x < 4)%nat ->
       aat out [0%nat; y; x] = f [0%nat; (y / 2)%nat; (x / 2)%nat]).
Proof.
  split.
  - set (r := resize _ _ _ _ _).
    assert (Hobs : forall y x, (y < 4)%nat -> (x < 4)%nat ->
              observe r [y; x; 0%nat]
              = Ok (d, [4; 4; 1]%nat, f [(y / 2)%nat; (x / 2)%nat; 0%nat])).
    { intros y x Hy Hx. subst r.
      destruct y as [|[|[|[|y]]]]; [| | | |lia].
      all: destruct x as [|[|[|[|x]]]]; [| | | |lia].
      all: destruct d; vm_compute; reflexivity. }
    destruct r as [out|e]; [|specialize (Hobs 0 0 ltac:(lia) ltac:(lia))%nat; discriminate].
    exists out. split; [reflexivity|].
    pose proof (Hobs 0 0 ltac:(lia) ltac:(lia))%nat as H0. injection H0 as Hd Hs _.
    split; [exact Hd|]. split; [exact Hs|].
    intros y x Hy Hx. specialize (Hobs y x Hy Hx). by injection Hobs as _ _ Hv.
  - set (r := resize _ _ _ _ _).
    assert (Hobs : forall y x, (y < 4)%nat -> (x < 4)%nat ->
              observe r [0%nat; y; x]
              = Ok (d, [1; 4; 4]%nat, f [0%nat; (y / 2)%nat; (x / 2)%nat])).
    { intros y x Hy Hx. subst r.
      destruct y as [|[|[|[|y]]]]; [| | | |lia].
      all: destruct x as [|[|[|[|x]]]]; [| | | |lia].
      all: destruct d; vm_compute; reflexivity. }
    destruct r as [out|e]; [|specialize (Hobs 0 0 ltac:(lia) ltac:(lia))%nat; discriminate].
    exists out. split; [reflexivity|].
    pose proof (Hobs 0 0 ltac:(lia) ltac:(lia))%nat as H0. injection H0 as Hd Hs _.
    split; [exact Hd|]. split; [exact Hs|].
    intros y x Hy Hx. specialize (Hobs y x Hy Hx). by injection Hobs as _ _ Hv.
Qed.

(** C9. With [antialias] set, [resize] raises [NotImplementedError]
    whatever the other arguments are: the test is the first statement of the
    function, so nothing is computed and no other error can come first. *)
Theorem resize_antialias_not_supported
    (image : array) (size : nat * nat) (interpolation data_format : string) :
  resize image size interpolation true data_format = Raise NotImplementedError.
Proof. reflexivity. Qed.


(** C1. On a 2x2 input with two coordinate arrays of rank 1 the second
    sample point is out of range.  Without masking ([nearest]) the gathered
    contribution is [[10; 30]].  With [constant] the result has shape 2x2:
    the validity mask, reshaped to 2x1 by [_expand], is broadcast against
    the contribution, so the contribution 30 of the invalid point is kept
    in the first row and the contribution 10 of the valid point is replaced
    in the second. *)
Theorem map_coordinates_mask_misaligned :
  let input := array_of int32 [2; 2]%nat [10; 20; 30; 40]%Q in
  let coordinates := [array1 float32 [0; 5]%Q; array1 float32 [0; 0]%Q] in
  run (map_coordinates input coordinates 0 "nearest" (PyNum (PyFloat (-1))))
  = Ok (int32, [2]%nat, [10; 30]%Q) /\
  run (map_coordinates input coordinates 0 "constant" (PyNum (PyFloat (-1))))
  = Ok (int32, [2; 2]%nat, [10; 30; -1; -1]%Q).
Proof. split; vm_compute; reflexivity. Qed.

(** C10. On an integer input a Python [float] fill value is used as
    [int(fill_value)]: the call behaves as the call with the truncated
    value, which lies toward zero from [fill_value] and less than one
    away. *)
Theorem map_coordinates_fill_value_truncated
    (input : array) (coordinates : list array) (order : Z) (fill_mode : string) (q : Q) :
  _is_integer input = true ->
  map_coordinates input coordinates order fill_mode (PyNum (PyFloat q))
  = map_coordinates input coordinates order fill_mode (PyNum (PyInt (Qtrunc q))) /\
  (Qabs (inject_Z (Qtrunc q)) <= Qabs q)%Q /\
  (Qabs (q - inject_Z (Qtrunc q)) < 1)%Q.
Proof.
  intros Hint. split; [|apply Qtrunc_toward_zero].
  unfold map_coordinates, convert_to_tensor. rewrite Hint. reflexivity.
Qed.

Lemma map_coordinates_fill_value_truncated_witness :
  let input := array1 int32 [10; 20; 30]%Q in
  let coordinates := [array1 float32 [-1]%Q] in
  (map_coordinates input coordinates 0 "constant" (PyNum (PyFloat (27 # 10)))
   = map_coordinates input coordinates 0 "constant" (PyNum (PyInt (Qtrunc (27 # 10)))) /\
   (Qabs (inject_Z (Qtrunc (27 # 10))) <= Qabs (27 # 10))%Q /\
   (Qabs ((27 # 10) - inject_Z (Qtrunc (27 # 10))) < 1)%Q) /\
  run (map_coordinates input coordinates 0 "constant" (PyNum (PyFloat (27 # 10))))
  = Ok (int32, [1]%nat, [2]%Q) /\
  run (map_coordinates input coordinates 0 "constant" (PyNum (PyFloat (-27 # 10))))
  = Ok (int32, [1]%nat, [-2]%Q).
Proof.
  split; [|split; vm_compute; reflexivity].
  apply (map_coordinates_fill_value_truncated (array1 int32 [10; 20; 30]%Q)
           [array1 float32 [-1]%Q] 0 "constant" (27 # 10)).
  reflexivity.
Defined.

(** ** Broadcast views *)

Section Views.
Local Open Scope nat_scope.
Local Open Scope list_scope.

Lemma fits_refl sh : fits sh sh.
Proof. induction sh; constructor; auto. Qed.

Lemma fits_length sh OS : fits sh OS -> length sh = length OS.
Proof. apply Forall2_length. Qed.

Lemma fits_app a b A B : fits a A -> fits b B -> fits (a ++ b) (A ++ B).
Proof. apply Forall2_app. Qed.

Lemma fits_ones k sh : length sh = k -> fits (replicate k 1) sh.
Proof.
  revert k. induction sh as [|d sh IH]; intros k <-; simpl; constructor; auto.
  apply IH. reflexivity.
Qed.

Lemma view_in_bounds {A} (t : tensor A) P : in_bounds (shape t) P -> view t P = at_ t P.
Proof. intros H. unfold view. by rewrite bindex_in_bounds. Qed.

Lemma broadcast_shapes_eq_length a b :
  length a = length b -> broadcast_shapes a b = bdims a b.
Proof.
  intros E. unfold broadcast_shapes, pad_to. rewrite E, Nat.max_id, Nat.sub_diag. reflexivity.
Qed.

Lemma bdims_fits a b OS :
  fits a OS -> fits b OS ->
  exists s, bdims a b = Ok s /\ fits s OS /\ fits a s /\ fits b s /\
            (a = OS \/ b = OS -> s = OS).
Proof.
  intros Ha. revert b. induction Ha as [|d D a OS Hd Ha IH]; intros b Hb.
  - inversion Hb; subst. exists []. repeat split; try constructor.
  - inversion Hb as [|d' D' b' OS' Hd' Hb']; subst.
    destruct (IH _ Hb') as (s & Es & Hs & Has & Hbs & Hfull).
    simpl. rewrite Es.
    assert (Ed : exists e, bdim d d' = Ok e /\ (e = D \/ e = 1) /\ (d = e \/ d = 1)
                           /\ (d' = e \/ d' = 1) /\ (d = D \/ d' = D -> e = D)).
    { destruct Hd as [->| ->], Hd' as [->| ->].
      - rewrite bdim_same. eauto 10.
      - rewrite bdim_1_r. eauto 10.
      - rewrite bdim_1_l. eauto 10.
      - rewrite bdim_same. exists 1. repeat split; auto. intros [?|?]; auto. }
    destruct Ed as (e & -> & He & Hde & Hd'e & Hfe). simpl.
    exists (e :: s). split; [reflexivity|].
    split; [constructor; auto|]. split; [constructor; auto|]. split; [constructor; auto|].
    intros [E|E]; injection E as E1 E2; f_equal; auto.
Qed.

Lemma bindex_fits a s P :
  fits a s -> length P = length s -> bindex a (bindex s P) = bindex a P.
Proof.
  intros Ha HP. unfold bindex.
  pose proof (fits_length _ _ Ha) as Hl.
  rewrite HP, Hl, Nat.sub_diag, !drop_0.
  assert (El : length (zip_with (fun d i => if d =? 1 then 0 else i) s P) = length s).
  { rewrite length_zip_with. lia. }
  rewrite El, Nat.sub_diag, drop_0.
  clear Hl El. revert P HP. induction Ha as [|d D a s Hd Ha IH]; intros P HP; [done|].
  destruct P as [|i P]; [discriminate|]. simpl. f_equal.
  - destruct Hd as [->| ->]; [|reflexivity]. by destruct (D =? 1).
  - apply IH. simpl in HP. lia.
Qed.

Lemma broadcast2_view {A B C} (f : A -> B -> C) a b OS :
  fits (shape a) OS -> fits (shape b) OS ->
  exists c, broadcast2 f a b = Ok c /\ fits (shape c) OS /\
            (shape a = OS \/ shape b = OS -> shape c = OS) /\
            forall P, length P = length OS -> view c P = f (view a P) (view b P).
Proof.
  intros Ha Hb. unfold broadcast2.
  rewrite broadcast_shapes_eq_length
    by (rewrite (fits_length _ _ Ha), (fits_length _ _ Hb); reflexivity).
  destruct (bdims_fits _ _ _ Ha Hb) as (s & -> & Hs & Has & Hbs & Hfull). simpl.
  eexists. split; [reflexivity|]. simpl. split; [exact Hs|]. split; [exact Hfull|].
  intros P HP. unfold view. simpl.
  rewrite !bindex_fits; auto; rewrite HP; symmetry; by apply fits_length.
Qed.

Lemma bindex_app sh sh' p p' :
  length p = length sh -> length p' = length sh' ->
  bindex (sh ++ sh') (p ++ p') = bindex sh p ++ bindex sh' p'.
Proof.
  intros Hp Hp'. unfold bindex.
  rewrite !length_app, Hp, Hp', !Nat.sub_diag, !drop_0.
  revert p Hp. induction sh as [|d sh IH]; intros [|i p] Hp; try discriminate; simpl.
  - reflexivity.
  - f_equal. apply IH. simpl in Hp. lia.
Qed.

Lemma bindex_ones k p : length p = k -> bindex (replicate k 1) p = replicate k 0.
Proof.
  intros <-. unfold bindex. rewrite length_replicate, Nat.sub_diag, drop_0.
  induction p as [|i p IH]; simpl; [done|]. by rewrite IH.
Qed.

Lemma in_bounds_app_inv sh sh' P :
  in_bounds (sh ++ sh') P ->
  in_bounds sh (take (length sh) P) /\ in_bounds sh' (drop (length sh) P) /\
  P = take (length sh) P ++ drop (length sh) P.
Proof.
  intros H. unfold in_bounds in *.
  apply Forall2_app_inv_r in H as (p1 & p2 & H1 & H2 & ->).
  pose proof (Forall2_length _ _ _ H1) as E.
  rewrite <- E, take_app_length, drop_app_length. auto.
Qed.

Lemma bindex_in_bounds_fits sh OS P :
  fits sh OS -> in_bounds OS P -> in_bounds sh (bindex sh P).
Proof.
  intros Hf HP. unfold bindex.
  rewrite (in_bounds_length _ _ HP), (fits_length _ _ Hf), Nat.sub_diag, drop_0.
  revert P HP. induction Hf as [|d D sh OS Hd Hf IH]; intros P HP.
  - inversion HP; subst. constructor.
  - inversion HP as [|i D' P' OS' Hi HP']; subst. simpl. constructor; [|by apply IH].
    destruct Hd as [->| ->]; [|simpl; lia].
    destruct (D =? 1); lia.
Qed.

Lemma count_neg_nonneg sh k :
  count_neg (map Z.of_nat sh ++ replicate k 1%Z) = 0.
Proof.
  unfold count_neg. rewrite filter_app, length_app.
  assert (E1 : filter (fun d => (d <? 0)%Z = true) (map Z.of_nat sh) = []).
  { induction sh as [|d sh IH]; [done|]. simpl. rewrite filter_cons_False; [done|].
    intros H. apply Z.ltb_lt in H. lia. }
  assert (E2 : filter (fun d => (d <? 0)%Z = true) (replicate k 1%Z) = []).
  { induction k as [|k IH]; [done|]. simpl. rewrite filter_cons_False; [done|]. discriminate. }
  by rewrite E1, E2.
Qed.

Lemma to_nat_dims sh k :
  map Z.to_nat (map Z.of_nat sh ++ replicate k 1%Z) = sh ++ replicate k 1.
Proof.
  rewrite map_app. f_equal.
  - induction sh as [|d sh IH]; [done|]. simpl. by rewrite Nat2Z.id, IH.
  - induction k as [|k IH]; [done|]. simpl. by rewrite IH.
Qed.

Lemma expand_spec {A} (src : array) (x : tensor A) :
  _expand src x = Ok (expanded x (andim src - ndim x)).
Proof.
  unfold _expand, reshape, infer_shape.
  rewrite count_neg_nonneg, to_nat_dims, prod_app, prod_ones, Nat.mul_1_r, Nat.eqb_refl.
  reflexivity.
Qed.

Lemma expanded_fits {A} (x : tensor A) e bsh T :
  fits (shape x) bsh -> length T = e -> fits (shape (expanded x e)) (bsh ++ T).
Proof. intros Hf HT. cbn [expanded shape]. apply fits_app; [exact Hf|]. by apply fits_ones. Qed.

(** An expanded tensor read at an output position is the tensor read at the
    leading part of the position. *)
Lemma expanded_view {A} (x : tensor A) e bsh T P :
  fits (shape x) bsh -> length T = e -> in_bounds (bsh ++ T) P ->
  view (expanded x e) P = view x (take (length bsh) P).
Proof.
  intros Hf HT HP.
  destruct (in_bounds_app_inv _ _ _ HP) as (Hb & Ht & EP).
  set (bp := take (length bsh) P) in *. set (tp := drop (length bsh) P) in *.
  pose proof (in_bounds_length _ _ Hb) as Lb. pose proof (in_bounds_length _ _ Ht) as Lt.
  pose proof (fits_length _ _ Hf) as Lf.
  unfold view at 1. cbn [expanded shape at_]. rewrite EP.
  rewrite bindex_app by (rewrite ?length_replicate; lia).
  rewrite bindex_ones by lia.
  rewrite ravel_app_ones.
  - rewrite unravel_ravel; [reflexivity|]. by apply (bindex_in_bounds_fits _ bsh).
  - unfold bindex. rewrite length_zip_with, length_drop. lia.
Qed.

End Views.

(** ** One combination of the loop *)

Section Loop.
Local Open Scope nat_scope.
Local Open Scope list_scope.

Lemma reduce_from_and_view OS l acc :
  fits (shape acc) OS -> Forall (fits_mask OS) l ->
  exists m, reduce_from mx_logical_and acc l = Ok m /\ fits (shape m) OS /\
            forall P, length P = length OS ->
                      view m P = view acc P && forallb (fun x => view x P) l.
Proof.
  intros Hacc Hl. revert acc Hacc.
  induction Hl as [|x l Hx Hl IH]; intros acc Hacc; cbn [reduce_from map fold_left forallb].
  - exists acc. repeat split; auto. intros P _. by rewrite andb_true_r.
  - change (mx_logical_and acc x) with (broadcast2 andb acc x).
    destruct (broadcast2_view andb acc x OS Hacc Hx) as (c & -> & Hc & _ & Hv). cbn [mbind result_bind].
    destruct (IH c Hc) as (m & -> & Hm & Hmv).
    exists m. repeat split; auto. intros P HP. by rewrite Hmv, Hv, andb_assoc.
Qed.

Lemma reduce_and_view OS l :
  l <> [] -> Forall (fits_mask OS) l ->
  exists m, reduce mx_logical_and l = Ok m /\ fits (shape m) OS /\
            forall P, length P = length OS -> view m P = forallb (fun x => view x P) l.
Proof.
  intros Hne Hl. destruct l as [|x l]; [done|]. inversion Hl; subst.
  destruct (reduce_from_and_view OS l x) as (m & E & Hm & Hv); auto.
  exists m. repeat split; auto.
Qed.

Lemma reduce_from_weights OS l acc :
  fits_array OS acc -> Forall (fits_array OS) l ->
  exists u, reduce_from weight_mul (WArr acc) (map WArr l) = Ok (WArr u) /\ fits_array OS u /\
            forall P, length P = length OS ->
                      aview u P = fold_left Qmult (map (fun a => aview a P) l) (aview acc P).
Proof.
  intros Hacc Hl. revert acc Hacc.
  induction Hl as [|x l Hx Hl IH]; intros acc Hacc; cbn [reduce_from map fold_left forallb].
  - exists acc. repeat split; auto.
  - change (weight_mul (WArr acc) (WArr x))
      with (c ← (t ← broadcast2 Qmult (data acc) (data x);
                 Ok (Array (promote_types (dtype acc) (dtype x)) t)); Ok (WArr c)).
    destruct (broadcast2_view Qmult (data acc) (data x) OS Hacc Hx) as (c & -> & Hc & _ & Hv).
    cbn [mbind result_bind].
    destruct (IH (Array (promote_types (dtype acc) (dtype x)) c) Hc) as (u & -> & Hu & Huv).
    exists u. repeat split; auto. intros P HP. rewrite Huv by done. unfold aview at 2. simpl.
    by rewrite Hv.
Qed.

Lemma reduce_from_ones l :
  Forall (fun w => w = WPy (PyInt 1)) l ->
  reduce_from weight_mul (WPy (PyInt 1)) l = Ok (WPy (PyInt 1)).
Proof. induction 1 as [|x l -> _ IH]; simpl; auto. Qed.

Lemma reduce_from_add OS l acc :
  ashape acc = OS -> Forall (fun o => ashape o = OS) l ->
  exists r, reduce_from mx_add acc l = Ok r /\ ashape r = OS /\
            forall P, length P = length OS ->
                      aview r P = fold_left Qplus (map (fun o => aview o P) l) (aview acc P).
Proof.
  intros Hacc Hl. revert acc Hacc.
  induction Hl as [|x l Hx Hl IH]; intros acc Hacc; cbn [reduce_from map fold_left forallb].
  - exists acc. repeat split; auto.
  - change (mx_add acc x)
      with (t ← broadcast2 Qplus (data acc) (data x);
            Ok (Array (promote_types (dtype acc) (dtype x)) t)).
    assert (Fa : fits (shape (data acc)) OS) by (unfold ashape in Hacc; rewrite Hacc; apply fits_refl).
    assert (Fx : fits (shape (data x)) OS) by (unfold ashape in Hx; rewrite Hx; apply fits_refl).
    destruct (broadcast2_view Qplus (data acc) (data x) OS Fa Fx) as (c & -> & Hc & Hfull & Hv).
    cbn [mbind result_bind].
    destruct (IH (Array (promote_types (dtype acc) (dtype x)) c)) as (u & -> & Hu & Huv).
    { unfold ashape. simpl. apply Hfull. by left. }
    exists u. repeat split; auto. intros P HP. rewrite Huv by done. unfold aview at 2. simpl.
    by rewrite Hv.
Qed.

Lemma broadcast_shapes_nil sh : broadcast_shapes sh [] = Ok sh.
Proof.
  unfold broadcast_shapes, pad_to. simpl. rewrite Nat.max_0_r, Nat.sub_diag, Nat.sub_0_r.
  simpl. rewrite app_nil_r.
  induction sh as [|d sh IH]; simpl; [done|]. by rewrite bdim_1_r, IH.
Qed.

Lemma gather_spec src idx bsh :
  length idx <= andim src ->
  broadcast_shapes_list (map shape idx) = Ok bsh ->
  gather src 0 idx
  = Ok (Array (dtype src)
          (Tensor (bsh ++ drop (length idx) (ashape src))
             (fun p => aat src
                         (zip_with (fun it size => norm_index size (view it (take (length bsh) p)))
                                   idx (ashape src)
                          ++ drop (length bsh) p)))).
Proof.
  intros Hk Hb. unfold gather. simpl.
  destruct (Nat.ltb_spec (ndim (data src)) (length idx)) as [H|H]; [unfold andim in Hk; lia|].
  rewrite Hb. reflexivity.
Qed.

Lemma forallb_map_comp {A B} (f : B -> bool) (g : A -> B) l :
  forallb f (map g l) = forallb (fun x => f (g x)) l.
Proof. induction l as [|x l IH]; simpl; [done|]. by rewrite IH. Qed.

Lemma masked_contribution src bsh n (cv : bool) (items : list candidate) :
  items <> [] -> length items <= andim src ->
  broadcast_shapes_list (map (fun c : candidate => shape c.1.1) items) = Ok bsh ->
  Forall (fun c : candidate => fits (shape c.1.2) (bsh ++ drop (length items) (ashape src))) items ->
  exists c,
    (contribution ← gather src 0 (map (fun c : candidate => c.1.1) items);
     if cv then
       all_valid ← reduce mx_logical_and (map (fun c : candidate => c.1.2) items);
       mx_where all_valid contribution (PyNum n)
     else Ok contribution) = Ok c /\
    ashape c = bsh ++ drop (length items) (ashape src) /\
    forall P, in_bounds (bsh ++ drop (length items) (ashape src)) P ->
              aat c P = masked src bsh n cv items P.
Proof.
  intros Hne Hk Hb Hm. set (OS := bsh ++ drop (length items) (ashape src)) in *.
  rewrite (gather_spec src _ bsh); [|by rewrite length_map|by rewrite map_map].
  rewrite length_map. cbn [mbind result_bind]. fold OS.
  destruct cv.
  - destruct (reduce_and_view OS (map (fun c : candidate => c.1.2) items)) as (m & -> & Fm & Hv).
    { by destruct items. }
    { apply Forall_fmap. exact Hm. }
    cbn [mbind result_bind]. unfold mx_where.
    match goal with |- context [broadcast2 ?f m ?t] =>
      pose proof (broadcast2_view f m t OS Fm (fits_refl OS)) as Hw end.
    destruct Hw as (r & -> & _ & Hfull & Hr).
    cbn [mbind result_bind]. eexists. split; [reflexivity|].
    split; [apply Hfull; by right|].
    intros P HP. unfold aat. cbn [data].
    rewrite <- (view_in_bounds r P) by (rewrite Hfull; [exact HP|by right]).
    rewrite Hr by (apply in_bounds_length; exact HP).
    rewrite Hv by (apply in_bounds_length; exact HP).
    rewrite view_in_bounds by exact HP.
    unfold masked, gathered. cbn [at_ dtype].
    rewrite forallb_map_comp. reflexivity.
  - eexists. split; [reflexivity|]. split; [reflexivity|]. intros P HP. reflexivity.
Qed.

Lemma result_bind_assoc {A B C} (m : result A) (f : A -> result B) (g : B -> result C) :
  (m ≫= f) ≫= g = m ≫= (fun x => f x ≫= g).
Proof. by destruct m. Qed.

Lemma contribution_of_unfold src fill (cv : bool) sa (items : list candidate) :
  items <> [] ->
  contribution_of src fill cv sa items
  = (contribution ←
       (contribution ← gather src sa (map (fun c : candidate => c.1.1) items);
        if cv then
          all_valid ← reduce mx_logical_and (map (fun c : candidate => c.1.2) items);
          mx_where all_valid contribution fill
        else Ok contribution);
     weight ← reduce weight_mul (map (fun c : candidate => c.2) items);
     if weight_is_one weight then Ok contribution else apply_weight contribution weight).
Proof.
  intros Hne. destruct items as [|it items]; [done|].
  rewrite result_bind_assoc. reflexivity.
Qed.

(** One combination whose weights are all the Python number 1. *)
Lemma contribution_of_unweighted src bsh n (cv : bool) (items : list candidate) :
  items <> [] -> length items <= andim src ->
  broadcast_shapes_list (map (fun c : candidate => shape c.1.1) items) = Ok bsh ->
  Forall (fun c : candidate => fits (shape c.1.2) (bsh ++ drop (length items) (ashape src))) items ->
  Forall (fun c : candidate => c.2 = WPy (PyInt 1)) items ->
  exists c,
    contribution_of src (PyNum n) cv 0 items = Ok c /\
    ashape c = bsh ++ drop (length items) (ashape src) /\
    forall P, in_bounds (bsh ++ drop (length items) (ashape src)) P ->
              aat c P = masked src bsh n cv items P.
Proof.
  intros Hne Hk Hb Hm Hw.
  destruct (masked_contribution src bsh n cv items Hne Hk Hb Hm) as (c & Ec & Hs & Hv).
  exists c. split; [|auto].
  rewrite contribution_of_unfold, Ec by exact Hne. cbn [mbind result_bind].
  destruct items as [|it items]; [done|].
  set (its := it :: items) in *.
  assert (Er : reduce weight_mul (map (fun c : candidate => c.2) its) = Ok (WPy (PyInt 1))).
  { subst its. inversion Hw as [|? ? E1 Hw']; subst. cbn [map reduce]. rewrite E1.
    apply reduce_from_ones. apply Forall_fmap. exact Hw'. }
  rewrite Er. reflexivity.
Qed.

Lemma array_weights_list OS (items : list candidate) :
  Forall (array_weight OS) items ->
  exists ws, map (fun c : candidate => c.2) items = map WArr ws
             /\ Forall (fits_array OS) ws
             /\ forall P, map (wview P) items = map (fun a => aview a P) ws.
Proof.
  induction 1 as [|x l (a & Ea & Fa) _ IH].
  - exists []. repeat split; auto.
  - destruct IH as (ws & E1 & E2 & E3).
    exists (a :: ws). cbn [map]. rewrite Ea, E1. split; [reflexivity|]. split; [by constructor|].
    intros P. rewrite E3. unfold wview at 1. by rewrite Ea.
Qed.

(** One combination whose weights are all arrays. *)
Lemma contribution_of_weighted src bsh n (cv : bool) (items : list candidate) :
  items <> [] -> length items <= andim src ->
  broadcast_shapes_list (map (fun c : candidate => shape c.1.1) items) = Ok bsh ->
  Forall (fun c : candidate => fits (shape c.1.2) (bsh ++ drop (length items) (ashape src))) items ->
  Forall (array_weight (bsh ++ drop (length items) (ashape src))) items ->
  exists c,
    contribution_of src (PyNum n) cv 0 items = Ok c /\
    ashape c = bsh ++ drop (length items) (ashape src) /\
    forall P, in_bounds (bsh ++ drop (length items) (ashape src)) P ->
              aat c P = (masked src bsh n cv items P * weight_product items P)%Q.
Proof.
  intros Hne Hk Hb Hm Hw. set (OS := bsh ++ drop (length items) (ashape src)) in *.
  destruct (masked_contribution src bsh n cv items Hne Hk Hb Hm) as (c & Ec & Hs & Hv).
  fold OS in Hs, Hv.
  rewrite contribution_of_unfold, Ec by exact Hne. cbn [mbind result_bind].
  destruct items as [|it items]; [done|].
  set (its := it :: items) in *.
  assert (Er : exists u, reduce weight_mul (map (fun c : candidate => c.2) its) = Ok (WArr u)
                         /\ fits_array OS u
                         /\ forall P, length P = length OS -> aview u P = weight_product its P).
  { subst its. inversion Hw as [|? ? (a0 & E0 & F0) Hw']; subst.
    destruct (array_weights_list OS items Hw') as (ws & E1 & E2 & E3).
    cbn [map reduce]. rewrite E0, E1.
    destruct (reduce_from_weights OS ws a0 F0 E2) as (u & -> & Fu & Hu).
    exists u. repeat split; auto. intros P HP. rewrite Hu by done.
    unfold weight_product. rewrite E3. unfold wview at 1. by rewrite E0. }
  destruct Er as (u & -> & Fu & Hu). cbn [mbind result_bind weight_is_one apply_weight].
  change (mx_multiply c u)
    with (t ← broadcast2 Qmult (data c) (data u);
          Ok (Array (promote_types (dtype c) (dtype u)) t)).
  assert (Fc : fits (shape (data c)) OS) by (unfold ashape in Hs; rewrite Hs; apply fits_refl).
  destruct (broadcast2_view Qmult (data c) (data u) OS Fc Fu) as (r & -> & _ & Hfull & Hr).
  cbn [mbind result_bind]. eexists. split; [reflexivity|].
  assert (Hrs : shape r = OS) by (apply Hfull; by left).
  split; [exact Hrs|].
  intros P HP. unfold aat. cbn [data].
  rewrite <- (view_in_bounds r P) by (rewrite Hrs; exact HP).
  rewrite Hr by (apply in_bounds_length; exact HP).
  rewrite view_in_bounds by (unfold ashape in Hs; rewrite Hs; exact HP).
  fold (aat c P). rewrite Hv by exact HP.
  fold (aview u P). rewrite Hu by (apply in_bounds_length; exact HP). reflexivity.
Qed.

End Loop.

(** ** Boundary policies that stay inside the axis *)

Lemma mirror_Z_id x size : 0 <= x < size -> mirror_Z x size = x.
Proof.
  intros Hx. unfold mirror_Z.
  destruct (Z.eq_dec x (size - 1)) as [->|Hne].
  - destruct (Z.eq_dec size 1) as [->|Hs]; [reflexivity|].
    replace (size - 1 + (size - 1)) with (1 * (2 * (size - 1))) by lia.
    rewrite Z.mod_mul by lia. lia.
  - rewrite Z.mod_small by lia. lia.
Qed.

Lemma reflect_Z_id x size : 0 <= x < size -> reflect_Z x size = x.
Proof.
  intros Hx. unfold reflect_Z. rewrite mirror_Z_id by lia.
  replace (2 * x + 1 - 1) with (x * 2) by lia. apply Z.div_mul. lia.
Qed.

Lemma fix_index_good (mode : string) (size : Z) :
  mode ∈ AFFINE_TRANSFORM_FILL_MODES ->
  0 < size ->
  (mode = "mirror" -> 1 < size) ->
  good_fixer (fix_index mode) size.
Proof.
  intros Hm Hs Hmirror index.
  destruct (fill_modes_cases _ Hm) as [-> | [-> | [-> | [-> | ->]]]].
  - rewrite fix_index_constant. eexists. repeat split; simpl; lia.
  - rewrite fix_index_nearest. eexists. repeat split; simpl; lia.
  - rewrite fix_index_wrap. unfold i_remainder.
    destruct (Z.eqb_spec size 0); [lia|].
    eexists. split; [reflexivity|]. split; [reflexivity|].
    intros p. simpl. split; [apply Z.mod_pos_bound; lia|]. intros H. by apply Z.mod_small.
  - specialize (Hmirror eq_refl).
    rewrite fix_index_mirror, mirror_fixer_at by lia.
    eexists. split; [reflexivity|]. split; [reflexivity|].
    intros p. simpl. split; [apply (mirror_Z_range (at_ index p) size Hmirror)|].
    apply (mirror_Z_id (at_ index p) size).
  - rewrite fix_index_reflect.
    destruct (reflect_fixer_at index size Hs) as (r & -> & Hsh & Hat).
    exists r. repeat split; auto; rewrite Hat; try (apply reflect_Z_range; lia).
    by apply reflect_Z_id.
Qed.

Section Axis.
Local Open Scope nat_scope.
Local Open Scope list_scope.

Variable src : array.
Variable fx : index_fixer.
Variables bsh T : list nat.

Lemma candidate_step_spec size iw sh :
  raw_shape sh iw ->
  fits sh bsh -> length T = andim src - length sh ->
  good_fixer fx (Z.of_nat size) ->
  exists c, candidate_step src fx size iw = Ok c /\ candidate_of fx bsh T size iw c.
Proof.
  intros [Hsh Hw] Hfit HT Hgood. destruct iw as [index w]. cbn [fst snd] in *.
  unfold candidate_step.
  destruct (Hgood index) as (fixed & Efix & Hfs & Hfv). rewrite Efix. cbn [mbind result_bind].
  change (mx_logical_and (i_rle 0 index) (i_lt index (Z.of_nat size)))
    with (broadcast2 andb (i_rle 0 index) (i_lt index (Z.of_nat size))).
  rewrite broadcast2_same by reflexivity. cbn [mbind result_bind].
  rewrite expand_spec. cbn [mbind result_bind].
  set (valid := Tensor _ _).
  assert (Hvs : shape valid = sh) by (subst valid; cbn; exact Hsh).
  assert (Hvalid : forall P, in_bounds (bsh ++ T) P ->
            view (expanded valid (andim src - ndim valid)) P
            = in_range size (view index (take (length bsh) P))).
  { intros P HP. rewrite (expanded_view valid _ bsh T P); [| |unfold ndim|exact HP];
      rewrite ?Hvs; auto.
    unfold view at 1. subst valid. cbn [shape at_ i_rle i_lt tmap].
    rewrite bindex_fits.
    - reflexivity.
    - apply fits_refl.
    - rewrite length_take, (in_bounds_length _ _ HP), length_app, Hsh.
      pose proof (fits_length _ _ Hfit). lia. }
  assert (Fvalid : fits (shape (expanded valid (andim src - ndim valid))) (bsh ++ T)).
  { apply expanded_fits; unfold ndim; rewrite Hvs; auto. }
  destruct w as [n|a]; cbn [_expand_weight mbind result_bind].
  - eexists. split; [reflexivity|]. unfold candidate_of. cbn [fst snd]. auto 10.
  - rewrite expand_spec. cbn [mbind result_bind].
    eexists. split; [reflexivity|]. unfold candidate_of. cbn [fst snd].
    split; [exact Efix|]. split; [exact Hfs|]. split; [exact Fvalid|]. split; [exact Hvalid|].
    eexists. split; [reflexivity|]. unfold fits_array, ashape, aview. cbn [data].
    unfold ashape in Hw. split.
    + apply (expanded_fits (data a) _ bsh T); unfold ndim; rewrite Hw; auto.
    + intros P HP. apply (expanded_view (data a) _ bsh T P); unfold ndim; rewrite ?Hw; auto.
Qed.

Lemma axis_candidates_spec kf ci size raws sh :
  kf ci = Ok raws ->
  Forall (raw_shape sh) raws ->
  fits sh bsh -> length T = andim src - length sh ->
  good_fixer fx (Z.of_nat size) ->
  exists cands, axis_candidates src kf fx ci size = Ok cands /\
                Forall2 (candidate_of fx bsh T size) raws cands.
Proof.
  intros Hk Hraws Hfit HT Hgood. unfold axis_candidates. rewrite Hk. cbn [mbind result_bind].
  clear Hk. induction Hraws as [|iw raws Hiw _ IH]; cbn [traverse].
  - exists []. split; [reflexivity|constructor].
  - destruct (candidate_step_spec size iw sh Hiw Hfit HT Hgood) as (c & -> & Hc).
    destruct IH as (cands & -> & Hcands). cbn [mbind result_bind].
    eexists. split; [reflexivity|]. by constructor.
Qed.

End Axis.

(** ** The running sum, element by element *)

Section Lists.
Local Open Scope list_scope.

Lemma traverse_intro {A B} (f : A -> result B) (R : A -> B -> Prop) l :
  Forall (fun x => exists y, f x = Ok y /\ R x y) l ->
  exists l', traverse f l = Ok l' /\ Forall2 R l l'.
Proof.
  induction 1 as [|x l (y & Ey & Hy) _ (l' & El & Hl)]; cbn [traverse].
  - exists []. split; [reflexivity|constructor].
  - rewrite Ey, El. cbn [mbind result_bind]. exists (y :: l'). split; [reflexivity|by constructor].
Qed.

Lemma product_elem {A} (ls : list (list A)) items :
  items ∈ product ls -> Forall2 (fun x l => x ∈ l) items ls.
Proof.
  revert items. induction ls as [|l ls IH]; intros items Hin; simpl in Hin.
  - apply list_elem_of_singleton in Hin as ->. constructor.
  - apply list_elem_of_bind in Hin. destruct Hin as (x & Hin & Hx).
    apply list_elem_of_bind in Hin. destruct Hin as (r & Hin & Hr).
    apply list_elem_of_singleton in Hin. subst items. constructor; auto.
Qed.

Lemma product_cons {A} (x : A) rest ls :
  product ((x :: rest) :: ls)
  = map (cons x) (product ls) ++ product (rest :: ls).
Proof.
  cbn [product]. rewrite bind_cons. f_equal.
Qed.

Lemma product_nil_head {A} (ls : list (list A)) : product ([] :: ls) = [].
Proof. reflexivity. Qed.

Lemma product_nonempty {A} (ls : list (list A)) :
  Forall (fun l => l <> []) ls -> product ls <> [].
Proof.
  induction 1 as [|l ls Hl _ IH]; [done|].
  destruct l as [|x rest]; [done|]. rewrite product_cons.
  destruct (product ls); [done|]. discriminate.
Qed.

Lemma sum_list_app l1 l2 : (sum_list (l1 ++ l2) == sum_list l1 + sum_list l2)%Q.
Proof. induction l1 as [|x l1 IH]; simpl; [ring|]. rewrite IH. ring. Qed.

Lemma fold_left_Qplus l a : (fold_left Qplus l a == a + sum_list l)%Q.
Proof.
  revert a. induction l as [|x l IH]; intros a; simpl; [ring|]. rewrite IH. ring.
Qed.

Lemma sum_list_zero {A} (g : A -> Q) l :
  Forall (fun x => g x == 0)%Q l -> (sum_list (map g l) == 0)%Q.
Proof. induction 1 as [|x l Hx _ IH]; simpl; [reflexivity|]. rewrite Hx, IH. ring. Qed.

Lemma sum_list_ext {A} (g h : A -> Q) l :
  Forall (fun x => g x == h x)%Q l -> (sum_list (map g l) == sum_list (map h l))%Q.
Proof. induction 1 as [|x l Hx _ IH]; simpl; [reflexivity|]. by rewrite Hx, IH. Qed.

Lemma sum_list_Forall2 {A B} (g : A -> Q) (h : B -> Q) l1 l2 :
  Forall2 (fun x y => g x == h y)%Q l1 l2 ->
  (sum_list (map g l1) == sum_list (map h l2))%Q.
Proof. induction 1 as [|x y l1 l2 Hxy _ IH]; simpl; [reflexivity|]. by rewrite Hxy, IH. Qed.

End Lists.

Section Dominant.
Local Open Scope list_scope.
Variable P : list nat.

Lemma fold_left_Qmult l a : (fold_left Qmult l a == a * fold_right Qmult 1 l)%Q.
Proof.
  revert a. induction l as [|x l IH]; intros a; simpl; [ring|]. rewrite IH. ring.
Qed.

Lemma weight_product_wprod items : (weight_product items P == wprod P items)%Q.
Proof.
  destruct items as [|c rest]; [reflexivity|]. cbn [weight_product wprod fold_right].
  rewrite fold_left_Qmult. apply Qmult_comp; [reflexivity|].
  induction rest as [|x l IH]; simpl; [reflexivity|]. by rewrite IH.
Qed.

Lemma sum_zero_head (V : list candidate -> Q) rest Ls :
  Forall (fun c => wview P c == 0)%Q rest ->
  (sum_list (map (fun items => V items * wprod P items) (product (rest :: Ls))) == 0)%Q.
Proof.
  induction 1 as [|x rest Hx _ IH].
  - reflexivity.
  - rewrite product_cons, map_app, sum_list_app, IH, map_map.
    rewrite sum_list_zero; [ring|].
    apply Forall_forall. intros r _. cbv beta. cbn [wprod fold_right]. rewrite Hx. rewrite Qmult_0_l, Qmult_0_r. reflexivity.
Qed.

Lemma dominant_sum Ls heads :
  Forall2 (dominant P) Ls heads ->
  forall V : list candidate -> Q,
    (sum_list (map (fun items => V items * wprod P items) (product Ls)) == V heads)%Q.
Proof.
  induction 1 as [|L c0 Ls heads (rest & -> & H1 & H0) _ IH]; intros V.
  - simpl. ring.
  - rewrite product_cons, map_app, sum_list_app, (sum_zero_head V rest Ls H0), map_map.
    rewrite <- (IH (fun r => V (c0 :: r))).
    rewrite Qplus_0_r. apply sum_list_ext.
    apply Forall_forall. intros r _. cbv beta. cbn [wprod fold_right]. rewrite H1. rewrite Qmult_1_l. reflexivity.
Qed.

End Dominant.

Section Accumulate.
Local Open Scope nat_scope.
Local Open Scope list_scope.

Variable src : array.
Variable fx : index_fixer.
Variable kf : kernel.
Variable n : pynum.
Variable cv : bool.
Variable coords : list array.
Variable bsh : list nat.
Variable Wp : weight -> Prop.

Let k := length coords.
Let T := drop k (ashape src).
Let OS := bsh ++ T.

Hypothesis Hne : coords <> [].
Hypothesis Hk : k <= andim src.
Hypothesis Hfit : Forall (fun c => fits (ashape c) bsh) coords.
Hypothesis Hb : broadcast_shapes_list (map ashape coords) = Ok bsh.
Hypothesis Hr : length bsh = k.
Hypothesis Hfx : Forall (fun size => good_fixer fx (Z.of_nat size)) (take k (ashape src)).
Hypothesis Hkf : forall ci, exists raws,
  kf ci = Ok raws /\ raws <> [] /\ Forall (raw_shape (ashape ci)) raws /\
  Forall (fun iw : itensor * weight => Wp iw.2) raws.
Hypothesis HWp : (forall w, Wp w -> w = WPy (PyInt 1)) \/ (forall w, Wp w -> exists a, w = WArr a).

Lemma Forall_zip {A B} (P : A -> Prop) (Q : B -> Prop) (l1 : list A) (l2 : list B) :
  Forall P l1 -> Forall Q (take (length l1) l2) ->
  Forall (fun ab : A * B => P ab.1 /\ Q ab.2) (zip l1 l2).
Proof.
  intros H1. revert l2. induction H1 as [|x l1 Hx _ IH]; intros l2 H2; [constructor|].
  destruct l2 as [|y l2]; [constructor|]. cbn [length take] in H2.
  inversion H2; subst. constructor; auto.
Qed.

Lemma indices_spec :
  exists Ls,
    traverse (fun '(ci, size) => axis_candidates src kf fx ci size)
             (zip coords (drop 0 (ashape src))) = Ok Ls /\
    Forall2 (axis_rel src fx kf coords bsh Wp) (zip coords (ashape src)) Ls.
Proof.
  rewrite drop_0. apply traverse_intro.
  eapply Forall_impl; [apply (Forall_zip _ _ _ _ Hfit Hfx)|].
  intros [ci size] [Hc Hg]. cbn [fst snd] in *.
  destruct (Hkf ci) as (raws & Ek & Hn & Hsh & Hw).
  destruct (axis_candidates_spec src fx bsh T kf ci size raws (ashape ci) Ek Hsh Hc) as (L & -> & HL).
  - subst T. rewrite length_drop. unfold andim, ndim, ashape, k in *.
    rewrite (fits_length _ _ Hc). unfold k in Hr. lia.
  - exact Hg.
  - exists L. split; [reflexivity|]. exists raws. auto.
Qed.

Lemma picks_items Ls items :
  Forall2 (axis_rel src fx kf coords bsh Wp) (zip coords (ashape src)) Ls -> picks Ls items ->
  Forall2 (item_rel src fx coords bsh Wp) (zip coords (ashape src)) items.
Proof.
  intros HLs. revert items.
  induction HLs as [|cs L css Ls (raws & _ & _ & Hsh & Hw & Hc) _ IH]; intros items Hp.
  - inversion Hp; subst. constructor.
  - inversion Hp as [|c L' items' Ls' Hin Hp']; subst. constructor; [|apply IH; exact Hp'].
    apply list_elem_of_lookup in Hin as [i Hi].
    destruct (Forall2_lookup_r _ _ _ _ _ Hc Hi) as (iw & Hiw & Hcand).
    exists iw. split; [|split]; auto.
    + eapply Forall_lookup_1 in Hsh; eauto.
    + eapply Forall_lookup_1 in Hw; eauto. 
Qed.

Lemma length_zip_coords : length (zip coords (ashape src)) = k.
Proof. rewrite length_zip_with. unfold andim, ndim, ashape in *. fold k. lia. Qed.

Lemma zip_coords_fst : map fst (zip coords (ashape src)) = coords.
Proof. apply fst_zip. unfold andim, ndim, ashape in *. fold k. lia. Qed.

Lemma fold_left_Qmult_ones (l : list candidate) P acc :
  Forall (fun c : candidate => c.2 = WPy (PyInt 1)) l -> (acc == 1)%Q ->
  (fold_left Qmult (map (wview P) l) acc == 1)%Q.
Proof.
  intros H. revert acc. induction H as [|x l Hx _ IH]; intros acc Hacc; cbn [map fold_left].
  - exact Hacc.
  - apply IH. unfold wview. rewrite Hx, Hacc. reflexivity.
Qed.

Lemma weight_product_ones (items : list candidate) P :
  Forall (fun c : candidate => c.2 = WPy (PyInt 1)) items ->
  (weight_product items P == 1)%Q.
Proof.
  intros H. destruct H as [|c items Hc H]; [reflexivity|].
  cbn [weight_product]. apply fold_left_Qmult_ones; [exact H|].
  unfold wview. rewrite Hc. reflexivity.
Qed.

Lemma item_rel_shapes css items :
  Forall2 (item_rel src fx coords bsh Wp) css items ->
  map (fun c : candidate => shape c.1.1) items = map (fun cs : array * nat => ashape cs.1) css.
Proof.
  induction 1 as [|cs c css items (iw & [Hs _] & _ & (_ & Hc & _)) _ IH];
    cbn [map]; [reflexivity|]. rewrite IH. f_equal. rewrite Hc. exact Hs.
Qed.

Lemma item_rel_masks css items :
  Forall2 (item_rel src fx coords bsh Wp) css items ->
  Forall (fun c : candidate => fits (shape c.1.2) (bsh ++ T)) items.
Proof.
  induction 1 as [|cs c css items (iw & _ & _ & (_ & _ & Hm & _)) _ IH]; constructor; auto.
Qed.

Lemma item_rel_ones css items :
  (forall w, Wp w -> w = WPy (PyInt 1)) ->
  Forall2 (item_rel src fx coords bsh Wp) css items ->
  Forall (fun c : candidate => c.2 = WPy (PyInt 1)) items.
Proof.
  intros Hone.
  induction 1 as [|cs c css items (iw & _ & Hw & (_ & _ & _ & _ & Hc)) _ IH]; constructor; auto.
  rewrite (Hone _ Hw) in Hc. exact Hc.
Qed.

Lemma item_rel_arrays css items :
  (forall w, Wp w -> exists a, w = WArr a) ->
  Forall2 (item_rel src fx coords bsh Wp) css items ->
  Forall (array_weight (bsh ++ T)) items.
Proof.
  intros Harr.
  induction 1 as [|cs c css items (iw & _ & Hw & (_ & _ & _ & _ & Hc)) _ IH]; constructor; auto.
  destruct (Harr _ Hw) as [a Ea]. rewrite Ea in Hc.
  destruct Hc as (a' & E' & Fa' & _). exists a'. auto.
Qed.

Lemma contribution_of_pick Ls items :
  Forall2 (axis_rel src fx kf coords bsh Wp) (zip coords (ashape src)) Ls -> picks Ls items ->
  exists c,
    contribution_of src (PyNum n) cv 0 items = Ok c /\
    ashape c = OS /\
    forall P, in_bounds OS P ->
              (aat c P == masked src bsh n cv items P * weight_product items P)%Q.
Proof.
  intros HLs Hp. pose proof (picks_items Ls items HLs Hp) as Hi.
  assert (Hlen : length items = k).
  { rewrite <- (Forall2_length _ _ _ Hi). apply length_zip_coords. }
  assert (Hne' : items <> []).
  { intros E. rewrite E in Hlen. simpl in Hlen. apply Hne, nil_length_inv. exact (eq_sym Hlen). }
  assert (Hshapes : map (fun c : candidate => shape c.1.1) items = map ashape coords).
  { rewrite (item_rel_shapes _ _ Hi). rewrite <- zip_coords_fst at 2. by rewrite map_map. }
  pose proof (item_rel_masks _ _ Hi) as Hmasks.
  destruct HWp as [Hone|Harr].
  - pose proof (item_rel_ones _ _ Hone Hi) as Hw.
    destruct (contribution_of_unweighted src bsh n cv items Hne') as (c & Ec & Hs & Hv);
      auto; [rewrite Hlen; exact Hk|by rewrite Hshapes|by rewrite Hlen|].
    rewrite Hlen in Hs, Hv. fold T OS in Hs, Hv.
    exists c. repeat split; auto. intros P HP. rewrite (Hv P HP), weight_product_ones by done.
    ring.
  - pose proof (item_rel_arrays _ _ Harr Hi) as Hw.
    destruct (contribution_of_weighted src bsh n cv items Hne') as (c & Ec & Hs & Hv);
      auto; [rewrite Hlen; exact Hk|by rewrite Hshapes|by rewrite Hlen|by rewrite Hlen|].
    rewrite Hlen in Hs, Hv. fold T OS in Hs, Hv.
    exists c. repeat split; auto. intros P HP. by rewrite (Hv P HP).
Qed.

(** The running sum at an output position is the sum, over all combinations
    of candidates, of the masked element times the product of the weights. *)
Theorem accumulate_spec :
  exists Ls acc,
    Forall2 (axis_rel src fx kf coords bsh Wp) (zip coords (ashape src)) Ls /\
    accumulate src coords kf fx (PyNum n) cv 0 = Ok acc /\
    ashape acc = OS /\
    forall P, in_bounds OS P ->
      (aat acc P ==
       sum_list (map (fun items => masked src bsh n cv items P * weight_product items P)
                     (product Ls)))%Q.
Proof.
  destruct indices_spec as (Ls & EL & HLs). exists Ls.
  unfold accumulate. rewrite EL. cbn [mbind result_bind].
  destruct (traverse_intro (contribution_of src (PyNum n) cv 0)
              (fun items c => ashape c = OS /\
                 forall P, in_bounds OS P ->
                   (aat c P == masked src bsh n cv items P * weight_product items P)%Q)
              (product Ls)) as (outputs & -> & Hout).
  { apply Forall_forall. intros items Hin. apply product_elem in Hin.
    destruct (contribution_of_pick Ls items HLs Hin) as (c & Ec & Hc). eauto. }
  cbn [mbind result_bind].
  assert (Hprod : product Ls <> []).
  { apply product_nonempty. clear -HLs.
    induction HLs as [|cs L css Ls (raws & _ & Hn & _ & _ & Hc) _ IH]; constructor; auto.
    intros ->. inversion Hc. by subst. }
  destruct Hout as [|items0 o items os [Ho Hov] Hout]; [done|].
  assert (Hos : Forall (fun o => ashape o = OS) os).
  { clear -Hout. induction Hout as [|? ? ? ? [? _] _ IH]; constructor; auto. }
  destruct (reduce_from_add OS os o Ho Hos) as (r & Er & Hrs & Hrv).
  exists r. split; [exact HLs|]. split; [exact Er|]. split; [exact Hrs|].
  intros P HP. unfold aat.
  rewrite <- (view_in_bounds (data r) P) by (unfold ashape in Hrs; rewrite Hrs; exact HP).
  fold (aview r P). rewrite Hrv by (apply in_bounds_length; exact HP).
  rewrite fold_left_Qplus. cbn [map sum_list fold_right].
  unfold aview at 1. rewrite view_in_bounds by (unfold ashape in Ho; rewrite Ho; exact HP).
  fold (aat o P). rewrite (Hov P HP).
  apply Qplus_comp; [reflexivity|].
  apply sum_list_Forall2.
  clear -Hout HP. induction Hout as [|it o' its os' [Ho' Hov'] _ IH]; constructor; auto.
  unfold aview. rewrite view_in_bounds by (unfold ashape in Ho'; rewrite Ho'; exact HP).
  apply (Hov' P HP).
Qed.

(** *** Whole coordinates *)

Lemma candidate_weight_view size iw c P :
  candidate_of fx bsh T size iw c -> in_bounds OS P ->
  wview P c = rw (take (length bsh) P) iw.2.
Proof.
  intros (_ & _ & _ & _ & Hw) HP. unfold wview, rw.
  destruct (iw.2) as [m|a].
  - by rewrite Hw.
  - destruct Hw as (a' & -> & _ & Hv). by apply Hv.
Qed.

Lemma axis_hit cs L P z :
  axis_rel src fx kf coords bsh Wp cs L ->
  good_fixer fx (Z.of_nat cs.2) ->
  in_bounds OS P ->
  (0 <= z < Z.of_nat cs.2)%Z ->
  (forall raws, kf cs.1 = Ok raws -> hits (take (length bsh) P) z raws) ->
  exists c0, dominant P L c0 /\ view c0.1.2 P = true /\
             view c0.1.1 (take (length bsh) P) = z.
Proof.
  intros (raws & Ek & _ & _ & _ & Hc) Hgood HP Hz Hhit.
  destruct (Hhit raws Ek) as (iw0 & rest & -> & Hi & H1 & H0).
  apply Forall2_cons_inv_l in Hc. destruct Hc as (c0 & crest & Hc0 & Hcrest & ->).
  exists c0. split; [|split].
  - exists crest. split; [reflexivity|]. split.
    + rewrite (candidate_weight_view _ _ _ _ Hc0 HP). exact H1.
    + clear -Hcrest H0 HP.
      induction Hcrest as [|iw c raws crest Hcand _ IH]; [constructor|].
      inversion H0 as [|? ? Hh0 H0']; subst. constructor; [|by apply IH].
      rewrite (candidate_weight_view _ _ _ _ Hcand HP). assumption.
  - destruct Hc0 as (_ & _ & _ & Hm & _). rewrite (Hm P HP), Hi.
    unfold in_range. apply andb_true_intro. split; [apply Z.leb_le|apply Z.ltb_lt]; lia.
  - destruct Hc0 as (Ef & Hs & _).
    destruct (Hgood iw0.1) as (r & Er & _ & Hrv). rewrite Ef in Er. injection Er as <-.
    unfold view. rewrite Hs.
    destruct (Hrv (bindex (shape iw0.1) (take (length bsh) P))) as [_ Hid].
    rewrite Hid; [exact Hi|]. unfold view in Hi. rewrite Hi. exact Hz.
Qed.

Lemma heads_exist P css Ls zs :
  in_bounds OS P ->
  Forall2 (axis_rel src fx kf coords bsh Wp) css Ls ->
  Forall (fun cs : array * nat => good_fixer fx (Z.of_nat cs.2)) css ->
  Forall2 (hit_at kf bsh P) css zs ->
  exists heads,
    Forall2 (dominant P) Ls heads /\
    Forall2 (fun (c : candidate) z =>
               view c.1.2 P = true /\ view c.1.1 (take (length bsh) P) = z) heads zs.
Proof.
  intros HP HLs. revert zs.
  induction HLs as [|cs L css Ls Hax _ IH]; intros zs Hg Hz.
  - inversion Hz; subst. exists []. split; constructor.
  - apply Forall2_cons_inv_l in Hz. destruct Hz as (z & zs' & [Hz1 Hz2] & Hzs & ->).
    apply Forall_cons in Hg. destruct Hg as [Hg1 Hg].
    destruct (axis_hit cs L P z Hax Hg1 HP Hz1 Hz2) as (c0 & Hd & Hm & Hv).
    destruct (IH zs' Hg Hzs) as (heads & Hh1 & Hh2).
    exists (c0 :: heads). split; constructor; auto.
Qed.

Lemma gathered_heads P (heads : list candidate) zs sizes (tp : list nat) :
  Forall2 (fun (c : candidate) z =>
             view c.1.2 P = true /\ view c.1.1 (take (length bsh) P) = z) heads zs ->
  Forall (fun z => 0 <= z)%Z zs ->
  length heads <= length sizes ->
  zip_with (fun (it : itensor) size => norm_index size (view it (take (length bsh) P)))
           (map (fun c : candidate => c.1.1) heads) sizes
  = map Z.to_nat zs.
Proof.
  intros H. revert sizes. induction H as [|c z heads zs [_ Hv] _ IH]; intros sizes Hz Hl.
  - reflexivity.
  - destruct sizes as [|size sizes]; [simpl in Hl; lia|].
    apply Forall_cons in Hz. destruct Hz as [Hz0 Hz].
    cbn [map zip_with]. rewrite IH by (auto; simpl in Hl; lia). f_equal.
    rewrite Hv. unfold norm_index. destruct (Z.ltb_spec z 0); [lia|reflexivity].
Qed.

(** At an output position where every coordinate is a whole number inside
    its axis, the running sum is the source element at these numbers. *)
Theorem accumulate_exact :
  exists acc,
    accumulate src coords kf fx (PyNum n) cv 0 = Ok acc /\
    ashape acc = OS /\
    forall P zs, in_bounds OS P ->
      Forall2 (hit_at kf bsh P) (zip coords (ashape src)) zs ->
      (aat acc P == aat src (map Z.to_nat zs ++ drop k P))%Q.
Proof.
  destruct accumulate_spec as (Ls & acc & HLs & Eacc & Hs & Hv).
  exists acc. split; [exact Eacc|]. split; [exact Hs|].
  intros P zs HP Hz. rewrite (Hv P HP).
  assert (Hg : Forall (fun cs : array * nat => good_fixer fx (Z.of_nat cs.2))
                      (zip coords (ashape src))).
  { eapply Forall_impl;
      [apply (Forall_zip (fun _ : array => True)
                (fun size => good_fixer fx (Z.of_nat size)) coords (ashape src))|].
    - apply Forall_forall. auto.
    - exact Hfx.
    - intros cs [_ H]. exact H. }
  destruct (heads_exist P _ Ls zs HP HLs Hg Hz) as (heads & Hd & Hh).
  rewrite (sum_list_ext _ (fun items => masked src bsh n cv items P * wprod P items)%Q).
  2:{ apply Forall_forall. intros items _. cbv beta. by rewrite weight_product_wprod. }
  rewrite (dominant_sum P Ls heads Hd (fun items => masked src bsh n cv items P)).
  assert (Hvalid : forallb (fun c : candidate => view c.1.2 P) heads = true).
  { clear -Hh. induction Hh as [|c z heads zs [Hm _] _ IH]; [reflexivity|].
    cbn [forallb]. by rewrite Hm, IH. }
  assert (Hzs : Forall (fun z => 0 <= z)%Z zs).
  { clear -Hz. induction Hz as [|cs z css zs [Hz0 _] _ IH]; constructor; auto. lia. }
  assert (Hlen : length heads <= length (ashape src)).
  { rewrite (Forall2_length _ _ _ Hh), <- (Forall2_length _ _ _ Hz), length_zip_with.
    unfold andim, ndim, ashape in *. lia. }
  unfold masked. rewrite Hvalid. unfold gathered.
  rewrite (gathered_heads P heads zs (ashape src) [] Hh Hzs Hlen), Hr.
  destruct cv; reflexivity.
Qed.

End Accumulate.

(** *** Rounding respects equality of rationals *)

Lemma Qtrunc_comp q q' : (q == q')%Q -> Qtrunc q = Qtrunc q'.
Proof.
  intros E. unfold Qtrunc.
  assert (Eb : Qle_bool 0 q = Qle_bool 0 q').
  { apply eq_true_iff_eq. rewrite !Qle_bool_iff. by rewrite E. }
  rewrite Eb. destruct (Qle_bool 0 q'); [by apply Qfloor_comp|by apply Qceiling_comp].
Qed.

Lemma Qround_even_comp q q' : (q == q')%Q -> Qround_even q = Qround_even q'.
Proof.
  intros E. unfold Qround_even. rewrite (Qfloor_comp _ _ E).
  assert (Ec : (q - inject_Z (Qfloor q') ?= 1 # 2)%Q = (q' - inject_Z (Qfloor q') ?= 1 # 2)%Q).
  { apply Qcompare_comp; [by rewrite E|reflexivity]. }
  by rewrite Ec.
Qed.

Lemma cast_comp d q q' : (q == q')%Q -> (cast d q == cast d q')%Q.
Proof.
  intros E. unfold cast. destruct (is_floating d); [exact E|].
  case_bool_decide.
  - assert (Eb : Qeq_bool q 0 = Qeq_bool q' 0).
    { apply eq_true_iff_eq. rewrite !Qeq_bool_iff. by rewrite E. }
    rewrite Eb. reflexivity.
  - by rewrite (Qtrunc_comp _ _ E).
Qed.

(** *** The kernels at a whole coordinate *)

Section Kernels.
Local Open Scope list_scope.

Lemma nearest_uniform ci :
  exists raws, _nearest_indices_and_weights ci = Ok raws /\ raws <> [] /\
               Forall (raw_shape (ashape ci)) raws /\
               Forall (fun iw : itensor * weight => iw.2 = WPy (PyInt 1)) raws.
Proof.
  unfold _nearest_indices_and_weights. eexists. split; [reflexivity|]. split; [done|].
  split; repeat constructor.
  cbn [fst astype_int32 tmap shape]. unfold mx_round, ashape.
  destruct (_is_integer ci), (is_floating (dtype ci)); reflexivity.
Qed.

Lemma nearest_hits ci bp z :
  (aview ci bp == inject_Z z)%Q ->
  forall raws, _nearest_indices_and_weights ci = Ok raws -> hits bp z raws.
Proof.
  intros Hv raws E. unfold _nearest_indices_and_weights in E. injection E as <-.
  eexists _, []. split; [reflexivity|]. split; [|split; [reflexivity|constructor]].
  cbn [fst]. unfold view, aview, view in *. cbn [astype_int32 tmap shape at_].
  unfold mx_round.
  destruct (_is_integer ci), (is_floating (dtype ci)); cbn [data tmap shape at_];
    rewrite ?(Qround_even_comp _ _ Hv), ?Qround_even_inject_Z, ?(Qtrunc_comp _ _ Hv);
    apply Qtrunc_inject_Z.
Qed.

Lemma linear_raws ci :
  _linear_indices_and_weights ci
  = Ok [(astype_int32 (mx_floor ci),
         WArr (mx_rsub_py (PyInt 1)
                 (Array (promote_types (dtype ci) (dtype (mx_floor ci)))
                    (Tensor (ashape ci)
                       (fun p => aat ci (bindex (ashape ci) p)
                                 - aat (mx_floor ci) (bindex (ashape (mx_floor ci)) p))%Q))));
        (i_add (astype_int32 (mx_floor ci)) 1,
         WArr (Array (promote_types (dtype ci) (dtype (mx_floor ci)))
                 (Tensor (ashape ci)
                    (fun p => aat ci (bindex (ashape ci) p)
                              - aat (mx_floor ci) (bindex (ashape (mx_floor ci)) p))%Q)))].
Proof.
  unfold _linear_indices_and_weights, mx_subtract, mx_binary.
  assert (Hsh : shape (data ci) = shape (data (mx_floor ci))).
  { unfold mx_floor. by destruct (is_floating (dtype ci)). }
  rewrite (broadcast2_same _ _ _ Hsh). reflexivity.
Qed.

Lemma mx_floor_shape ci : ashape (mx_floor ci) = ashape ci.
Proof. unfold mx_floor. by destruct (is_floating (dtype ci)). Qed.

Lemma linear_uniform ci :
  exists raws, _linear_indices_and_weights ci = Ok raws /\ raws <> [] /\
               Forall (raw_shape (ashape ci)) raws /\
               Forall (fun iw : itensor * weight => exists a, iw.2 = WArr a) raws.
Proof.
  rewrite linear_raws. eexists. split; [reflexivity|]. split; [done|].
  split; repeat constructor; cbn [fst snd]; eauto; apply mx_floor_shape.
Qed.

Lemma linear_hits ci bp z :
  length bp = length (ashape ci) ->
  (aview ci bp == inject_Z z)%Q ->
  forall raws, _linear_indices_and_weights ci = Ok raws -> hits bp z raws.
Proof.
  intros Hl Hv raws E. rewrite linear_raws in E. injection E as <-.
  assert (Hb : bindex (ashape ci) (bindex (ashape ci) bp) = bindex (ashape ci) bp).
  { apply bindex_fits; [apply fits_refl|exact Hl]. }
  assert (Hfl : (aat (mx_floor ci) (bindex (ashape ci) bp) == inject_Z z)%Q
                /\ Qtrunc (aat (mx_floor ci) (bindex (ashape ci) bp)) = z).
  { unfold aview, view in Hv. fold (ashape ci) in Hv. fold (aat ci (bindex (ashape ci) bp)) in Hv.
    unfold mx_floor. destruct (is_floating (dtype ci)); unfold aat; cbn [data tmap at_].
    - fold (aat ci (bindex (ashape ci) bp)).
      rewrite (Qfloor_comp _ _ Hv), Qfloor_Z, Qtrunc_inject_Z. split; reflexivity.
    - fold (aat ci (bindex (ashape ci) bp)).
      split; [exact Hv|]. rewrite (Qtrunc_comp _ _ Hv). apply Qtrunc_inject_Z. }
  destruct Hfl as [Hfl1 Hfl2].
  unfold aview, view in Hv. fold (ashape ci) in Hv. fold (aat ci (bindex (ashape ci) bp)) in Hv.
  eexists _, [_]. split; [reflexivity|]. cbn [fst snd rw].
  unfold view, aview, view. cbn [astype_int32 i_add tmap shape at_ data mx_rsub_py].
  fold (ashape (mx_floor ci)). rewrite !mx_floor_shape.
  fold (aat (mx_floor ci) (bindex (ashape ci) bp)).
  rewrite Hb. fold (aat ci (bindex (ashape ci) bp)).
  split; [exact Hfl2|]. split.
  - rewrite cast_py_one, Hv, Hfl1. ring.
  - constructor; [|constructor]. cbn [snd rw]. unfold aview, view. cbn [data shape at_].
    rewrite Hb. fold (aat ci (bindex (ashape ci) bp)). rewrite Hv, Hfl1. ring.
Qed.

End Kernels.

Lemma representable_integer a q :
  _is_integer a = true -> representable (dtype a) q -> exists z, (q == inject_Z z)%Q.
Proof.
  unfold representable, _is_integer, to_mlx_dtype, cast. intros Hi Hq.
  destruct (dtype a); try discriminate; simpl in Hq; eexists; symmetry; exact Hq.
Qed.

Lemma finalize_value src acc v P :
  representable (dtype src) v ->
  (aat acc P == v)%Q ->
  (aat (astype (dtype src)
          (if _is_integer src && negb (_is_integer acc) then mx_round acc else acc)) P == v)%Q.
Proof.
  intros Hv Ha.
  assert (Hr : (aat (if _is_integer src && negb (_is_integer acc)
                     then mx_round acc else acc) P == v)%Q).
  { destruct (_is_integer src) eqn:Ei; [|exact Ha].
    destruct (negb (_is_integer acc)); [|exact Ha]. cbn [andb].
    unfold mx_round. destruct (is_floating (dtype acc)); [|exact Ha].
    unfold aat. cbn [data tmap at_]. fold (aat acc P).
    destruct (representable_integer src v Ei Hv) as [z Hz].
    rewrite (Qround_even_comp _ _ Ha), (Qround_even_comp _ _ Hz), Qround_even_inject_Z.
    symmetry. exact Hz. }
  set (r := if _is_integer src && negb (_is_integer acc) then mx_round acc else acc) in *.
  unfold astype. case_bool_decide; [exact Hr|].
  unfold aat. cbn [data tmap at_]. fold (aat r P).
  rewrite (cast_comp _ _ _ Hr). exact Hv.
Qed.

Lemma finalize_shape src acc :
  ashape (astype (dtype src)
            (if _is_integer src && negb (_is_integer acc) then mx_round acc else acc))
  = ashape acc.
Proof.
  assert (Hr : ashape (if _is_integer src && negb (_is_integer acc)
                       then mx_round acc else acc) = ashape acc).
  { destruct (_is_integer src && negb (_is_integer acc)); [|reflexivity].
    unfold mx_round. by destruct (is_floating (dtype acc)). }
  unfold astype. case_bool_decide; [exact Hr|]. unfold ashape in *. cbn [data tmap shape].
  exact Hr.
Qed.

Section Exact.
Local Open Scope nat_scope.
Local Open Scope list_scope.

Variable src : array.
Variable fx : index_fixer.
Variable kf : kernel.
Variable n : pynum.
Variable cv : bool.
Variable coords : list array.
Variable bsh : list nat.

Let k := length coords.
Let T := drop k (ashape src).
Let OS := bsh ++ T.

Hypothesis Hne : coords <> [].
Hypothesis Hk : k <= andim src.
Hypothesis Hfit : Forall (fun c => fits (ashape c) bsh) coords.
Hypothesis Hb : broadcast_shapes_list (map ashape coords) = Ok bsh.
Hypothesis Hr : length bsh = k.
Hypothesis Hfx : Forall (fun size => good_fixer fx (Z.of_nat size)) (take k (ashape src)).
Hypothesis Hkf : is_kernel kf.

Lemma whole_hits P cs z :
  in_bounds OS P -> fits (ashape cs.1) bsh ->
  whole_at (take k P) cs z -> hit_at kf bsh P cs z.
Proof.
  intros HP Hf [Hz Hv]. split; [exact Hz|]. rewrite Hr.
  destruct Hkf as [-> | ->].
  - by apply nearest_hits.
  - apply linear_hits; [|exact Hv].
    rewrite (fits_length _ _ Hf), length_take.
    apply in_bounds_length in HP. unfold OS in HP. rewrite length_app in HP. lia.
Qed.

Lemma whole_hits_all P (css : list (array * nat)) zs :
  in_bounds OS P -> Forall (fun cs : array * nat => fits (ashape cs.1) bsh) css ->
  Forall2 (whole_at (take k P)) css zs -> Forall2 (hit_at kf bsh P) css zs.
Proof.
  intros HP Hf H. induction H as [|cs z css zs H1 _ IH]; constructor.
  - apply whole_hits; [exact HP| |exact H1]. by apply Forall_cons in Hf as [? _].
  - apply IH. by apply Forall_cons in Hf as [_ ?].
Qed.

(** Where every coordinate is a whole number inside its axis, the resampler
    returns the source element at these numbers, for both kernels, each
    boundary policy that stays in range, and each numeric fill value. *)
Theorem extract_coordinates_exact :
  exists out,
    _extract_coordinates src coords kf fx (PyNum n) cv 0 = Ok out /\
    ashape out = OS /\ dtype out = dtype src /\
    forall P zs, in_bounds OS P ->
      Forall2 (whole_at (take k P)) (zip coords (ashape src)) zs ->
      representable (dtype src) (aat src (map Z.to_nat zs ++ drop k P)) ->
      (aat out P == aat src (map Z.to_nat zs ++ drop k P))%Q.
Proof.
  assert (Hacc : exists acc,
    accumulate src coords kf fx (PyNum n) cv 0 = Ok acc /\ ashape acc = OS /\
    forall P zs, in_bounds OS P ->
      Forall2 (hit_at kf bsh P) (zip coords (ashape src)) zs ->
      (aat acc P == aat src (map Z.to_nat zs ++ drop k P))%Q).
  { destruct Hkf as [E | E].
    - apply (accumulate_exact src fx kf n cv coords bsh
               (fun w => w = WPy (PyInt 1)) Hne Hk Hfit Hb Hr Hfx).
      + intros ci. rewrite E. apply nearest_uniform.
      + left. auto.
    - apply (accumulate_exact src fx kf n cv coords bsh
               (fun w => exists a, w = WArr a) Hne Hk Hfit Hb Hr Hfx).
      + intros ci. rewrite E. apply linear_uniform.
      + right. auto. }
  destruct Hacc as (acc & Eacc & Hs & Hv).
  unfold _extract_coordinates. rewrite Eacc. cbn [mbind result_bind].
  eexists. split; [reflexivity|]. split; [|split].
  - rewrite finalize_shape. exact Hs.
  - apply astype_dtype.
  - intros P zs HP Hz Hrep. apply finalize_value; [exact Hrep|].
    apply Hv; [exact HP|]. apply whole_hits_all; [exact HP| |exact Hz].
    eapply Forall_impl;
      [apply (Forall_zip (fun c => fits (ashape c) bsh) (fun _ : nat => True)
                coords (ashape src)); [exact Hfit|by apply Forall_forall]|].
    intros cs [H _]. exact H.
Qed.

End Exact.

(** ** The identity transform *)

Section Grids.
Local Open Scope nat_scope.
Local Open Scope list_scope.

Lemma areshape_arange axis n :
  axis < 3 -> exists a, areshape (mx_arange n) (grid_dims axis) = Ok a /\ grid axis n a.
Proof.
  intros Ha.
  assert (Hs : infer_shape (prod [n]) (grid_dims axis) = Ok (grid_shape axis n)).
  { assert (Hc : count_neg (grid_dims axis) = 1 /\ known_size (grid_dims axis) = 1).
    { destruct axis as [|[|[|?]]]; [| | |lia]; vm_compute; auto. }
    destruct Hc as [Hc Hk]. unfold infer_shape. rewrite Hc, Hk.
    cbn [Nat.eqb orb prod fold_right]. rewrite Nat.mul_1_r, Nat.mod_1_r, Nat.div_1_r.
    cbn [Nat.eqb negb]. destruct axis as [|[|[|?]]]; [| | |lia]; reflexivity. }
  unfold areshape, reshape. cbn [mx_arange data shape]. rewrite Hs.
  cbn [mbind result_bind]. eexists. split; [reflexivity|].
  split; [reflexivity|]. split; [reflexivity|].
  intros i Hi. unfold aat. cbn [data at_].
  assert (Hr : ravel (grid_shape axis n) (grid_pos axis i) = i).
  { destruct axis as [|[|[|?]]]; [| | |lia]; cbn; lia. }
  rewrite Hr. cbn -[Nat.div Nat.modulo]. by rewrite Nat.div_1_r.
Qed.

Lemma bindex_cons d sh i p :
  length p = length sh ->
  bindex (d :: sh) (i :: p) = (if d =? 1 then 0 else i) :: bindex sh p.
Proof.
  intros Hl. unfold bindex. cbn [length]. rewrite Hl, !Nat.sub_diag. reflexivity.
Qed.

Lemma bindex_nil : bindex [] [] = [].
Proof. reflexivity. Qed.

(** Reading a grid at an output position picks the entry of its axis. *)
Lemma grid_view axis n a P i :
  grid axis n a -> axis < 3 -> length P = 3 -> P !! axis = Some i -> i < n ->
  aview a P = inject_Z (Z.of_nat i).
Proof.
  intros (_ & Hs & Hv) Ha Hl Hi Hn. unfold aview, view. fold (ashape a). rewrite Hs.
  fold (aat a (bindex (grid_shape axis n) P)). rewrite <- (Hv i Hn). f_equal.
  destruct P as [|b [|y [|x [|? ?]]]]; try discriminate.
  destruct axis as [|[|[|?]]]; [| | |lia]; cbn in Hi; injection Hi as ->;
    unfold grid_shape, grid_pos; cbn [insert list_insert];
    rewrite !bindex_cons by reflexivity; rewrite bindex_nil; cbn [Nat.eqb];
    destruct (Nat.eqb_spec n 1); try reflexivity; f_equal; try lia;
    repeat f_equal; lia.
Qed.

Lemma coefficient_view v a P : coefficient v a -> length P = 3 -> aview a P = v.
Proof.
  intros (_ & Hs & Hv) Hl. unfold aview, view. fold (ashape a). rewrite Hs.
  destruct P as [|b [|y [|x [|? ?]]]]; try discriminate.
  rewrite !bindex_cons by reflexivity. exact Hv.
Qed.

End Grids.

(** The coefficients of the identity transform. *)
Lemma identity_coefficients :
  exists flat rows parts a0 a1 a2 b0 b1 b2 c0 c1,
    areshape (aT identity_transform) [-1] = Ok flat /\
    areshape flat [8; -1] = Ok rows /\
    asplit rows 8 = Ok parts /\
    traverse (fun t => areshape t [-1; 1; 1]) parts = Ok [a0; a1; a2; b0; b1; b2; c0; c1] /\
    coefficient 1 a0 /\ coefficient 0 a1 /\ coefficient 0 a2 /\
    coefficient 0 b0 /\ coefficient 1 b1 /\ coefficient 0 b2 /\
    coefficient 0 c0 /\ coefficient 0 c1.
Proof.
  assert (Hobs :
    (flat ← areshape (aT identity_transform) [-1];
     rows ← areshape flat [8; -1];
     parts ← asplit rows 8;
     cs ← traverse (fun t => areshape t [-1; 1; 1]) parts;
     Ok (map (fun a => (dtype a, ashape a, aat a [0; 0; 0]%nat)) cs))
    = Ok (map (fun v => (float32, [1; 1; 1]%nat, v)) [1; 0; 0; 0; 1; 0; 0; 0]%Q)).
  { vm_compute. reflexivity. }
  destruct (areshape (aT identity_transform) [-1]) as [flat|] eqn:E1; [|discriminate].
  cbn [mbind result_bind] in Hobs.
  destruct (areshape flat [8; -1]) as [rows|] eqn:E2; [|discriminate].
  cbn [mbind result_bind] in Hobs.
  destruct (asplit rows 8) as [parts|] eqn:E3; [|discriminate].
  cbn [mbind result_bind] in Hobs.
  destruct (traverse (fun t => areshape t [-1; 1; 1]) parts) as [cs|] eqn:E4; [|discriminate].
  cbn [mbind result_bind] in Hobs. injection Hobs as Hobs.
  do 8 (destruct cs as [|? cs]; [discriminate|]).
  destruct cs; [|discriminate]. cbn [map] in Hobs.
  exists flat, rows, parts. do 8 eexists.
  do 4 (split; [first [reflexivity|eassumption]|]).
  unfold coefficient.
  repeat match goal with
         | H : _ :: _ = _ :: _ |- _ => injection H as ? H
         | H : (_, _, _) = (_, _, _) |- _ => injection H as ? ? ?
         end.
  repeat split; assumption.
Qed.

Section Arithmetic.
Local Open Scope nat_scope.
Local Open Scope list_scope.

Lemma broadcast2_shape {A B C} (f : A -> B -> C) a b c s :
  length (shape a) = length (shape b) -> bdims (shape a) (shape b) = Ok s ->
  broadcast2 f a b = Ok c -> shape c = s.
Proof.
  intros Hl Hs E. unfold broadcast2 in E.
  rewrite (broadcast_shapes_eq_length _ _ Hl), Hs in E. cbn [mbind result_bind] in E.
  by injection E as <-.
Qed.

Lemma mx_binary_spec f a b s OS :
  fits (ashape a) OS -> fits (ashape b) OS -> bdims (ashape a) (ashape b) = Ok s ->
  exists c, mx_binary f a b = Ok c /\
            dtype c = promote_types (dtype a) (dtype b) /\ ashape c = s /\
            forall P, length P = length OS -> aview c P = f (aview a P) (aview b P).
Proof.
  intros Ha Hb Hs.
  destruct (broadcast2_view f (data a) (data b) OS Ha Hb) as (t & E & _ & _ & Hv).
  unfold mx_binary. rewrite E. cbn [mbind result_bind].
  eexists. split; [reflexivity|]. split; [reflexivity|]. split; [|exact Hv].
  apply (broadcast2_shape f (data a) (data b)); [|exact Hs|exact E].
  pose proof (fits_length _ _ Ha). pose proof (fits_length _ _ Hb).
  unfold ashape in *. congruence.
Qed.

Lemma mx_divide_spec a b s OS :
  fits (ashape a) OS -> fits (ashape b) OS -> bdims (ashape a) (ashape b) = Ok s ->
  exists c, mx_divide a b = Ok c /\
            dtype c = promote_py_float (promote_types (dtype a) (dtype b)) /\
            ashape c = s /\
            forall P, length P = length OS -> aview c P = (aview a P / aview b P)%Q.
Proof.
  intros Ha Hb Hs.
  destruct (broadcast2_view Qdiv (data a) (data b) OS Ha Hb) as (t & E & _ & _ & Hv).
  unfold mx_divide. rewrite E. cbn [mbind result_bind].
  eexists. split; [reflexivity|]. split; [reflexivity|]. split; [|exact Hv].
  apply (broadcast2_shape Qdiv (data a) (data b)); [|exact Hs|exact E].
  pose proof (fits_length _ _ Ha). pose proof (fits_length _ _ Hb).
  unfold ashape in *. congruence.
Qed.

Lemma asqueeze0_spec a sh :
  ashape a = 1 :: sh ->
  exists c, asqueeze0 a = Ok c /\ dtype c = dtype a /\ ashape c = sh /\
            forall P, length P = length sh -> aview c P = aview a (0 :: P).
Proof.
  intros Hs. unfold asqueeze0, squeeze0. unfold ashape in Hs. rewrite Hs.
  cbn [mbind result_bind]. eexists. split; [reflexivity|]. split; [reflexivity|].
  split; [reflexivity|]. intros P Hl. unfold aview, view. cbn [data shape at_].
  rewrite Hs, bindex_cons by exact Hl. reflexivity.
Qed.

End Arithmetic.

Ltac use_shapes :=
  repeat match goal with H : ashape _ = _ |- _ => rewrite H end.

Ltac solve_fits :=
  use_shapes; unfold fits;
  repeat (constructor; [first [left; reflexivity | right; reflexivity]|]);
  constructor.

Ltac solve_bdims :=
  use_shapes; cbn [bdims];
  rewrite ?bdim_same, ?bdim_1_l, ?bdim_1_r; cbn [mbind result_bind]; reflexivity.

Ltac binary_step f a b s OS c E Hd Hs Hv :=
  destruct (mx_binary_spec f a b s OS) as (c & E & Hd & Hs & Hv);
  [solve_fits | solve_fits | solve_bdims |];
  rewrite E; cbn [mbind result_bind]; clear E.

Section Coordinates.
Local Open Scope nat_scope.
Local Open Scope list_scope.

(** The source coordinates [_affine_transform] computes for the identity
    transform: row [y] and column [x] at the target pixel [(y, x)]. *)
Lemma affine_identity_coordinates src H W kf fx fill cv :
  exists y_src x_src,
    _affine_transform src identity_transform (H, W) kf fx fill cv
    = (indices ← (if andim src =? 3 then
                    y ← asqueeze0 y_src; x ← asqueeze0 x_src; Ok [y; x]
                  else
                    batch ← areshape (mx_arange (hd 0 (ashape src))) [-1; 1; 1]%Z;
                    Ok [batch; y_src; x_src]);
       _extract_coordinates src indices kf fx fill cv 0) /\
    ashape y_src = [1; H; W] /\ ashape x_src = [1; H; W] /\
    forall b y x, y < H -> x < W ->
      (aview y_src [b; y; x] == inject_Z (Z.of_nat y))%Q /\
      (aview x_src [b; y; x] == inject_Z (Z.of_nat x))%Q.
Proof.
  set (OS := [1; H; W]).
  unfold _affine_transform. cbn [fst snd].
  destruct (areshape_arange 1 H) as (yt & Eyt & Hyt); [lia|].
  destruct (areshape_arange 2 W) as (xt & Ext & Hxt); [lia|].
  change (grid_dims 1) with [1; -1; 1]%Z in Eyt.
  change (grid_dims 2) with [1; 1; -1]%Z in Ext.
  rewrite Eyt. cbn [mbind result_bind]. rewrite Ext. cbn [mbind result_bind].
  destruct identity_coefficients
    as (flat & rows & parts & a0 & a1 & a2 & b0 & b1 & b2 & c0 & c1
        & E1 & E2 & E3 & E4 & Ha0 & Ha1 & Ha2 & Hb0 & Hb1 & Hb2 & Hc0 & Hc1).
  rewrite E1. cbn [mbind result_bind]. rewrite E2. cbn [mbind result_bind].
  rewrite E3. cbn [mbind result_bind]. rewrite E4. cbn [mbind result_bind].
  clear E1 E2 E3 E4 Eyt Ext.
  assert (Syt : ashape yt = [1; H; 1]) by apply Hyt.
  assert (Sxt : ashape xt = [1; 1; W]) by apply Hxt.
  assert (Dyt : dtype yt = int32) by apply Hyt.
  assert (Dxt : dtype xt = int32) by apply Hxt.
  pose proof (proj1 (proj2 Ha0)) as Sa0. pose proof (proj1 (proj2 Ha1)) as Sa1.
  pose proof (proj1 (proj2 Ha2)) as Sa2. pose proof (proj1 (proj2 Hb0)) as Sb0.
  pose proof (proj1 (proj2 Hb1)) as Sb1. pose proof (proj1 (proj2 Hb2)) as Sb2.
  pose proof (proj1 (proj2 Hc0)) as Sc0. pose proof (proj1 (proj2 Hc1)) as Sc1.
  unfold mx_multiply, mx_add.
  binary_step Qmult c0 xt [1; 1; W] OS c0x E Dc0x Sc0x Vc0x.
  binary_step Qmult c1 yt [1; H; 1] OS c1y E Dc1y Sc1y Vc1y.
  binary_step Qplus c0x c1y [1; H; W] OS k0 E Dk0 Sk0 Vk0.
  set (k := mx_add_py k0 (PyInt 1)).
  assert (Sk : ashape k = [1; H; W]) by exact Sk0.
  binary_step Qmult a0 xt [1; 1; W] OS a0x E Da0x Sa0x Va0x.
  binary_step Qmult a1 yt [1; H; 1] OS a1y E Da1y Sa1y Va1y.
  binary_step Qplus a0x a1y [1; H; W] OS xn0 E Dxn0 Sxn0 Vxn0.
  binary_step Qplus xn0 a2 [1; H; W] OS xn E Dxn Sxn Vxn.
  destruct (mx_divide_spec xn k [1; H; W] OS) as (x_src & E & Dx & Sx & Vx);
    [solve_fits | solve_fits | solve_bdims |].
  rewrite E. cbn [mbind result_bind]. clear E.
  binary_step Qmult b0 xt [1; 1; W] OS b0x E Db0x Sb0x Vb0x.
  binary_step Qmult b1 yt [1; H; 1] OS b1y E Db1y Sb1y Vb1y.
  binary_step Qplus b0x b1y [1; H; W] OS yn0 E Dyn0 Syn0 Vyn0.
  binary_step Qplus yn0 b2 [1; H; W] OS yn E Dyn Syn Vyn.
  destruct (mx_divide_spec yn k [1; H; W] OS) as (y_src & E & Dy & Sy & Vy);
    [solve_fits | solve_fits | solve_bdims |].
  rewrite E. cbn [mbind result_bind]. clear E.
  exists y_src, x_src. split; [reflexivity|]. split; [exact Sy|]. split; [exact Sx|].
  intros b y x Hy Hx.
  assert (Hl : length [b; y; x] = length OS) by reflexivity.
  assert (Vk : aview k [b; y; x] = (aview k0 [b; y; x] + 1)%Q).
  { unfold k, mx_add_py, aview, view. cbn [data tmap shape at_]. f_equal.
    rewrite Dk0, Dc0x, Dc1y, (proj1 Hc0), (proj1 Hc1), Dxt, Dyt. reflexivity. }
  rewrite (Vy _ Hl), (Vx _ Hl), Vk, (Vyn _ Hl), (Vyn0 _ Hl), (Vb0x _ Hl), (Vb1y _ Hl),
    (Vxn _ Hl), (Vxn0 _ Hl), (Va0x _ Hl), (Va1y _ Hl), (Vk0 _ Hl), (Vc0x _ Hl), (Vc1y _ Hl).
  rewrite (coefficient_view _ _ _ Ha0), (coefficient_view _ _ _ Ha1),
    (coefficient_view _ _ _ Ha2), (coefficient_view _ _ _ Hb0),
    (coefficient_view _ _ _ Hb1), (coefficient_view _ _ _ Hb2),
    (coefficient_view _ _ _ Hc0), (coefficient_view _ _ _ Hc1) by reflexivity.
  rewrite (grid_view 1 H yt [b; y; x] y Hyt), (grid_view 2 W xt [b; y; x] x Hxt)
    by (reflexivity || lia).
  split; field.
Qed.

End Coordinates.

Lemma index_fixer_lookup mode :
  mode ∈ AFFINE_TRANSFORM_FILL_MODES ->
  exists fx, _INDEX_FIXERS !! mode = Some fx /\
             forall d, axis_ok mode d -> good_fixer fx (Z.of_nat d).
Proof.
  intros Hm.
  assert (E : exists fx, _INDEX_FIXERS !! mode = Some fx).
  { destruct (fill_modes_cases _ Hm) as [-> | [-> | [-> | [-> | ->]]]];
      eexists; reflexivity. }
  destruct E as [fx E]. exists fx. split; [exact E|].
  intros d [Hd Hmirror] index.
  assert (Hg : good_fixer (fix_index mode) (Z.of_nat d)).
  { apply fix_index_good; [exact Hm|lia|]. intros Em. specialize (Hmirror Em). lia. }
  unfold good_fixer, fix_index in Hg. specialize (Hg index). cbv beta in Hg.
  match type of Hg with
  | context [match ?o with _ => _ end] =>
      replace o with (Some fx) in Hg by (symmetry; exact E)
  end.
  exact Hg.
Qed.

Lemma kernel_lookup interpolation :
  interpolation = "nearest" \/ interpolation = "bilinear" ->
  exists kf, AFFINE_TRANSFORM_INTERPOLATIONS !! interpolation = Some kf /\ is_kernel kf.
Proof.
  intros [-> | ->]; eexists; (split; [reflexivity|]); [left|right]; reflexivity.
Qed.

Section Identity.
Local Open Scope nat_scope.
Local Open Scope list_scope.

Variable fx : index_fixer.
Variable kf : kernel.
Variable n : pynum.
Variable cv : bool.
Variable mode : string.
Hypothesis Hfx : forall d, axis_ok mode d -> good_fixer fx (Z.of_nat d).
Hypothesis Hkf : is_kernel kf.

Lemma affine_identity_rank3 src H W C :
  ashape src = [H; W; C] -> axis_ok mode H -> axis_ok mode W -> well_typed src ->
  exists out,
    _affine_transform src identity_transform (H, W) kf fx (PyNum n) cv = Ok out /\
    dtype out = dtype src /\ ashape out = ashape src /\
    forall P, in_bounds (ashape src) P -> (aat out P == aat src P)%Q.
Proof.
  intros Hs HH HW Hwt.
  destruct (affine_identity_coordinates src H W kf fx (PyNum n) cv)
    as (y_src & x_src & -> & Sy & Sx & Hv).
  assert (Hrank : andim src = 3) by (unfold andim, ndim; fold (ashape src); by rewrite Hs).
  rewrite Hrank. cbn [Nat.eqb].
  destruct (asqueeze0_spec y_src [H; W] Sy) as (y & -> & _ & Sy' & Vy).
  destruct (asqueeze0_spec x_src [H; W] Sx) as (x & -> & _ & Sx' & Vx).
  cbn [mbind result_bind].
  pose proof (extract_coordinates_exact src fx kf n cv [y; x] [H; W]) as Hx.
  cbv zeta in Hx. cbn [length] in Hx. rewrite Hs in Hx. cbn [drop take] in Hx.
  destruct Hx as (out & -> & So & Do & Vo).
  - discriminate.
  - rewrite Hrank. lia.
  - repeat (apply Forall_cons; split); try apply Forall_nil; cbv beta; solve_fits.
  - cbn [map broadcast_shapes_list]. rewrite Sy', Sx'. cbn [mbind result_bind].
    rewrite broadcast_shapes_nil. cbn [mbind result_bind].
    rewrite !broadcast_shapes_same. reflexivity.
  - reflexivity.
  - repeat constructor; auto.
  - exact Hkf.
  - exists out. split; [reflexivity|]. split; [exact Do|]. split; [by rewrite Hs|].
    intros P HP. rewrite Hs in HP.
    destruct P as [|y0 [|x0 [|c [|? ?]]]];
      try (apply Forall2_length in HP; discriminate).
    apply Forall2_cons in HP as [Hy0 HP]. apply Forall2_cons in HP as [Hx0 HP].
    apply Forall2_cons in HP as [Hc0 _].
    destruct (Hv 0 y0 x0 Hy0 Hx0) as [Ey Ex].
    pose proof (Vo [y0; x0; c] [Z.of_nat y0; Z.of_nat x0]) as Hz.
    cbn [map app drop zip zip_with take] in Hz. rewrite !Nat2Z.id in Hz. apply Hz.
    + repeat constructor; assumption.
    + constructor; [|constructor; [|constructor]].
      * split; [cbn [snd]; lia|]. cbn [fst]. rewrite Vy by reflexivity. exact Ey.
      * split; [cbn [snd]; lia|]. cbn [fst]. rewrite Vx by reflexivity. exact Ex.
    + apply Hwt. rewrite Hs. repeat constructor; assumption.
Qed.

Lemma affine_identity_rank4 src B H W C :
  ashape src = [B; H; W; C] -> axis_ok mode B -> axis_ok mode H -> axis_ok mode W ->
  well_typed src ->
  exists out,
    _affine_transform src identity_transform (H, W) kf fx (PyNum n) cv = Ok out /\
    dtype out = dtype src /\ ashape out = ashape src /\
    forall P, in_bounds (ashape src) P -> (aat out P == aat src P)%Q.
Proof.
  intros Hs HB HH HW Hwt.
  destruct (affine_identity_coordinates src H W kf fx (PyNum n) cv)
    as (y_src & x_src & -> & Sy & Sx & Hv).
  assert (Hrank : andim src = 4) by (unfold andim, ndim; fold (ashape src); by rewrite Hs).
  rewrite Hrank, Hs. cbn [Nat.eqb hd].
  destruct (areshape_arange 0 B) as (batch & Eb & Hb); [lia|].
  change (grid_dims 0) with [-1; 1; 1]%Z in Eb. rewrite Eb. cbn [mbind result_bind].
  assert (Sb : ashape batch = [B; 1; 1]) by apply Hb.
  pose proof (extract_coordinates_exact src fx kf n cv [batch; y_src; x_src] [B; H; W]) as Hx.
  cbv zeta in Hx. cbn [length] in Hx. rewrite Hs in Hx. cbn [drop take] in Hx.
  destruct Hx as (out & -> & So & Do & Vo).
  - discriminate.
  - rewrite Hrank. lia.
  - repeat (apply Forall_cons; split); try apply Forall_nil; cbv beta; solve_fits.
  - cbn [map broadcast_shapes_list]. rewrite Sb, Sy, Sx. cbn [mbind result_bind].
    rewrite broadcast_shapes_nil. cbn [mbind result_bind].
    rewrite broadcast_shapes_same. cbn [mbind result_bind].
    rewrite broadcast_shapes_eq_length by reflexivity. cbn [bdims].
    rewrite !bdim_1_l, !bdim_1_r. reflexivity.
  - reflexivity.
  - repeat constructor; auto.
  - exact Hkf.
  - exists out. split; [reflexivity|]. split; [exact Do|]. split; [exact So|].
    intros P HP.
    destruct P as [|b0 [|y0 [|x0 [|c [|? ?]]]]];
      try (apply Forall2_length in HP; discriminate).
    apply Forall2_cons in HP as [Hb0 HP]. apply Forall2_cons in HP as [Hy0 HP].
    apply Forall2_cons in HP as [Hx0 HP]. apply Forall2_cons in HP as [Hc0 _].
    destruct (Hv b0 y0 x0 Hy0 Hx0) as [Ey Ex].
    pose proof (Vo [b0; y0; x0; c] [Z.of_nat b0; Z.of_nat y0; Z.of_nat x0]) as Hz.
    cbn [map app drop zip zip_with take] in Hz. rewrite !Nat2Z.id in Hz. apply Hz.
    + repeat constructor; assumption.
    + constructor; [|constructor; [|constructor; [|constructor]]].
      * split; [cbn [snd]; lia|]. cbn [fst].
        rewrite (grid_view 0 B batch [b0; y0; x0] b0 Hb) by (reflexivity || lia).
        reflexivity.
      * split; [cbn [snd]; lia|]. exact Ey.
      * split; [cbn [snd]; lia|]. exact Ex.
    + apply Hwt. rewrite Hs. repeat constructor; assumption.
Qed.

End Identity.

Section IdentityTransform.
Local Open Scope nat_scope.
Local Open Scope list_scope.

Lemma rank_cases (a : array) :
  andim a = 3 \/ andim a = 4 ->
  (exists H W C, ashape a = [H; W; C]) \/ (exists B H W C, ashape a = [B; H; W; C]).
Proof.
  unfold andim, ndim. fold (ashape a). intros [E | E]; [left|right];
    destruct (ashape a) as [|d0 [|d1 [|d2 [|d3 [|? ?]]]]]; try discriminate; eauto.
Qed.



End IdentityTransform.

(** ** The public resampler *)

Section FillValue.
Local Open Scope nat_scope.
Local Open Scope list_scope.

Lemma traverse_ext {A B} (f g : A -> result B) l :
  (forall x, f x = g x) -> traverse f l = traverse g l.
Proof. intros E. induction l as [|x l IH]; [reflexivity|]. cbn [traverse]. by rewrite E, IH. Qed.

Lemma contribution_of_ignores_fill src fill fill' sa items :
  contribution_of src fill false sa items = contribution_of src fill' false sa items.
Proof. destruct items; reflexivity. Qed.

Lemma extract_coordinates_ignores_fill src coords kf fx fill fill' sa :
  _extract_coordinates src coords kf fx fill false sa
  = _extract_coordinates src coords kf fx fill' false sa.
Proof.
  unfold _extract_coordinates, accumulate.
  destruct (traverse _ (zip coords (drop sa (ashape src)))) as [indices|]; [|reflexivity].
  cbn [mbind result_bind].
  by rewrite (traverse_ext _ _ _ (contribution_of_ignores_fill src fill fill' sa)).
Qed.

(** X4. With a fill mode other than [constant] the fill value is never
    used: two calls that differ in the fill value only agree. *)
Theorem map_coordinates_ignores_fill_value input coordinates order fill_mode fill fill' :
  fill_mode <> "constant" ->
  map_coordinates input coordinates order fill_mode fill
  = map_coordinates input coordinates order fill_mode fill'.
Proof.
  intros Hm. unfold map_coordinates. rewrite (bool_decide_eq_false_2 _ Hm).
  destruct (negb _); [reflexivity|].
  destruct (_INDEX_FIXERS !! fill_mode) as [fx|]; [|reflexivity].
  destruct (if (order =? 0)%Z then _ else _) as [kf|]; [|reflexivity].
  cbn [mbind result_bind]. apply extract_coordinates_ignores_fill.
Qed.

Lemma map_coordinates_ignores_fill_value_witness :
  map_coordinates (array1 int32 [10; 20; 30]%Q) [array1 float32 [7 # 2]%Q] 1 "wrap"
    (PyNum (PyInt 0))
  = map_coordinates (array1 int32 [10; 20; 30]%Q) [array1 float32 [7 # 2]%Q] 1 "wrap"
      (PyNum (PyFloat (5 # 2))).
Proof. apply map_coordinates_ignores_fill_value. discriminate. Defined.

End FillValue.

Section WholeCoordinates.
Local Open Scope nat_scope.
Local Open Scope list_scope.

Lemma axis_rel_weaken src fx kf coords bsh (Wp : weight -> Prop) cs L :
  axis_rel src fx kf coords bsh Wp cs L ->
  axis_rel src fx kf coords bsh (fun _ => True) cs L.
Proof.
  intros (raws & ? & ? & ? & _ & ?). exists raws. repeat split; auto.
  by apply Forall_forall.
Qed.

Lemma clip_good_fixer (size : Z) :
  (0 < size)%Z -> good_fixer (fun index size => Ok (i_clip index 0 (size - 1))) size.
Proof.
  intros Hs index. eexists. split; [reflexivity|]. split; [reflexivity|].
  intros p. cbn [i_clip tmap at_]. lia.
Qed.





End WholeCoordinates.

(** ** The fixers element by element *)

Lemma fix_scalar_mirror x size : size <> 1 -> fix_scalar "mirror" x size = Ok (mirror_Z x size).
Proof.
  intros Hs. unfold fix_scalar. rewrite fix_index_mirror, mirror_fixer_at by exact Hs.
  reflexivity.
Qed.

Lemma fix_scalar_reflect x size : 0 < size -> fix_scalar "reflect" x size = Ok (reflect_Z x size).
Proof.
  intros Hs. unfold fix_scalar. rewrite fix_index_reflect.
  destruct (reflect_fixer_at (scalar x) size Hs) as (r & -> & _ & Hat).
  cbn [mbind result_bind]. by rewrite Hat.
Qed.

Lemma fix_scalar_wrap x size : size <> 0 -> fix_scalar "wrap" x size = Ok (x mod size).
Proof.
  intros Hs. unfold fix_scalar. rewrite fix_index_wrap. unfold i_remainder.
  destruct (Z.eqb_spec size 0); [lia|]. reflexivity.
Qed.

Lemma fix_index_pointwise (mode : string) (index : itensor) (size : Z) (r : itensor) :
  mode ∈ AFFINE_TRANSFORM_FILL_MODES ->
  fix_index mode index size = Ok r ->
  shape r = shape index /\
  forall p, fix_scalar mode (at_ index p) size = Ok (at_ r p).
Proof.
  intros Hm E.
  destruct (fill_modes_cases _ Hm) as [-> | [-> | [-> | [-> | ->]]]].
  - rewrite fix_index_constant in E. injection E as <-. split; reflexivity.
  - rewrite fix_index_nearest in E. injection E as <-. split; reflexivity.
  - rewrite fix_index_wrap in E. unfold i_remainder in E.
    destruct (Z.eqb_spec size 0) as [|Hs]; [discriminate|]. injection E as <-.
    split; [reflexivity|]. intros p. by rewrite fix_scalar_wrap.
  - rewrite fix_index_mirror in E.
    destruct (Z.eq_dec size 1) as [->|Hs].
    + unfold _mirror_index_fixer, i_remainder in E. discriminate.
    + rewrite mirror_fixer_at in E by exact Hs. injection E as <-.
      split; [reflexivity|]. intros p. by rewrite fix_scalar_mirror.
  - rewrite fix_index_reflect in E. unfold _reflect_index_fixer in E.
    destruct (Z.eq_dec size 0) as [->|Hs].
    + unfold _mirror_index_fixer, i_remainder in E. discriminate.
    + rewrite mirror_fixer_at in E by lia. cbn [mbind result_bind] in E.
      unfold i_floor_divide in E. cbn [Z.eqb] in E. injection E as <-.
      split; [reflexivity|]. intros p.
      unfold fix_scalar. rewrite fix_index_reflect. unfold _reflect_index_fixer.
      rewrite mirror_fixer_at by lia. reflexivity.
Qed.



Lemma fix_scalar_inside (mode : string) (x size : Z) :
  mode ∈ AFFINE_TRANSFORM_FILL_MODES ->
  (mode = "mirror" -> 1 < size) ->
  0 <= x < size ->
  fix_scalar mode x size = Ok x.
Proof.
  intros Hm Hmirror Hx.
  destruct (fill_modes_cases _ Hm) as [-> | [-> | [-> | [-> | ->]]]].
  - unfold fix_scalar. rewrite fix_index_constant. cbn. f_equal. lia.
  - unfold fix_scalar. rewrite fix_index_nearest. cbn. f_equal. lia.
  - rewrite fix_scalar_wrap by lia. f_equal. apply Z.mod_small. lia.
  - specialize (Hmirror eq_refl). rewrite fix_scalar_mirror by lia. f_equal.
    by apply mirror_Z_id.
  - rewrite fix_scalar_reflect by lia. f_equal. by apply reflect_Z_id.
Qed.

(** X8. Each fixer leaves every index of the axis alone, so inside the axis
    all fill modes sample the same element. *)
Theorem index_fixers_keep_inside (mode : string) (x size : Z) :
  mode ∈ AFFINE_TRANSFORM_FILL_MODES ->
  (mode = "mirror" -> 1 < size) ->
  0 <= x < size ->
  fix_scalar mode x size = Ok x.
Proof. apply fix_scalar_inside. Qed.

Lemma index_fixers_keep_inside_witness : fix_scalar "mirror" 2 4 = Ok 2.
Proof. apply (index_fixers_keep_inside "mirror" 2 4); [vm_compute; reflexivity|lia|lia]. Defined.

(** *** The waves of [mirror] and [reflect] *)

Lemma mirror_Z_periodic x size : mirror_Z (x + 2 * (size - 1)) size = mirror_Z x size.
Proof.
  unfold mirror_Z.
  replace (x + 2 * (size - 1) + (size - 1)) with (x + (size - 1) + 1 * (2 * (size - 1))) by lia.
  by rewrite Z_mod_plus_full.
Qed.

Lemma mirror_Z_even x size : mirror_Z (- x) size = mirror_Z x size.
Proof.
  unfold mirror_Z. set (s := size - 1).
  destruct (Z.eq_dec s 0) as [->|Hs].
  - rewrite !Z.mod_0_r. lia.
  - replace (- x + s) with (- (x + s) + 1 * (2 * s)) by lia.
    rewrite Z_mod_plus_full.
    destruct (Z.eq_dec ((x + s) mod (2 * s)) 0) as [E|E].
    + rewrite Z_mod_zero_opp_full by exact E. rewrite E. lia.
    + rewrite Z_mod_nz_opp_full by exact E. lia.
Qed.

Lemma reflect_Z_periodic x size : reflect_Z (x + 2 * size) size = reflect_Z x size.
Proof.
  unfold reflect_Z.
  replace (2 * (x + 2 * size) + 1) with (2 * x + 1 + 2 * (2 * size + 1 - 1)) by lia.
  by rewrite mirror_Z_periodic.
Qed.

Lemma reflect_Z_even x size : reflect_Z (- 1 - x) size = reflect_Z x size.
Proof.
  unfold reflect_Z. replace (2 * (- 1 - x) + 1) with (- (2 * x + 1)) by lia.
  by rewrite mirror_Z_even.
Qed.





(** ** The kernels at any coordinate *)

Lemma floor_at c p :
  is_floating (dtype c) = true \/ integral (aat c p) ->
  aat (mx_floor c) p = inject_Z (Qfloor (aat c p)) /\
  at_ (astype_int32 (mx_floor c)) p = Qfloor (aat c p).
Proof.
  intros H. unfold mx_floor, astype_int32.
  destruct (is_floating (dtype c)) eqn:Ef.
  - unfold aat. cbn [data tmap at_]. by rewrite Qtrunc_inject_Z.
  - destruct H as [H|H]; [discriminate|].
    destruct (Qfloor_integral _ H) as [E1 E2]. unfold aat in *. cbn [tmap at_].
    by rewrite E1, E2.
Qed.





(** ** Validation of the arguments *)

Lemma index_fixers_missing mode :
  _INDEX_FIXERS !! mode = None <-> mode ∉ AFFINE_TRANSFORM_FILL_MODES.
Proof.
  unfold _INDEX_FIXERS, AFFINE_TRANSFORM_FILL_MODES.
  rewrite !lookup_insert_None, lookup_singleton_None.
  rewrite !not_elem_of_union, !not_elem_of_singleton. intuition congruence.
Qed.

(** X17. The fill modes that [affine_transform] accepts are exactly the
    keys of [_INDEX_FIXERS], so the lookup that follows the validation
    always finds a fixer. *)
Theorem fill_mode_tables_agree (mode : string) :
  is_Some (_INDEX_FIXERS !! mode) <-> mode ∈ AFFINE_TRANSFORM_FILL_MODES.
Proof.
  rewrite <- not_eq_None_Some, index_fixers_missing.
  split; [apply dec_stable|auto].
Qed.

Lemma interpolations_missing interpolation :
  AFFINE_TRANSFORM_INTERPOLATIONS !! interpolation = None <->
  interpolation <> "nearest" /\ interpolation <> "bilinear".
Proof.
  unfold AFFINE_TRANSFORM_INTERPOLATIONS.
  rewrite lookup_insert_None, lookup_singleton_None. intuition congruence.
Qed.

(** X13. [map_coordinates] checks its arguments in this order: a number of
    coordinate arrays other than the rank of the input and an unknown fill
    mode raise [ValueError]; with these two in order, an interpolation order
    other than 0 and 1 raises [NotImplementedError]. *)
Theorem map_coordinates_rejects input coordinates order fill_mode fill_value :
  (length coordinates <> andim input ->
   map_coordinates input coordinates order fill_mode fill_value = Raise ValueError) /\
  (fill_mode ∉ AFFINE_TRANSFORM_FILL_MODES ->
   map_coordinates input coordinates order fill_mode fill_value = Raise ValueError) /\
  (length coordinates = andim input -> fill_mode ∈ AFFINE_TRANSFORM_FILL_MODES ->
   order <> 0 -> order <> 1 ->
   map_coordinates input coordinates order fill_mode fill_value = Raise NotImplementedError).
Proof.
  unfold map_coordinates, convert_to_tensor, andim, ndim. fold (ashape input).
  split; [|split].
  - intros Hl. apply Nat.eqb_neq in Hl. by rewrite Hl.
  - intros Hm. apply index_fixers_missing in Hm. rewrite Hm.
    by destruct (negb _).
  - intros Hl Hm H0 H1. rewrite Hl, Nat.eqb_refl. cbn [negb].
    destruct (_INDEX_FIXERS !! fill_mode) as [fx|] eqn:E.
    + apply Z.eqb_neq in H0, H1. by rewrite H0, H1.
    + apply index_fixers_missing in E. contradiction.
Qed.

Lemma map_coordinates_rejects_witness :
  let input := array_of float32 [2; 2]%nat [1; 2; 3; 4]%Q in
  let c := array1 float32 [0; 1]%Q in
  map_coordinates input [c] 1 "constant" (PyNum (PyInt 0)) = Raise ValueError /\
  map_coordinates input [c; c] 1 "edge" (PyNum (PyInt 0)) = Raise ValueError /\
  map_coordinates input [c; c] 3 "constant" (PyNum (PyInt 0)) = Raise NotImplementedError.
Proof.
  cbv zeta. split; [|split].
  - apply (proj1 (map_coordinates_rejects _ _ _ _ _)). cbn. lia.
  - apply (proj1 (proj2 (map_coordinates_rejects _ _ _ _ _))). vm_compute. discriminate.
  - apply (proj2 (proj2 (map_coordinates_rejects _ _ _ _ _)));
      [reflexivity | vm_compute; reflexivity | lia | lia].
Defined.

Lemma areshape_flat a :
  exists flat, areshape a [-1] = Ok flat /\ prod (ashape flat) = prod (ashape a).
Proof.
  unfold areshape, reshape. fold (ashape a).
  assert (E : infer_shape (prod (ashape a)) [-1] = Ok [prod (ashape a)]).
  { unfold infer_shape. cbn -[Nat.div Nat.modulo].
    by rewrite Nat.mod_1_r, Nat.div_1_r. }
  rewrite E. cbn [mbind result_bind]. eexists. split; [reflexivity|].
  unfold ashape. cbn. lia.
Qed.

Lemma areshape_rows_fails a :
  (prod (ashape a) mod 8 <> 0)%nat -> areshape a [8; -1] = Raise ValueError.
Proof.
  intros H. unfold areshape, reshape. fold (ashape a).
  unfold infer_shape.
  change (count_neg [8; -1]) with 1%nat. change (known_size [8; -1]) with 8%nat.
  apply Nat.eqb_neq in H. by rewrite H.
Qed.

(** X14. [affine_transform] raises [ValueError] for an interpolation other
    than [nearest] and [bilinear], for an unknown fill mode, for an image
    whose rank is not 3 or 4, for a transform whose rank is not 1 or 2, and
    for a transform whose number of elements is not a multiple of 8. *)
Theorem affine_transform_rejects image transform interpolation fill_mode fill_value
    data_format :
  (interpolation <> "nearest" /\ interpolation <> "bilinear") \/
  fill_mode ∉ AFFINE_TRANSFORM_FILL_MODES \/
  andim image ∉ [3; 4]%nat \/
  andim transform ∉ [1; 2]%nat \/
  (prod (ashape transform) mod 8 <> 0)%nat ->
  affine_transform image transform interpolation fill_mode fill_value data_format
  = Raise ValueError.
Proof.
  intros H. unfold affine_transform, convert_to_tensor.
  destruct (AFFINE_TRANSFORM_INTERPOLATIONS !! interpolation) as [kf|] eqn:Ei; [|reflexivity].
  destruct H as [H|H].
  { apply interpolations_missing in H. congruence. }
  case_bool_decide as Hm; cbn [negb]; [|reflexivity].
  destruct H as [H|H]; [contradiction|].
  case_bool_decide as Hr; cbn [negb]; [|reflexivity].
  destruct H as [H|H]; [contradiction|].
  case_bool_decide as Ht; cbn [negb]; [|reflexivity].
  destruct H as [H|H]; [contradiction|].
  destruct (_INDEX_FIXERS !! fill_mode) as [fx|]; [|reflexivity].
  cbv zeta.
  match goal with
  | |- (_affine_transform ?src _ ?ts _ _ _ _ ≫= _) = _ =>
      assert (E : _affine_transform src transform ts kf fx fill_value
                    (bool_decide (fill_mode = "constant")) = Raise ValueError);
      [|by rewrite E]
  end.
  unfold _affine_transform.
  match goal with |- context [areshape (mx_arange ?n) [1; -1; 1]] =>
    destruct (areshape_arange 1 n ltac:(lia)) as (yt & Eyt & _) end.
  change (grid_dims 1) with [1; -1; 1] in Eyt. rewrite Eyt. cbn [mbind result_bind].
  match goal with |- context [areshape (mx_arange ?n) [1; 1; -1]] =>
    destruct (areshape_arange 2 n ltac:(lia)) as (xt & Ext & _) end.
  change (grid_dims 2) with [1; 1; -1] in Ext. rewrite Ext. cbn [mbind result_bind].
  assert (Hp : prod (ashape (aT transform)) = prod (ashape transform)).
  { unfold aT, andim, ndim, atranspose, transpose, ashape in *. cbn [data shape].
    rewrite !elem_of_cons, elem_of_nil in Ht.
    destruct (shape (data transform)) as [|a [|b [|? ?]]]; cbn in *; lia. }
  destruct (areshape_flat (aT transform)) as (flat & -> & Hflat).
  cbn [mbind result_bind]. rewrite areshape_rows_fails; [reflexivity|].
  by rewrite Hflat, Hp.
Qed.

Lemma affine_transform_rejects_witness :
  affine_transform (array_of float32 [2; 2; 1]%nat [1; 2; 3; 4]%Q)
    (array1 float32 [1; 0; 0; 0; 1; 0; 0; 0; 1]%Q) "bilinear" "constant"
    (PyNum (PyInt 0)) "channels_last"
  = Raise ValueError.
Proof.
  apply affine_transform_rejects. do 4 right. vm_compute. discriminate.
Defined.

(** X15. Without antialiasing, [resize] raises [ValueError] for an
    interpolation other than [nearest] and [bilinear] and for an image whose
    rank is not 3 or 4; with these in order, a target height or width of
    zero raises [ZeroDivisionError]. *)
Theorem resize_rejects image (size : nat * nat) interpolation data_format :
  ((interpolation <> "nearest" /\ interpolation <> "bilinear") \/
   andim image ∉ [3; 4]%nat ->
   resize image size interpolation false data_format = Raise ValueError) /\
  ((interpolation = "nearest" \/ interpolation = "bilinear") ->
   andim image ∈ [3; 4]%nat -> size.1 = 0%nat \/ size.2 = 0%nat ->
   resize image size interpolation false data_format = Raise ZeroDivisionError).
Proof.
  unfold resize, convert_to_tensor. split.
  - intros H.
    destruct (AFFINE_TRANSFORM_INTERPOLATIONS !! interpolation) as [kf|] eqn:Ei; [|reflexivity].
    destruct H as [H|H].
    + apply interpolations_missing in H. congruence.
    + by rewrite (bool_decide_eq_false_2 _ H).
  - intros Hi Hr Hs.
    destruct (AFFINE_TRANSFORM_INTERPOLATIONS !! interpolation) as [kf|] eqn:Ei.
    2:{ apply interpolations_missing in Ei. destruct Hi, Ei; contradiction. }
    rewrite (bool_decide_eq_true_2 _ Hr). cbn [negb]. cbv zeta.
    unfold py_truediv. destruct size as [s0 s1]. cbn [fst snd] in *.
    destruct s0 as [|s0]; [reflexivity|].
    destruct Hs as [Hs|Hs]; [discriminate|]. subst s1. reflexivity.
Qed.

Lemma resize_rejects_witness :
  let image := array_of float32 [2; 2; 1]%nat [1; 2; 3; 4]%Q in
  resize image (4, 4)%nat "bicubic" false "channels_last" = Raise ValueError /\
  resize (array1 float32 [1; 2]%Q) (4, 4)%nat "nearest" false "channels_last"
  = Raise ValueError /\
  resize image (4, 0)%nat "bilinear" false "channels_last" = Raise ZeroDivisionError.
Proof.
  cbv zeta. split; [|split].
  - apply (proj1 (resize_rejects _ _ _ _)). left. split; discriminate.
  - apply (proj1 (resize_rejects _ _ _ _)). right.
    rewrite !elem_of_cons, elem_of_nil. cbn. lia.
  - apply (proj2 (resize_rejects _ _ _ _));
      [right; reflexivity | rewrite !elem_of_cons; left; reflexivity | right; reflexivity].
Defined.

(** X16. Without coordinate arrays the resampler raises [ValueError]: the
    one empty combination cannot be unpacked.  So does [map_coordinates] of
    order 0 or 1 on every input of rank 0, whatever the coordinates. *)
Theorem resampler_rejects_empty_coordinates :
  (forall src kf fx fill cv sa,
     _extract_coordinates src [] kf fx fill cv sa = Raise ValueError) /\
  (forall input coordinates order fill_mode fill,
     andim input = 0%nat -> order = 0 \/ order = 1 ->
     map_coordinates input coordinates order fill_mode fill = Raise ValueError).
Proof.
  split; [reflexivity|].
  intros input coordinates order fill_mode fill Hr Ho.
  unfold map_coordinates, convert_to_tensor.
  unfold andim, ndim in Hr. fold (ashape input) in Hr. rewrite Hr.
  destruct coordinates as [|c cs]; [|reflexivity]. cbn [length Nat.eqb negb map].
  destruct (_INDEX_FIXERS !! fill_mode) as [fx|]; [|reflexivity].
  destruct Ho as [-> | ->]; reflexivity.
Qed.

Lemma resampler_rejects_empty_coordinates_witness :
  map_coordinates (array_of float32 [] [7]%Q) [] 1 "constant" (PyNum (PyInt 0))
  = Raise ValueError.
Proof.
  apply (proj2 resampler_rejects_empty_coordinates); [reflexivity | right; reflexivity].
Defined.

(** ** The two layouts *)

Section Layouts.
Local Open Scope nat_scope.
Local Open Scope list_scope.

Lemma to_channels_last_rank3 a C H W :
  ashape a = [C; H; W] ->
  dtype (to_channels_last a) = dtype a /\
  ashape (to_channels_last a) = [H; W; C] /\
  forall y x c, aat (to_channels_last a) [y; x; c] = aat a [c; y; x].
Proof.
  intros Hs. unfold to_channels_last, andim, ndim. fold (ashape a). rewrite Hs.
  cbn [length Nat.eqb]. unfold atranspose, transpose, ashape, aat, ndim in *.
  cbn [data dtype shape at_]. rewrite Hs. repeat split.
Qed.

Lemma to_channels_last_rank4 a B C H W :
  ashape a = [B; C; H; W] ->
  dtype (to_channels_last a) = dtype a /\
  ashape (to_channels_last a) = [B; H; W; C] /\
  forall b y x c, aat (to_channels_last a) [b; y; x; c] = aat a [b; c; y; x].
Proof.
  intros Hs. unfold to_channels_last, andim, ndim. fold (ashape a). rewrite Hs.
  cbn [length Nat.eqb]. unfold atranspose, transpose, ashape, aat, ndim in *.
  cbn [data dtype shape at_]. rewrite Hs. repeat split.
Qed.

Lemma to_channels_first_rank3 r H W C :
  ashape r = [H; W; C] ->
  dtype (to_channels_first 3 r) = dtype r /\
  ashape (to_channels_first 3 r) = [C; H; W] /\
  forall c y x, aat (to_channels_first 3 r) [c; y; x] = aat r [y; x; c].
Proof.
  intros Hs. unfold to_channels_first. cbn [Nat.eqb].
  unfold atranspose, transpose, ashape, aat, ndim in *.
  cbn [data dtype shape at_]. rewrite Hs. repeat split.
Qed.

Lemma to_channels_first_rank4 r B H W C :
  ashape r = [B; H; W; C] ->
  dtype (to_channels_first 4 r) = dtype r /\
  ashape (to_channels_first 4 r) = [B; C; H; W] /\
  forall b c y x, aat (to_channels_first 4 r) [b; c; y; x] = aat r [b; y; x; c].
Proof.
  intros Hs. unfold to_channels_first. cbn [Nat.eqb].
  unfold atranspose, transpose, ashape, aat, ndim in *.
  cbn [data dtype shape at_]. rewrite Hs. repeat split.
Qed.

(** X18. Changing a [channels_first] image of rank 3 or 4 to
    [channels_last] and back gives an array of the same element type and
    shape with the same elements. *)
Theorem layout_round_trip (a : array) :
  andim a = 3 \/ andim a = 4 ->
  let b := to_channels_first (andim a) (to_channels_last a) in
  dtype b = dtype a /\ ashape b = ashape a /\
  forall P, in_bounds (ashape a) P -> aat b P = aat a P.
Proof.
  intros Hr. cbv zeta.
  destruct (rank_cases a Hr) as [(C & H & W & Hs) | (B & C & H & W & Hs)].
  - assert (E : andim a = 3) by (unfold andim, ndim; fold (ashape a); by rewrite Hs).
    rewrite E.
    destruct (to_channels_last_rank3 a C H W Hs) as (Hd & Hsh & Hv).
    destruct (to_channels_first_rank3 _ H W C Hsh) as (Hd' & Hsh' & Hv').
    split; [congruence|]. split; [congruence|].
    intros P HP. rewrite Hs in HP.
    destruct P as [|c [|y [|x [|? ?]]]]; try (apply Forall2_length in HP; discriminate).
    by rewrite Hv', Hv.
  - assert (E : andim a = 4) by (unfold andim, ndim; fold (ashape a); by rewrite Hs).
    rewrite E.
    destruct (to_channels_last_rank4 a B C H W Hs) as (Hd & Hsh & Hv).
    destruct (to_channels_first_rank4 _ B H W C Hsh) as (Hd' & Hsh' & Hv').
    split; [congruence|]. split; [congruence|].
    intros P HP. rewrite Hs in HP.
    destruct P as [|b [|c [|y [|x [|? ?]]]]]; try (apply Forall2_length in HP; discriminate).
    by rewrite Hv', Hv.
Qed.

Lemma layout_round_trip_witness :
  let a := array_of float32 [2; 1; 2] [1; 2; 3; 4]%Q in
  let b := to_channels_first (andim a) (to_channels_last a) in
  dtype b = dtype a /\ ashape b = ashape a /\
  forall P, in_bounds (ashape a) P -> aat b P = aat a P.
Proof.
  intros a. apply (layout_round_trip a). left. reflexivity.
Defined.

End Layouts.

(** ** Any transform of eight numbers *)

Lemma coefficient_in_view d v a P :
  coefficient_in d v a -> length P = 3%nat -> aview a P = v.
Proof.
  intros (_ & Hs & Hv) Hl. unfold aview, view. fold (ashape a). rewrite Hs.
  destruct P as [|b [|y [|x [|? ?]]]]; try discriminate.
  rewrite !bindex_cons by reflexivity. exact Hv.
Qed.

Lemma transform_coefficients t :
  ashape t = [8]%nat ->
  exists flat rows parts a0 a1 a2 b0 b1 b2 c0 c1,
    areshape (aT t) [-1] = Ok flat /\
    areshape flat [8; -1] = Ok rows /\
    asplit rows 8 = Ok parts /\
    traverse (fun t => areshape t [-1; 1; 1]) parts = Ok [a0; a1; a2; b0; b1; b2; c0; c1] /\
    coefficient_in (dtype t) (coef t 0) a0 /\ coefficient_in (dtype t) (coef t 1) a1 /\
    coefficient_in (dtype t) (coef t 2) a2 /\ coefficient_in (dtype t) (coef t 3) b0 /\
    coefficient_in (dtype t) (coef t 4) b1 /\ coefficient_in (dtype t) (coef t 5) b2 /\
    coefficient_in (dtype t) (coef t 6) c0 /\ coefficient_in (dtype t) (coef t 7) c1.
Proof.
  intros Hs. destruct t as [d [sh f]]. unfold ashape in Hs. cbn in Hs. subst sh.
  set (t := Array d (Tensor [8]%nat f)).
  assert (Hobs :
    (flat ← areshape (aT t) [-1];
     rows ← areshape flat [8; -1];
     parts ← asplit rows 8;
     cs ← traverse (fun t => areshape t [-1; 1; 1]) parts;
     Ok (map (fun a => (dtype a, ashape a, aat a [0; 0; 0]%nat)) cs))
    = Ok (map (fun i => (d, [1; 1; 1]%nat, f [i])) (seq 0 8))).
  { vm_compute. reflexivity. }
  destruct (areshape (aT t) [-1]) as [flat|] eqn:E1; [|discriminate].
  cbn [mbind result_bind] in Hobs.
  destruct (areshape flat [8; -1]) as [rows|] eqn:E2; [|discriminate].
  cbn [mbind result_bind] in Hobs.
  destruct (asplit rows 8) as [parts|] eqn:E3; [|discriminate].
  cbn [mbind result_bind] in Hobs.
  destruct (traverse (fun t => areshape t [-1; 1; 1]) parts) as [cs|] eqn:E4; [|discriminate].
  cbn [mbind result_bind] in Hobs. injection Hobs as Hobs.
  do 8 (destruct cs as [|? cs]; [discriminate|]).
  destruct cs; [|discriminate]. cbn [map seq] in Hobs.
  exists flat, rows, parts. do 8 eexists.
  do 4 (split; [first [reflexivity|eassumption]|]).
  unfold coefficient_in, coef. cbn [dtype t aat data at_].
  repeat match goal with
         | H : _ :: _ = _ :: _ |- _ => injection H as ? H
         | H : (_, _, _) = (_, _, _) |- _ => injection H as ? ? ?
         end.
  repeat split; assumption.
Qed.

Section AnyTransform.
Local Open Scope nat_scope.
Local Open Scope list_scope.

Lemma promote_py_float_floating d : is_floating (promote_py_float d) = true.
Proof. by destruct d. Qed.

Lemma cast_one_after_products d :
  cast (scalar_dtype (PyInt 1)
          (promote_types (promote_types d int32) (promote_types d int32)))
       (py_value (PyInt 1)) = 1%Q.
Proof. by destruct d. Qed.

(** The source coordinates as arrays: [y_src] and [x_src] have shape
    [1; Ht; Wt] and hold [y_src_at] and [x_src_at]. *)
Lemma affine_coordinates src transform Ht Wt kf fx fill cv :
  ashape transform = [8] ->
  exists y_src x_src,
    _affine_transform src transform (Ht, Wt) kf fx fill cv
    = (indices ← (if andim src =? 3 then
                    y ← asqueeze0 y_src; x ← asqueeze0 x_src; Ok [y; x]
                  else
                    batch ← areshape (mx_arange (hd 0 (ashape src))) [-1; 1; 1]%Z;
                    Ok [batch; y_src; x_src]);
       _extract_coordinates src indices kf fx fill cv 0) /\
    ashape y_src = [1; Ht; Wt] /\ ashape x_src = [1; Ht; Wt] /\
    is_floating (dtype y_src) = true /\ is_floating (dtype x_src) = true /\
    forall b y x, y < Ht -> x < Wt ->
      aview y_src [b; y; x] = y_src_at transform y x /\
      aview x_src [b; y; x] = x_src_at transform y x.
Proof.
  intros Ht8. set (OS := [1; Ht; Wt]).
  unfold _affine_transform. cbn [fst snd].
  destruct (areshape_arange 1 Ht) as (yt & Eyt & Hyt); [lia|].
  destruct (areshape_arange 2 Wt) as (xt & Ext & Hxt); [lia|].
  change (grid_dims 1) with [1; -1; 1]%Z in Eyt.
  change (grid_dims 2) with [1; 1; -1]%Z in Ext.
  rewrite Eyt. cbn [mbind result_bind]. rewrite Ext. cbn [mbind result_bind].
  destruct (transform_coefficients transform Ht8)
    as (flat & rows & parts & a0 & a1 & a2 & b0 & b1 & b2 & c0 & c1
        & E1 & E2 & E3 & E4 & Ha0 & Ha1 & Ha2 & Hb0 & Hb1 & Hb2 & Hc0 & Hc1).
  rewrite E1. cbn [mbind result_bind]. rewrite E2. cbn [mbind result_bind].
  rewrite E3. cbn [mbind result_bind]. rewrite E4. cbn [mbind result_bind].
  clear E1 E2 E3 E4 Eyt Ext.
  assert (Syt : ashape yt = [1; Ht; 1]) by apply Hyt.
  assert (Sxt : ashape xt = [1; 1; Wt]) by apply Hxt.
  assert (Dyt : dtype yt = int32) by apply Hyt.
  assert (Dxt : dtype xt = int32) by apply Hxt.
  pose proof (proj1 (proj2 Ha0)) as Sa0. pose proof (proj1 (proj2 Ha1)) as Sa1.
  pose proof (proj1 (proj2 Ha2)) as Sa2. pose proof (proj1 (proj2 Hb0)) as Sb0.
  pose proof (proj1 (proj2 Hb1)) as Sb1. pose proof (proj1 (proj2 Hb2)) as Sb2.
  pose proof (proj1 (proj2 Hc0)) as Sc0. pose proof (proj1 (proj2 Hc1)) as Sc1.
  unfold mx_multiply, mx_add.
  binary_step Qmult c0 xt [1; 1; Wt] OS c0x E Dc0x Sc0x Vc0x.
  binary_step Qmult c1 yt [1; Ht; 1] OS c1y E Dc1y Sc1y Vc1y.
  binary_step Qplus c0x c1y [1; Ht; Wt] OS k0 E Dk0 Sk0 Vk0.
  set (k := mx_add_py k0 (PyInt 1)).
  assert (Sk : ashape k = [1; Ht; Wt]) by exact Sk0.
  binary_step Qmult a0 xt [1; 1; Wt] OS a0x E Da0x Sa0x Va0x.
  binary_step Qmult a1 yt [1; Ht; 1] OS a1y E Da1y Sa1y Va1y.
  binary_step Qplus a0x a1y [1; Ht; Wt] OS xn0 E Dxn0 Sxn0 Vxn0.
  binary_step Qplus xn0 a2 [1; Ht; Wt] OS xn E Dxn Sxn Vxn.
  destruct (mx_divide_spec xn k [1; Ht; Wt] OS) as (x_src & E & Dx & Sx & Vx);
    [solve_fits | solve_fits | solve_bdims |].
  rewrite E. cbn [mbind result_bind]. clear E.
  binary_step Qmult b0 xt [1; 1; Wt] OS b0x E Db0x Sb0x Vb0x.
  binary_step Qmult b1 yt [1; Ht; 1] OS b1y E Db1y Sb1y Vb1y.
  binary_step Qplus b0x b1y [1; Ht; Wt] OS yn0 E Dyn0 Syn0 Vyn0.
  binary_step Qplus yn0 b2 [1; Ht; Wt] OS yn E Dyn Syn Vyn.
  destruct (mx_divide_spec yn k [1; Ht; Wt] OS) as (y_src & E & Dy & Sy & Vy);
    [solve_fits | solve_fits | solve_bdims |].
  rewrite E. cbn [mbind result_bind]. clear E.
  exists y_src, x_src. split; [reflexivity|]. split; [exact Sy|]. split; [exact Sx|].
  split; [rewrite Dy; apply promote_py_float_floating|].
  split; [rewrite Dx; apply promote_py_float_floating|].
  intros b y x Hy Hx.
  assert (Hl : length [b; y; x] = length OS) by reflexivity.
  assert (Vk : aview k [b; y; x] = (aview k0 [b; y; x] + 1)%Q).
  { unfold k, mx_add_py, aview, view. cbn [data tmap shape at_]. f_equal.
    rewrite Dk0, Dc0x, Dc1y, (proj1 Hc0), (proj1 Hc1), Dxt, Dyt.
    apply cast_one_after_products. }
  rewrite (Vy _ Hl), (Vx _ Hl), Vk, (Vyn _ Hl), (Vyn0 _ Hl), (Vb0x _ Hl), (Vb1y _ Hl),
    (Vxn _ Hl), (Vxn0 _ Hl), (Va0x _ Hl), (Va1y _ Hl), (Vk0 _ Hl), (Vc0x _ Hl), (Vc1y _ Hl).
  rewrite (coefficient_in_view _ _ _ _ Ha0), (coefficient_in_view _ _ _ _ Ha1),
    (coefficient_in_view _ _ _ _ Ha2), (coefficient_in_view _ _ _ _ Hb0),
    (coefficient_in_view _ _ _ _ Hb1), (coefficient_in_view _ _ _ _ Hb2),
    (coefficient_in_view _ _ _ _ Hc0), (coefficient_in_view _ _ _ _ Hc1) by reflexivity.
  rewrite (grid_view 1 Ht yt [b; y; x] y Hyt), (grid_view 2 Wt xt [b; y; x] x Hxt)
    by (reflexivity || lia).
  split; reflexivity.
Qed.

End AnyTransform.

Section Sampling.
Local Open Scope nat_scope.
Local Open Scope list_scope.

Variable fx : index_fixer.
Variable kf : kernel.
Variable n : pynum.
Variable cv : bool.
Variable mode : string.
Hypothesis Hfx : forall d, axis_ok mode d -> good_fixer fx (Z.of_nat d).
Hypothesis Hkf : is_kernel kf.

Lemma affine_exact_rank3 src transform Ht Wt H W C :
  ashape src = [H; W; C] -> ashape transform = [8] ->
  axis_ok mode H -> axis_ok mode W -> well_typed src ->
  exists out,
    _affine_transform src transform (Ht, Wt) kf fx (PyNum n) cv = Ok out /\
    dtype out = dtype src /\ ashape out = [Ht; Wt; C] /\
    forall y x c zy zx, y < Ht -> x < Wt -> c < C ->
      (y_src_at transform y x == inject_Z zy)%Q ->
      (x_src_at transform y x == inject_Z zx)%Q ->
      (0 <= zy < Z.of_nat H)%Z -> (0 <= zx < Z.of_nat W)%Z ->
      (aat out [y; x; c] == aat src [Z.to_nat zy; Z.to_nat zx; c])%Q.
Proof.
  intros Hs Ht8 HH HW Hwt.
  destruct (affine_coordinates src transform Ht Wt kf fx (PyNum n) cv Ht8)
    as (y_src & x_src & -> & Sy & Sx & _ & _ & Hv).
  assert (Hrank : andim src = 3) by (unfold andim, ndim; fold (ashape src); by rewrite Hs).
  rewrite Hrank. cbn [Nat.eqb].
  destruct (asqueeze0_spec y_src [Ht; Wt] Sy) as (y & -> & _ & Sy' & Vy).
  destruct (asqueeze0_spec x_src [Ht; Wt] Sx) as (x & -> & _ & Sx' & Vx).
  cbn [mbind result_bind].
  pose proof (extract_coordinates_exact src fx kf n cv [y; x] [Ht; Wt]) as Hx.
  cbv zeta in Hx. cbn [length] in Hx. rewrite Hs in Hx. cbn [drop take] in Hx.
  destruct Hx as (out & -> & So & Do & Vo).
  - discriminate.
  - rewrite Hrank. lia.
  - repeat (apply Forall_cons; split); try apply Forall_nil; cbv beta; solve_fits.
  - cbn [map broadcast_shapes_list]. rewrite Sy', Sx'. cbn [mbind result_bind].
    rewrite broadcast_shapes_nil. cbn [mbind result_bind].
    rewrite !broadcast_shapes_same. reflexivity.
  - reflexivity.
  - repeat constructor; auto.
  - exact Hkf.
  - exists out. split; [reflexivity|]. split; [exact Do|]. split; [exact So|].
    intros y0 x0 c zy zx Hy0 Hx0 Hc0 Ey Ex Hzy Hzx.
    destruct (Hv 0 y0 x0 Hy0 Hx0) as [Ey' Ex'].
    pose proof (Vo [y0; x0; c] [zy; zx]) as Hz.
    cbn [map app drop zip zip_with take] in Hz. apply Hz.
    + repeat constructor; assumption.
    + constructor; [|constructor; [|constructor]].
      * split; [exact Hzy|]. cbn [fst]. rewrite Vy by reflexivity. by rewrite Ey'.
      * split; [exact Hzx|]. cbn [fst]. rewrite Vx by reflexivity. by rewrite Ex'.
    + apply Hwt. rewrite Hs. repeat constructor; [lia|lia|assumption].
Qed.

Lemma affine_exact_rank4 src transform Ht Wt B H W C :
  ashape src = [B; H; W; C] -> ashape transform = [8] ->
  axis_ok mode B -> axis_ok mode H -> axis_ok mode W -> well_typed src ->
  exists out,
    _affine_transform src transform (Ht, Wt) kf fx (PyNum n) cv = Ok out /\
    dtype out = dtype src /\ ashape out = [B; Ht; Wt; C] /\
    forall b y x c zy zx, b < B -> y < Ht -> x < Wt -> c < C ->
      (y_src_at transform y x == inject_Z zy)%Q ->
      (x_src_at transform y x == inject_Z zx)%Q ->
      (0 <= zy < Z.of_nat H)%Z -> (0 <= zx < Z.of_nat W)%Z ->
      (aat out [b; y; x; c] == aat src [b; Z.to_nat zy; Z.to_nat zx; c])%Q.
Proof.
  intros Hs Ht8 HB HH HW Hwt.
  destruct (affine_coordinates src transform Ht Wt kf fx (PyNum n) cv Ht8)
    as (y_src & x_src & -> & Sy & Sx & _ & _ & Hv).
  assert (Hrank : andim src = 4) by (unfold andim, ndim; fold (ashape src); by rewrite Hs).
  rewrite Hrank, Hs. cbn [Nat.eqb hd].
  destruct (areshape_arange 0 B) as (batch & Eb & Hb); [lia|].
  change (grid_dims 0) with [-1; 1; 1]%Z in Eb. rewrite Eb. cbn [mbind result_bind].
  assert (Sb : ashape batch = [B; 1; 1]) by apply Hb.
  pose proof (extract_coordinates_exact src fx kf n cv [batch; y_src; x_src] [B; Ht; Wt]) as Hx.
  cbv zeta in Hx. cbn [length] in Hx. rewrite Hs in Hx. cbn [drop take] in Hx.
  destruct Hx as (out & -> & So & Do & Vo).
  - discriminate.
  - rewrite Hrank. lia.
  - repeat (apply Forall_cons; split); try apply Forall_nil; cbv beta; solve_fits.
  - cbn [map broadcast_shapes_list]. rewrite Sb, Sy, Sx. cbn [mbind result_bind].
    rewrite broadcast_shapes_nil. cbn [mbind result_bind].
    rewrite broadcast_shapes_same. cbn [mbind result_bind].
    rewrite broadcast_shapes_eq_length by reflexivity. cbn [bdims].
    rewrite !bdim_1_l, !bdim_1_r. reflexivity.
  - reflexivity.
  - repeat constructor; auto.
  - exact Hkf.
  - exists out. split; [reflexivity|]. split; [exact Do|]. split; [exact So|].
    intros b0 y0 x0 c zy zx Hb0 Hy0 Hx0 Hc0 Ey Ex Hzy Hzx.
    destruct (Hv b0 y0 x0 Hy0 Hx0) as [Ey' Ex'].
    pose proof (Vo [b0; y0; x0; c] [Z.of_nat b0; zy; zx]) as Hz.
    cbn [map app drop zip zip_with take] in Hz. rewrite !Nat2Z.id in Hz. apply Hz.
    + repeat constructor; assumption.
    + constructor; [|constructor; [|constructor; [|constructor]]].
      * split; [cbn [snd]; lia|]. cbn [fst].
        rewrite (grid_view 0 B batch [b0; y0; x0] b0 Hb) by (reflexivity || lia).
        reflexivity.
      * split; [exact Hzy|]. cbn [fst]. by rewrite Ey'.
      * split; [exact Hzx|]. cbn [fst]. by rewrite Ex'.
    + apply Hwt. rewrite Hs. repeat constructor; [assumption|lia|lia|assumption].
Qed.

End Sampling.

Section PublicSampling.
Local Open Scope nat_scope.
Local Open Scope list_scope.

Lemma rank_of_shape (a : array) sh : ashape a = sh -> andim a = length sh.
Proof. intros <-. reflexivity. Qed.

(** The common part of the two theorems on [affine_transform]. *)
Lemma affine_sampling image transform interpolation fill_mode n data_format :
  interpolation = "nearest" \/ interpolation = "bilinear" ->
  fill_mode ∈ AFFINE_TRANSFORM_FILL_MODES ->
  data_format <> "channels_first" ->
  andim image = 3 \/ andim image = 4 ->
  ashape transform = [8] ->
  Forall (axis_ok fill_mode) (take (andim image - 1) (ashape image)) ->
  well_typed image ->
  exists out,
    affine_transform image transform interpolation fill_mode (PyNum n) data_format = Ok out /\
    dtype out = dtype image /\ ashape out = ashape image /\
    forall P zy zx, in_bounds (ashape image) P ->
      (y_src_at transform (pixel_row P) (pixel_col P) == inject_Z zy)%Q ->
      (x_src_at transform (pixel_row P) (pixel_col P) == inject_Z zx)%Q ->
      (0 <= zy < Z.of_nat (pixel_row (ashape image)))%Z ->
      (0 <= zx < Z.of_nat (pixel_col (ashape image)))%Z ->
      (aat out P == aat image (move_pixel P (Z.to_nat zy) (Z.to_nat zx)))%Q.
Proof.
  intros Hi Hm Hdf Hrank Ht8 Hax Hwt.
  destruct (kernel_lookup interpolation Hi) as (kf & Ekf & Hkf).
  destruct (index_fixer_lookup fill_mode Hm) as (fx & Efx & Hfx).
  unfold affine_transform, convert_to_tensor.
  match goal with
  | |- context [match ?o with Some _ => _ | None => Raise ValueError end] =>
      replace o with (Some kf) by (symmetry; exact Ekf)
  end.
  rewrite (bool_decide_eq_true_2 _ Hm). cbn [negb].
  assert (Hr : bool_decide (andim image ∈ [3; 4]) = true).
  { destruct Hrank as [E | E]; rewrite E; reflexivity. }
  rewrite Hr. cbn [negb].
  assert (Hr' : bool_decide (andim transform ∈ [1; 2]) = true).
  { by rewrite (rank_of_shape _ _ Ht8). }
  rewrite Hr'. cbn [negb].
  rewrite (bool_decide_eq_false_2 _ Hdf).
  match goal with
  | |- context [match ?o with Some _ => _ | None => Raise ValueError end] =>
      replace o with (Some fx) by (symmetry; exact Efx)
  end.
  destruct (rank_cases image Hrank) as [(H & W & C & Hs) | (B & H & W & C & Hs)].
  - pose proof (rank_of_shape _ _ Hs) as E. cbn [length] in E.
    rewrite E, Hs in Hax. cbn [Nat.sub take] in Hax.
    apply Forall_cons in Hax as [HH Hax]. apply Forall_cons in Hax as [HW _].
    rewrite E. cbn [Nat.eqb]. cbv zeta.
    replace (nth 0 (ashape image) 0) with H by (by rewrite Hs).
    replace (nth 1 (ashape image) 0) with W by (by rewrite Hs).
    destruct (affine_exact_rank3 fx kf n (bool_decide (fill_mode = "constant"))
                fill_mode Hfx Hkf image transform H W H W C Hs Ht8 HH HW Hwt)
      as (out & -> & Do & So & Vo).
    cbn [mbind result_bind]. exists out. split; [reflexivity|]. split; [exact Do|].
    split; [by rewrite Hs|]. rewrite Hs. intros P zy zx HP.
    destruct P as [|y [|x [|c [|? ?]]]]; try (apply Forall2_length in HP; discriminate).
    apply Forall2_cons in HP as [Hy HP]. apply Forall2_cons in HP as [Hx HP].
    apply Forall2_cons in HP as [Hc _].
    unfold pixel_row, pixel_col, move_pixel. cbn [length Nat.sub nth insert list_insert].
    intros. by apply Vo.
  - pose proof (rank_of_shape _ _ Hs) as E. cbn [length] in E.
    rewrite E, Hs in Hax. cbn [Nat.sub take] in Hax.
    apply Forall_cons in Hax as [HB Hax]. apply Forall_cons in Hax as [HH Hax].
    apply Forall_cons in Hax as [HW _].
    rewrite E. cbn [Nat.eqb]. cbv zeta.
    replace (nth 1 (ashape image) 0) with H by (by rewrite Hs).
    replace (nth 2 (ashape image) 0) with W by (by rewrite Hs).
    destruct (affine_exact_rank4 fx kf n (bool_decide (fill_mode = "constant"))
                fill_mode Hfx Hkf image transform H W B H W C Hs Ht8 HB HH HW Hwt)
      as (out & -> & Do & So & Vo).
    cbn [mbind result_bind]. exists out. split; [reflexivity|]. split; [exact Do|].
    split; [by rewrite Hs|]. rewrite Hs. intros P zy zx HP.
    destruct P as [|b [|y [|x [|c [|? ?]]]]];
      try (apply Forall2_length in HP; discriminate).
    apply Forall2_cons in HP as [Hb HP]. apply Forall2_cons in HP as [Hy HP].
    apply Forall2_cons in HP as [Hx HP]. apply Forall2_cons in HP as [Hc _].
    unfold pixel_row, pixel_col, move_pixel. cbn [length Nat.sub nth insert list_insert].
    intros. by apply Vo.
Qed.

End PublicSampling.

Section Resize.
Local Open Scope nat_scope.
Local Open Scope list_scope.

Lemma resize_transform_sources (sy sx : Q) y x :
  let t := mx_array [sy; 0; 0; 0; sx; 0; 0; 0]%Q in
  ashape t = [8] /\
  (y_src_at t y x == sx * inject_Z (Z.of_nat y))%Q /\
  (x_src_at t y x == sy * inject_Z (Z.of_nat x))%Q.
Proof.
  cbv zeta. split; [reflexivity|].
  unfold y_src_at, x_src_at, k_at, coef, aat, mx_array. cbn [data at_ nth].
  split; field.
Qed.

(** The common part of the two theorems on [resize]: [x_src] is the column
    times [H / size[0]] and [y_src] the row times [W / size[1]]. *)
Lemma resize_sampling image (s0 s1 : nat) interpolation data_format :
  interpolation = "nearest" \/ interpolation = "bilinear" ->
  data_format <> "channels_first" ->
  andim image = 3 \/ andim image = 4 ->
  0 < s0 -> 0 < s1 ->
  Forall (fun d => 0 < d) (take (andim image - 1) (ashape image)) ->
  well_typed image ->
  exists out,
    resize image (s0, s1) interpolation false data_format = Ok out /\
    dtype out = dtype image /\ ashape out = move_pixel (ashape image) s0 s1 /\
    forall P zy zx, in_bounds (move_pixel (ashape image) s0 s1) P ->
      let H := pixel_row (ashape image) in
      let W := pixel_col (ashape image) in
      ((Z.of_nat W # Pos.of_nat s1) * inject_Z (Z.of_nat (pixel_row P)) == inject_Z zy)%Q ->
      ((Z.of_nat H # Pos.of_nat s0) * inject_Z (Z.of_nat (pixel_col P)) == inject_Z zx)%Q ->
      (0 <= zy < Z.of_nat H)%Z -> (0 <= zx < Z.of_nat W)%Z ->
      (aat out P == aat image (move_pixel P (Z.to_nat zy) (Z.to_nat zx)))%Q.
Proof.
  intros Hi Hdf Hrank Hs0 Hs1 Hax Hwt.
  destruct (kernel_lookup interpolation Hi) as (kf & Ekf & Hkf).
  assert (Hm : "constant" ∈ AFFINE_TRANSFORM_FILL_MODES) by (vm_compute; reflexivity).
  destruct (index_fixer_lookup "constant" Hm) as (fx & Efx & Hfx).
  assert (Hok : forall d, 0 < d -> axis_ok "constant" d) by (intros d Hd; split; [exact Hd|discriminate]).
  unfold resize, convert_to_tensor.
  match goal with
  | |- context [match ?o with Some _ => _ | None => Raise ValueError end] =>
      replace o with (Some kf) by (symmetry; exact Ekf)
  end.
  assert (Hr : bool_decide (andim image ∈ [3; 4]) = true).
  { destruct Hrank as [E | E]; rewrite E; reflexivity. }
  rewrite Hr. cbn [negb].
  rewrite (bool_decide_eq_false_2 _ Hdf). cbv zeta. cbn [fst snd].
  unfold py_truediv.
  destruct (Nat.eqb_spec s0 0) as [|_]; [lia|]. destruct (Nat.eqb_spec s1 0) as [|_]; [lia|].
  cbn [mbind result_bind].
  match goal with
  | |- context [match ?o with Some _ => _ | None => Raise ValueError end] =>
      replace o with (Some fx) by (symmetry; exact Efx)
  end.
  destruct (rank_cases image Hrank) as [(H & W & C & Hs) | (B & H & W & C & Hs)].
  - pose proof (rank_of_shape _ _ Hs) as E. cbn [length] in E.
    rewrite E, Hs in Hax. cbn [Nat.sub take] in Hax.
    apply Forall_cons in Hax as [HH Hax]. apply Forall_cons in Hax as [HW _].
    rewrite Hs. cbn [length Nat.sub nth].
    set (sy := (Z.of_nat H # Pos.of_nat s0)%Q). set (sx := (Z.of_nat W # Pos.of_nat s1)%Q).
    destruct (affine_exact_rank3 fx kf (PyInt 0) false "constant" Hfx Hkf image
                (mx_array [sy; 0; 0; 0; sx; 0; 0; 0]%Q) s0 s1 H W C Hs eq_refl
                (Hok _ HH) (Hok _ HW) Hwt)
      as (out & -> & Do & So & Vo).
    cbn [mbind result_bind]. exists out. split; [reflexivity|]. split; [exact Do|].
    unfold move_pixel at 1 2. cbn [length Nat.sub insert list_insert].
    split; [exact So|]. intros P zy zx HP.
    destruct P as [|y [|x [|c [|? ?]]]]; try (apply Forall2_length in HP; discriminate).
    apply Forall2_cons in HP as [Hy HP]. apply Forall2_cons in HP as [Hx HP].
    apply Forall2_cons in HP as [Hc _].
    unfold pixel_row, pixel_col, move_pixel. cbn [length Nat.sub nth insert list_insert].
    intros Ey Ex Hzy Hzx.
    destruct (resize_transform_sources sy sx y x) as (_ & Ey' & Ex').
    apply Vo; auto; [by rewrite Ey'|by rewrite Ex'].
  - pose proof (rank_of_shape _ _ Hs) as E. cbn [length] in E.
    rewrite E, Hs in Hax. cbn [Nat.sub take] in Hax.
    apply Forall_cons in Hax as [HB Hax]. apply Forall_cons in Hax as [HH Hax].
    apply Forall_cons in Hax as [HW _].
    rewrite Hs. cbn [length Nat.sub nth].
    set (sy := (Z.of_nat H # Pos.of_nat s0)%Q). set (sx := (Z.of_nat W # Pos.of_nat s1)%Q).
    destruct (affine_exact_rank4 fx kf (PyInt 0) false "constant" Hfx Hkf image
                (mx_array [sy; 0; 0; 0; sx; 0; 0; 0]%Q) s0 s1 B H W C Hs eq_refl
                (Hok _ HB) (Hok _ HH) (Hok _ HW) Hwt)
      as (out & -> & Do & So & Vo).
    cbn [mbind result_bind]. exists out. split; [reflexivity|]. split; [exact Do|].
    unfold move_pixel at 1 2. cbn [length Nat.sub insert list_insert].
    split; [exact So|]. intros P zy zx HP.
    destruct P as [|b [|y [|x [|c [|? ?]]]]];
      try (apply Forall2_length in HP; discriminate).
    apply Forall2_cons in HP as [Hb HP]. apply Forall2_cons in HP as [Hy HP].
    apply Forall2_cons in HP as [Hx HP]. apply Forall2_cons in HP as [Hc _].
    unfold pixel_row, pixel_col, move_pixel. cbn [length Nat.sub nth insert list_insert].
    intros Ey Ex Hzy Hzx.
    destruct (resize_transform_sources sy sx y x) as (_ & Ey' & Ex').
    apply Vo; auto; [by rewrite Ey'|by rewrite Ex'].
Qed.

End Resize.

Section SamplingTheorems.
Local Open Scope nat_scope.
Local Open Scope list_scope.







Lemma ratio_one n : 0 < n -> (Z.of_nat n # Pos.of_nat n == 1)%Q.
Proof.
  intros Hn. unfold Qeq. cbn [Qnum Qden].
  rewrite <- (Nat2Pos.id n) at 1 by lia. rewrite positive_nat_Z. lia.
Qed.



End SamplingTheorems.

(** ** Nearest-neighbour sampling *)

Section NearestLists.
Local Open Scope nat_scope.
Local Open Scope list_scope.

Lemma product_singletons {A} (Ls : list (list A)) (heads : list A) :
  Forall2 (fun L c => L = [c]) Ls heads -> product Ls = [heads].
Proof.
  induction 1 as [|L c Ls heads -> _ IH]; [reflexivity|].
  cbn [product]. rewrite IH. reflexivity.
Qed.

Lemma heads_inside mode bsh P css (heads : list candidate) :
  Forall2 (head_of mode bsh P) css heads ->
  forallb (fun c : candidate => view c.1.2 P) heads = all_inside css (take (length bsh) P).
Proof.
  induction 1 as [|cs c css heads (Hm & _) _ IH]; [reflexivity|].
  unfold all_inside in *. cbn [forallb]. by rewrite Hm, IH.
Qed.

Lemma heads_sampled mode bsh P css (heads : list candidate) :
  Forall2 (head_of mode bsh P) css heads ->
  sampled mode css (take (length bsh) P)
  = Ok (map (fun c : candidate => view c.1.1 (take (length bsh) P)) heads).
Proof.
  induction 1 as [|cs c css heads (_ & Hf & _) _ IH]; [reflexivity|].
  unfold sampled in *. cbn [traverse map]. rewrite Hf. cbn [mbind result_bind].
  rewrite IH. reflexivity.
Qed.

Lemma heads_gathered mode bsh P css (heads : list candidate) (sizes : list nat) :
  Forall2 (head_of mode bsh P) css heads ->
  length heads <= length sizes ->
  zip_with (fun (it : itensor) size => norm_index size (view it (take (length bsh) P)))
           (map (fun c : candidate => c.1.1) heads) sizes
  = map Z.to_nat (map (fun c : candidate => view c.1.1 (take (length bsh) P)) heads).
Proof.
  intros H. revert sizes. induction H as [|cs c css heads (_ & _ & Hr) _ IH]; intros sizes Hl.
  - reflexivity.
  - destruct sizes as [|size sizes]; [simpl in Hl; lia|].
    cbn [map zip_with]. rewrite IH by (simpl in Hl; lia). f_equal.
    unfold norm_index. destruct (Z.ltb_spec (view c.1.1 (take (length bsh) P)) 0); [lia|].
    reflexivity.
Qed.

Lemma heads_in_range mode bsh P css (heads : list candidate) :
  Forall2 (head_of mode bsh P) css heads ->
  Forall2 (fun z (cs : array * nat) => (0 <= z < Z.of_nat cs.2)%Z)
          (map (fun c : candidate => view c.1.1 (take (length bsh) P)) heads) css.
Proof.
  induction 1 as [|cs c css heads (_ & _ & Hr) _ IH]; constructor; auto.
Qed.

End NearestLists.

Section NearestSampling.
Local Open Scope nat_scope.
Local Open Scope list_scope.

Variable src : array.
Variable mode : string.
Variable fx : index_fixer.
Variable n : pynum.
Variable cv : bool.
Variable coords : list array.
Variable bsh : list nat.

Let k := length coords.
Let T := drop k (ashape src).
Let OS := bsh ++ T.
Let css := zip coords (ashape src).

Hypothesis Hm : mode ∈ AFFINE_TRANSFORM_FILL_MODES.
Hypothesis Efx : _INDEX_FIXERS !! mode = Some fx.
Hypothesis Hne : coords <> [].
Hypothesis Hk : k <= andim src.
Hypothesis Hfit : Forall (fun c => fits (ashape c) bsh) coords.
Hypothesis Hb : broadcast_shapes_list (map ashape coords) = Ok bsh.
Hypothesis Hr : length bsh = k.
Hypothesis Hax : Forall (axis_ok mode) (take k (ashape src)).

Lemma fixer_of_mode index size : fix_index mode index size = fx index size.
Proof.
  unfold fix_index.
  match goal with
  | |- context [match ?o with _ => _ end] => replace o with (Some fx) by (symmetry; exact Efx)
  end.
  reflexivity.
Qed.

Lemma fixer_good d : axis_ok mode d -> good_fixer fx (Z.of_nat d).
Proof.
  intros [Hd Hmirror] index.
  assert (Hg : good_fixer (fix_index mode) (Z.of_nat d)).
  { apply fix_index_good; [exact Hm|lia|]. intros Em. specialize (Hmirror Em). lia. }
  specialize (Hg index). by rewrite fixer_of_mode in Hg.
Qed.

Lemma fixers_good :
  Forall (fun size => good_fixer fx (Z.of_nat size)) (take k (ashape src)).
Proof. eapply Forall_impl; [exact Hax|]. apply fixer_good. Qed.

Lemma head_of_axis (Wp : weight -> Prop) cs L :
  axis_rel src fx _nearest_indices_and_weights coords bsh Wp cs L ->
  good_fixer fx (Z.of_nat cs.2) ->
  exists c, L = [c] /\ c.2 = WPy (PyInt 1) /\
            forall P, in_bounds OS P -> head_of mode bsh P cs c.
Proof.
  intros (raws & Ek & _ & _ & _ & Hc) Hgood.
  unfold _nearest_indices_and_weights in Ek. injection Ek as <-.
  apply Forall2_cons_inv_l in Hc. destruct Hc as (c & L' & Hc & HL' & ->).
  apply Forall2_nil_inv_l in HL'. subst L'.
  destruct Hc as (Hfx & Hsh & _ & Hmask & Hw). cbn [fst snd] in *.
  exists c. split; [reflexivity|]. split; [exact Hw|].
  intros P HP. unfold head_of. cbv zeta. set (bp := take (length bsh) P).
  split; [|split].
  - rewrite (Hmask P HP). reflexivity.
  - rewrite <- fixer_of_mode in Hfx.
    destruct (fix_index_pointwise mode _ _ _ Hm Hfx) as [_ Hp].
    unfold view. rewrite Hsh. rewrite <- Hp. reflexivity.
  - destruct (Hgood (astype_int32 (if _is_integer cs.1 then cs.1 else mx_round cs.1)))
      as (r & Er & _ & Hrange).
    rewrite Hfx in Er. injection Er as <-. apply Hrange.
Qed.

Lemma heads_of_axes (Wp : weight -> Prop) (xs : list (array * nat)) Ls :
  Forall2 (axis_rel src fx _nearest_indices_and_weights coords bsh Wp) xs Ls ->
  Forall (fun cs : array * nat => good_fixer fx (Z.of_nat cs.2)) xs ->
  exists heads,
    Forall2 (fun L c => L = [c]) Ls heads /\
    Forall (fun c : candidate => c.2 = WPy (PyInt 1)) heads /\
    forall P, in_bounds OS P -> Forall2 (head_of mode bsh P) xs heads.
Proof.
  induction 1 as [|cs L xs Ls Hax1 _ IH]; intros Hg.
  - exists []. repeat split; constructor.
  - apply Forall_cons in Hg as [Hg1 Hg].
    destruct (head_of_axis Wp cs L Hax1 Hg1) as (c & -> & Hw & Hh).
    destruct (IH Hg) as (heads & H1 & H2 & H3).
    exists (c :: heads). split; [by constructor|]. split; [by constructor|].
    intros P HP. constructor; auto.
Qed.

(** The resampler with the nearest kernel: the element at the fixed
    rounded coordinates, or the fill element where [check_validity] is set
    and a rounded coordinate lies outside its axis. *)
Lemma extract_nearest :
  exists out,
    _extract_coordinates src coords _nearest_indices_and_weights fx (PyNum n) cv 0 = Ok out /\
    ashape out = OS /\ dtype out = dtype src /\
    forall P, in_bounds OS P ->
      exists idx,
        sampled mode css (take k P) = Ok idx /\
        Forall2 (fun z (cs : array * nat) => (0 <= z < Z.of_nat cs.2)%Z) idx css /\
        let v := if cv && negb (all_inside css (take k P))
                 then fill_element n (dtype src)
                 else aat src (map Z.to_nat idx ++ drop k P) in
        (representable (dtype src) v -> aat out P == v)%Q.
Proof.
  destruct (accumulate_spec src fx _nearest_indices_and_weights n cv coords bsh
              (fun w => w = WPy (PyInt 1)) Hne Hk Hfit Hb Hr fixers_good)
    as (Ls & acc & HLs & Eacc & Hs & Hv).
  { intros ci. apply nearest_uniform. }
  { left. auto. }
  assert (Hg : Forall (fun cs : array * nat => good_fixer fx (Z.of_nat cs.2)) css).
  { eapply Forall_impl;
      [apply (Forall_zip (fun _ : array => True)
                (fun size => good_fixer fx (Z.of_nat size)) coords (ashape src))|].
    - apply Forall_forall. auto.
    - exact fixers_good.
    - intros cs [_ H]. exact H. }
  destruct (heads_of_axes _ css Ls HLs Hg) as (heads & Hsing & Hones & Hheads).
  unfold _extract_coordinates. rewrite Eacc. cbn [mbind result_bind].
  eexists. split; [reflexivity|]. split; [by rewrite finalize_shape|].
  split; [apply astype_dtype|].
  intros P HP. specialize (Hheads P HP). rewrite <- Hr.
  exists (map (fun c : candidate => view c.1.1 (take (length bsh) P)) heads).
  split; [by apply heads_sampled|]. split; [by apply (heads_in_range mode)|].
  cbv zeta. intros Hrep. apply finalize_value; [exact Hrep|].
  rewrite (Hv P HP), (product_singletons _ _ Hsing). cbn [map sum_list fold_right].
  rewrite (weight_product_ones heads P Hones).
  unfold masked, gathered.
  rewrite (heads_inside mode bsh P css heads Hheads).
  rewrite (heads_gathered mode bsh P css heads (ashape src) Hheads).
  2:{ rewrite <- (Forall2_length _ _ _ Hheads). unfold css. rewrite length_zip_with.
      unfold andim, ndim, ashape in *. lia. }
  unfold fill_element. destruct cv, (all_inside css (take (length bsh) P)); cbn [andb negb]; ring.
Qed.

End NearestSampling.

Section NearestNeighbour.
Local Open Scope nat_scope.
Local Open Scope list_scope.

Lemma wrap_int_idem d z : wrap_int d (wrap_int d z) = wrap_int d z.
Proof.
  unfold wrap_int. set (m := (2 ^ Z.of_nat (bits d))%Z).
  assert (Hm : (0 < m)%Z) by (apply Z.pow_pos_nonneg; lia).
  destruct (is_signed d).
  - replace ((z + m / 2) mod m - m / 2 + m / 2)%Z with ((z + m / 2) mod m)%Z by lia.
    by rewrite Z.mod_mod by lia.
  - by rewrite Z.mod_mod by lia.
Qed.

Lemma representable_cast d q : representable d (cast d q).
Proof.
  unfold representable, cast. destruct (is_floating d); [reflexivity|].
  case_bool_decide.
  - destruct (Qeq_bool q 0); reflexivity.
  - by rewrite Qtrunc_inject_Z, wrap_int_idem.
Qed.

Lemma passed_fill_representable input n :
  dtype input <> bool_ ->
  representable (dtype input) (fill_element (passed_fill input n) (dtype input)).
Proof.
  intros Hb. unfold fill_element, passed_fill.
  assert (E : scalar_dtype (if _is_integer input then py_int n else n) (dtype input)
              = dtype input).
  { unfold _is_integer, to_mlx_dtype. destruct (dtype input), n; try reflexivity; done. }
  rewrite E. apply representable_cast.
Qed.

Lemma in_bounds_sampled (idx : list Z) (coords : list array) (sizes : list nat) :
  length coords = length sizes ->
  Forall2 (fun z (cs : array * nat) => (0 <= z < Z.of_nat cs.2)%Z) idx (zip coords sizes) ->
  in_bounds sizes (map Z.to_nat idx).
Proof.
  revert coords idx. induction sizes as [|s sizes IH]; intros [|c coords] idx Hl H;
    try discriminate; cbn [zip zip_with] in H.
  - apply Forall2_nil_inv_r in H. subst. constructor.
  - apply Forall2_cons_inv_r in H. destruct H as (z & idx' & Hz & H & ->).
    cbn [map]. constructor; [cbn [snd] in Hz; lia|].
    apply (IH coords); [simpl in Hl; lia|exact H].
Qed.



End NearestNeighbour.

Section NearestPixels.
Local Open Scope nat_scope.
Local Open Scope list_scope.

Lemma nearest_index_floating c bp :
  is_floating (dtype c) = true -> nearest_index c bp = Qround_even (aview c bp).
Proof.
  intros Hf. unfold nearest_index. rewrite (floating_not_integer c Hf).
  unfold mx_round. rewrite Hf. unfold aview, view. cbn [data tmap shape at_].
  apply Qtrunc_inject_Z.
Qed.

Lemma nearest_index_grid axis m a P i :
  grid axis m a -> axis < 3 -> length P = 3 -> P !! axis = Some i -> i < m ->
  nearest_index a P = Z.of_nat i.
Proof.
  intros Hg Ha Hl Hi Hm.
  assert (Hint : _is_integer a = true).
  { unfold _is_integer, to_mlx_dtype. by rewrite (proj1 Hg). }
  unfold nearest_index. rewrite Hint, (grid_view axis m a P i Hg Ha Hl Hi Hm).
  apply Qtrunc_inject_Z.
Qed.

Variable mode : string.
Variable fx : index_fixer.
Variable n : pynum.
Variable cv : bool.
Hypothesis Hm : mode ∈ AFFINE_TRANSFORM_FILL_MODES.
Hypothesis Efx : _INDEX_FIXERS !! mode = Some fx.

Lemma affine_nearest_rank3 src transform Ht Wt H W C :
  ashape src = [H; W; C] -> ashape transform = [8] ->
  axis_ok mode H -> axis_ok mode W -> well_typed src ->
  (cv = true -> representable (dtype src) (fill_element n (dtype src))) ->
  exists out,
    _affine_transform src transform (Ht, Wt) _nearest_indices_and_weights fx (PyNum n) cv
    = Ok out /\
    dtype out = dtype src /\ ashape out = [Ht; Wt; C] /\
    forall y x c zy zx, y < Ht -> x < Wt -> c < C ->
      let ry := Qround_even (y_src_at transform y x) in
      let rx := Qround_even (x_src_at transform y x) in
      fix_scalar mode ry (Z.of_nat H) = Ok zy ->
      fix_scalar mode rx (Z.of_nat W) = Ok zx ->
      (aat out [y; x; c] ==
       if cv && negb (in_range H ry && in_range W rx)
       then fill_element n (dtype src)
       else aat src [Z.to_nat zy; Z.to_nat zx; c])%Q.
Proof.
  intros Hs Ht8 HH HW Hwt Hfill.
  destruct (affine_coordinates src transform Ht Wt _nearest_indices_and_weights fx
              (PyNum n) cv Ht8) as (y_src & x_src & -> & Sy & Sx & Fy & Fx & Hv).
  assert (Hrank : andim src = 3) by (unfold andim, ndim; fold (ashape src); by rewrite Hs).
  rewrite Hrank. cbn [Nat.eqb].
  destruct (asqueeze0_spec y_src [Ht; Wt] Sy) as (y & -> & Dy' & Sy' & Vy).
  destruct (asqueeze0_spec x_src [Ht; Wt] Sx) as (x & -> & Dx' & Sx' & Vx).
  cbn [mbind result_bind].
  pose proof (extract_nearest src mode fx n cv [y; x] [Ht; Wt] Hm Efx) as Hx.
  cbn [length] in Hx. rewrite Hs in Hx. cbn [drop take zip zip_with] in Hx.
  destruct Hx as (out & -> & So & Do & Vo).
  - discriminate.
  - rewrite Hrank. lia.
  - repeat (apply Forall_cons; split); try apply Forall_nil; cbv beta; solve_fits.
  - cbn [map broadcast_shapes_list]. rewrite Sy', Sx'. cbn [mbind result_bind].
    rewrite broadcast_shapes_nil. cbn [mbind result_bind].
    rewrite !broadcast_shapes_same. reflexivity.
  - reflexivity.
  - constructor; [assumption|constructor; [assumption|constructor]].
  - exists out. split; [reflexivity|]. split; [exact Do|]. split; [exact So|].
    cbv zeta. intros y0 x0 c zy zx Hy0 Hx0 Hc0.
    set (ry := Qround_even (y_src_at transform y0 x0)).
    set (rx := Qround_even (x_src_at transform y0 x0)).
    intros Ezy Ezx.
    destruct (Hv 0 y0 x0 Hy0 Hx0) as [Ey' Ex'].
    destruct (Vo [y0; x0; c]) as (idx & Es & Hrange & Hval).
    { repeat constructor; assumption. }
    cbn [take drop] in Es, Hval.
    assert (Ny : nearest_index y [y0; x0] = ry).
    { rewrite nearest_index_floating by (by rewrite Dy'). rewrite Vy by reflexivity.
      by rewrite Ey'. }
    assert (Nx : nearest_index x [y0; x0] = rx).
    { rewrite nearest_index_floating by (by rewrite Dx'). rewrite Vx by reflexivity.
      by rewrite Ex'. }
    unfold sampled in Es. cbn [traverse fst snd] in Es. rewrite Ny, Nx, Ezy, Ezx in Es.
    cbn [mbind result_bind] in Es. injection Es as <-.
    unfold all_inside in Hval. cbn [forallb fst snd] in Hval. rewrite Ny, Nx in Hval.
    rewrite andb_true_r in Hval. cbn [map app] in Hval. cbv zeta in Hval. apply Hval.
    destruct cv; cbn [andb]; [destruct (negb _); [by apply Hfill|]|].
    all: apply Hwt; rewrite Hs;
      apply Forall2_cons_inv_l in Hrange; destruct Hrange as (? & ? & Hzy & Hrange & E);
      apply Forall2_cons_inv_l in Hrange; destruct Hrange as (? & ? & Hzx & _ & E');
      subst; injection E as <- <-; cbn [snd] in *;
      repeat constructor; [lia|lia|assumption].
Qed.

Lemma in_range_inside size (i : nat) : i < size -> in_range size (Z.of_nat i) = true.
Proof.
  intros H. unfold in_range. apply andb_true_intro. split.
  - apply Z.leb_le. lia.
  - apply Z.ltb_lt. lia.
Qed.

Lemma affine_nearest_rank4 src transform Ht Wt B H W C :
  ashape src = [B; H; W; C] -> ashape transform = [8] ->
  axis_ok mode B -> axis_ok mode H -> axis_ok mode W -> well_typed src ->
  (cv = true -> representable (dtype src) (fill_element n (dtype src))) ->
  exists out,
    _affine_transform src transform (Ht, Wt) _nearest_indices_and_weights fx (PyNum n) cv
    = Ok out /\
    dtype out = dtype src /\ ashape out = [B; Ht; Wt; C] /\
    forall b y x c zy zx, b < B -> y < Ht -> x < Wt -> c < C ->
      let ry := Qround_even (y_src_at transform y x) in
      let rx := Qround_even (x_src_at transform y x) in
      fix_scalar mode ry (Z.of_nat H) = Ok zy ->
      fix_scalar mode rx (Z.of_nat W) = Ok zx ->
      (aat out [b; y; x; c] ==
       if cv && negb (in_range H ry && in_range W rx)
       then fill_element n (dtype src)
       else aat src [b; Z.to_nat zy; Z.to_nat zx; c])%Q.
Proof.
  intros Hs Ht8 HB HH HW Hwt Hfill.
  destruct (affine_coordinates src transform Ht Wt _nearest_indices_and_weights fx
              (PyNum n) cv Ht8) as (y_src & x_src & -> & Sy & Sx & Fy & Fx & Hv).
  assert (Hrank : andim src = 4) by (unfold andim, ndim; fold (ashape src); by rewrite Hs).
  rewrite Hrank, Hs. cbn [Nat.eqb hd].
  destruct (areshape_arange 0 B) as (batch & Eb & Hb); [lia|].
  change (grid_dims 0) with [-1; 1; 1]%Z in Eb. rewrite Eb. cbn [mbind result_bind].
  assert (Sb : ashape batch = [B; 1; 1]) by apply Hb.
  pose proof (extract_nearest src mode fx n cv [batch; y_src; x_src] [B; Ht; Wt] Hm Efx) as Hx.
  cbn [length] in Hx. rewrite Hs in Hx. cbn [drop take zip zip_with] in Hx.
  destruct Hx as (out & -> & So & Do & Vo).
  - discriminate.
  - rewrite Hrank. lia.
  - repeat (apply Forall_cons; split); try apply Forall_nil; cbv beta; solve_fits.
  - cbn [map broadcast_shapes_list]. rewrite Sb, Sy, Sx. cbn [mbind result_bind].
    rewrite broadcast_shapes_nil. cbn [mbind result_bind].
    rewrite broadcast_shapes_same. cbn [mbind result_bind].
    rewrite broadcast_shapes_eq_length by reflexivity. cbn [bdims].
    rewrite !bdim_1_l, !bdim_1_r. reflexivity.
  - reflexivity.
  - constructor; [assumption|constructor; [assumption|constructor; [assumption|constructor]]].
  - exists out. split; [reflexivity|]. split; [exact Do|]. split; [exact So|].
    cbv zeta. intros b0 y0 x0 c zy zx Hb0 Hy0 Hx0 Hc0.
    set (ry := Qround_even (y_src_at transform y0 x0)).
    set (rx := Qround_even (x_src_at transform y0 x0)).
    intros Ezy Ezx.
    destruct (Hv b0 y0 x0 Hy0 Hx0) as [Ey' Ex'].
    destruct (Vo [b0; y0; x0; c]) as (idx & Es & Hrange & Hval).
    { repeat constructor; assumption. }
    cbn [take drop] in Es, Hval.
    assert (Nb : nearest_index batch [b0; y0; x0] = Z.of_nat b0).
    { apply (nearest_index_grid 0 B); auto. }
    assert (Ny : nearest_index y_src [b0; y0; x0] = ry).
    { rewrite nearest_index_floating by exact Fy. by rewrite Ey'. }
    assert (Nx : nearest_index x_src [b0; y0; x0] = rx).
    { rewrite nearest_index_floating by exact Fx. by rewrite Ex'. }
    assert (Eb0 : fix_scalar mode (Z.of_nat b0) (Z.of_nat B) = Ok (Z.of_nat b0)).
    { apply fix_scalar_inside; [exact Hm| |lia]. intros Em. destruct HB as [_ HB].
      specialize (HB Em). lia. }
    unfold sampled in Es. cbn [traverse fst snd] in Es.
    rewrite Nb, Ny, Nx, Eb0, Ezy, Ezx in Es.
    cbn [mbind result_bind] in Es. injection Es as <-.
    unfold all_inside in Hval. cbn [forallb fst snd] in Hval. rewrite Nb, Ny, Nx in Hval.
    rewrite (in_range_inside B b0 Hb0), andb_true_r in Hval.
    cbn [map app andb] in Hval. rewrite Nat2Z.id in Hval. cbv zeta in Hval. apply Hval.
    destruct cv; cbn [andb]; [destruct (negb _); [by apply Hfill|]|].
    all: apply Hwt; rewrite Hs;
      apply Forall2_cons_inv_l in Hrange; destruct Hrange as (? & ? & _ & Hrange & E);
      apply Forall2_cons_inv_l in Hrange; destruct Hrange as (? & ? & Hzy & Hrange & E');
      apply Forall2_cons_inv_l in Hrange; destruct Hrange as (? & ? & Hzx & _ & E'');
      subst; injection E as <- <- <-; cbn [snd] in *;
      repeat constructor; [assumption|lia|lia|assumption].
Qed.

End NearestPixels.

Section NearestTheorems.
Local Open Scope nat_scope.
Local Open Scope list_scope.





End NearestTheorems.

(** ** Linear blending *)

Section LinearTypes.
Local Open Scope nat_scope.
Local Open Scope list_scope.

Lemma reduce_from_some_float acc l r :
  reduce_from weight_mul acc l = Ok r ->
  (exists a, acc = WArr a) ->
  Forall (fun w => exists a, w = WArr a) l ->
  float_weight acc \/ Exists float_weight l ->
  float_weight r.
Proof.
  revert acc. induction l as [|x l IH]; intros acc H Ha Hl Hf; simpl in H.
  - injection H as <-. destruct Hf as [Hf|Hf]; [exact Hf|inversion Hf].
  - inv_bind H. apply Forall_cons in Hl as [[b ->] Hl]. destruct Ha as [a' ->].
    simpl in Ha0. inv_bind Ha0. injection Ha0 as <-.
    apply mx_binary_dtype in Ha1.
    refine (IH _ H _ Hl _); [eauto|].
    destruct Hf as [(a2 & E & Hf)|Hf].
    + injection E as <-. left. eexists. split; [reflexivity|].
      rewrite Ha1. by apply promote_floating_l.
    + apply Exists_cons in Hf as [(a2 & E & Hf)|Hf]; [|by right].
      injection E as <-. left. eexists. split; [reflexivity|].
      rewrite Ha1. by apply promote_floating_r.
Qed.

Lemma contribution_of_some_float src fill cv sa items c :
  Forall (fun c : candidate => exists a, c.2 = WArr a) items ->
  Exists (fun c : candidate => float_weight c.2) items ->
  contribution_of src fill cv sa items = Ok c ->
  is_floating (dtype c) = true.
Proof.
  intros Hw Hf H. unfold contribution_of in H.
  destruct items as [|it items]; [discriminate|].
  inv_bind H. inv_bind H. inv_bind H.
  assert (Hfw : float_weight a1).
  { cbn [map reduce] in Ha1. apply Forall_cons in Hw as [Hit Hw].
    eapply reduce_from_some_float; [exact Ha1|exact Hit| |].
    - apply Forall_fmap. exact Hw.
    - apply Exists_cons in Hf as [Hf|Hf]; [by left|right].
      apply Exists_fmap. exact Hf. }
  destruct Hfw as (w & -> & Hfl). simpl in H.
  apply mx_binary_dtype in H. rewrite H. by apply promote_floating_r.
Qed.

Lemma candidate_step_array src fx size i a c :
  candidate_step src fx size (i, WArr a) = Ok c ->
  exists a', c.2 = WArr a' /\ dtype a' = dtype a.
Proof.
  intros H. unfold candidate_step in H.
  inv_bind H. inv_bind H. inv_bind H. inv_bind H. injection H as <-.
  simpl in Ha3. inv_bind Ha3. injection Ha3 as <-. eexists. split; reflexivity.
Qed.

Lemma axis_candidates_linear_weights src fx ci size cands :
  axis_candidates src _linear_indices_and_weights fx ci size = Ok cands ->
  Forall (fun c : candidate =>
            exists a, c.2 = WArr a /\
                      (is_floating (dtype ci) = true -> is_floating (dtype a) = true)) cands.
Proof.
  intros H. unfold axis_candidates in H. rewrite linear_raws in H.
  cbn [mbind result_bind traverse] in H.
  inv_bind H. inv_bind H. injection H as <-. inv_bind Ha0. injection Ha0 as <-.
  assert (Hd : dtype (mx_floor ci) = dtype ci).
  { unfold mx_floor. by destruct (is_floating (dtype ci)). }
  apply candidate_step_array in Ha as (a' & E' & D').
  apply candidate_step_array in Ha1 as (a'' & E'' & D'').
  constructor; [|constructor; [|constructor]].
  - exists a'. split; [exact E'|]. intros Hf. rewrite D'.
    unfold mx_rsub_py. cbn [dtype scalar_dtype]. rewrite Hd, promote_types_diag.
    by rewrite promote_py_int_floating.
  - exists a''. split; [exact E''|]. intros Hf. rewrite D''.
    cbn [dtype]. by rewrite Hd, promote_types_diag.
Qed.

Lemma accumulate_some_float src coords fx fill cv acc :
  Exists (fun c => is_floating (dtype c) = true) coords ->
  length coords <= andim src ->
  accumulate src coords _linear_indices_and_weights fx fill cv 0 = Ok acc ->
  is_floating (dtype acc) = true.
Proof.
  intros Hc Hk H. unfold accumulate in H. rewrite drop_0 in H. inv_bind H. inv_bind H.
  apply traverse_Forall2 in Ha.
  assert (Hi : Forall (fun items : list candidate =>
                         Forall (fun c : candidate => exists a, c.2 = WArr a) items /\
                         Exists (fun c : candidate => float_weight c.2) items) (product a)).
  { apply Forall_forall. intros items Hin. apply product_elem in Hin.
    unfold andim, ndim in Hk. fold (ashape src) in Hk.
    revert Hc Hk items Hin Ha. generalize (ashape src). clear.
    revert a. induction coords as [|ci coords IH]; intros Ls sizes Hc Hk items Hin Ha.
    - inversion Hc.
    - destruct sizes as [|size sizes]; [simpl in Hk; lia|].
      cbn [zip zip_with] in Ha.
      apply Forall2_cons_inv_l in Ha. destruct Ha as (L & Ls' & HL & Ha & ->).
      apply Forall2_cons_inv_r in Hin. destruct Hin as (c & items' & Hc0 & Hin & ->).
      apply axis_candidates_linear_weights in HL.
      rewrite Forall_forall in HL. destruct (HL c Hc0) as (w & Ew & Hw).
      assert (Harr : Forall (fun c : candidate => exists a, c.2 = WArr a) items').
      { clear -Hin Ha. revert items' Hin.
        induction Ha as [|[cj sj] Lj css Ls'' Hj _ IHa]; intros items' Hin.
        - inversion Hin. constructor.
        - apply Forall2_cons_inv_r in Hin. destruct Hin as (d & it & Hd & Hin & ->).
          apply axis_candidates_linear_weights in Hj. rewrite Forall_forall in Hj.
          destruct (Hj d Hd) as (w & Ew & _). constructor; eauto. }
      split; [constructor; eauto|].
      apply Exists_cons in Hc as [Hc|Hc].
      + apply Exists_cons_hd. exists w. split; [exact Ew|auto].
      + apply Exists_cons_tl.
        apply (IH Ls' sizes Hc); [simpl in Hk; lia|exact Hin|exact Ha]. }
  assert (Ho : Forall (fun c => is_floating (dtype c) = true) a0).
  { revert Ha0. apply traverse_Forall with (P := fun items : list candidate =>
                         Forall (fun c : candidate => exists a, c.2 = WArr a) items /\
                         Exists (fun c : candidate => float_weight c.2) items); [|exact Hi].
    intros items c [H1 H2] Hcontrib. eapply contribution_of_some_float; eauto. }
  revert H. apply (reduce_invariant (fun c => is_floating (dtype c) = true)); [|exact Ho].
  intros x y z Hz Hx _. apply mx_binary_dtype in Hz. rewrite Hz. by apply promote_floating_l.
Qed.

End LinearTypes.

Section LinearLists.
Local Open Scope nat_scope.
Local Open Scope list_scope.

Lemma product_related {A B} (R : A -> B -> Prop) (Ts : list (list A)) (Ls : list (list B)) :
  Forall2 (Forall2 R) Ts Ls -> Forall2 (Forall2 R) (product Ts) (product Ls).
Proof.
  induction 1 as [|T L Ts Ls HTL _ IH]; cbn [product].
  - repeat constructor.
  - apply Forall2_bind. eapply Forall2_impl; [exact HTL|]. intros a b Hab.
    apply Forall2_bind. eapply Forall2_impl; [exact IH|]. intros r r' Hr.
    repeat constructor; auto.
Qed.

Lemma taps_inside mode bsh P corner (items : list candidate) :
  Forall2 (tap_of mode bsh P) corner items ->
  forallb (fun c : candidate => view c.1.2 P) items = corner_inside corner.
Proof.
  induction 1 as [|t c corner items (Hm & _) _ IH]; [reflexivity|].
  unfold corner_inside in *. cbn [forallb]. by rewrite Hm, IH.
Qed.

Lemma taps_index mode bsh P corner (items : list candidate) :
  Forall2 (tap_of mode bsh P) corner items ->
  corner_index mode corner
  = Ok (map (fun c : candidate => view c.1.1 (take (length bsh) P)) items).
Proof.
  induction 1 as [|t c corner items (_ & Hf & _) _ IH]; [reflexivity|].
  unfold corner_index in *. cbn [traverse map]. rewrite Hf. cbn [mbind result_bind].
  rewrite IH. reflexivity.
Qed.

Lemma taps_gathered mode bsh P corner (items : list candidate) (sizes : list nat) :
  Forall2 (tap_of mode bsh P) corner items ->
  length items <= length sizes ->
  zip_with (fun (it : itensor) size => norm_index size (view it (take (length bsh) P)))
           (map (fun c : candidate => c.1.1) items) sizes
  = map Z.to_nat (map (fun c : candidate => view c.1.1 (take (length bsh) P)) items).
Proof.
  intros H. revert sizes.
  induction H as [|t c corner items (_ & _ & Hr & _) _ IH]; intros sizes Hl.
  - reflexivity.
  - destruct sizes as [|size sizes]; [simpl in Hl; lia|].
    cbn [map zip_with]. rewrite IH by (simpl in Hl; lia). f_equal.
    unfold norm_index. destruct (Z.ltb_spec (view c.1.1 (take (length bsh) P)) 0); [lia|].
    reflexivity.
Qed.

Lemma taps_weight mode bsh P corner (items : list candidate) :
  Forall2 (tap_of mode bsh P) corner items ->
  (wprod P items == corner_weight corner)%Q.
Proof.
  induction 1 as [|t c corner items (_ & _ & _ & Hw) _ IH]; [reflexivity|].
  unfold wprod, corner_weight in *. cbn [fold_right]. by rewrite Hw, IH.
Qed.

Lemma blend_term_items mode src bsh n cv P corner (items : list candidate) :
  Forall2 (tap_of mode bsh P) corner items ->
  length items <= andim src ->
  exists t,
    blend_term mode src n cv (drop (length bsh) P) corner = Ok t /\
    (t == masked src bsh n cv items P * weight_product items P)%Q.
Proof.
  intros H Hl. unfold blend_term. rewrite (taps_index _ _ _ _ _ H).
  cbn [mbind result_bind]. eexists. split; [reflexivity|].
  rewrite weight_product_wprod, (taps_weight _ _ _ _ _ H).
  unfold masked, gathered.
  rewrite (taps_inside _ _ _ _ _ H), (taps_gathered _ _ _ _ _ (ashape src) H Hl).
  unfold fill_element. destruct cv, (corner_inside corner); cbn [andb negb]; ring.
Qed.

Lemma blend_terms mode src bsh n cv P (corners : list (list (Z * Q * nat)))
    (itemss : list (list candidate)) :
  Forall2 (Forall2 (tap_of mode bsh P)) corners itemss ->
  Forall (fun items : list candidate => length items <= andim src) itemss ->
  exists terms,
    traverse (blend_term mode src n cv (drop (length bsh) P)) corners = Ok terms /\
    (sum_list terms
     == sum_list (map (fun items => masked src bsh n cv items P * weight_product items P)
                      itemss))%Q.
Proof.
  induction 1 as [|corner items corners itemss H _ IH]; intros Hl.
  - exists []. split; reflexivity.
  - apply Forall_cons in Hl as [Hl1 Hl].
    destruct (blend_term_items mode src bsh n cv P corner items H Hl1) as (t & Et & Ht).
    destruct (IH Hl) as (terms & Ets & Hts).
    exists (t :: terms). cbn [traverse]. rewrite Et, Ets. cbn [mbind result_bind].
    split; [reflexivity|]. cbn [map sum_list fold_right]. fold (sum_list terms).
    by rewrite Ht, Hts.
Qed.

End LinearLists.

Section LinearSampling.
Local Open Scope nat_scope.
Local Open Scope list_scope.

Variable src : array.
Variable mode : string.
Variable fx : index_fixer.
Variable n : pynum.
Variable cv : bool.
Variable coords : list array.
Variable bsh : list nat.

Let k := length coords.
Let T := drop k (ashape src).
Let OS := bsh ++ T.
Let css := zip coords (ashape src).

Hypothesis Hm : mode ∈ AFFINE_TRANSFORM_FILL_MODES.
Hypothesis Efx : _INDEX_FIXERS !! mode = Some fx.
Hypothesis Hne : coords <> [].
Hypothesis Hk : k <= andim src.
Hypothesis Hfit : Forall (fun c => fits (ashape c) bsh) coords.
Hypothesis Hb : broadcast_shapes_list (map ashape coords) = Ok bsh.
Hypothesis Hr : length bsh = k.
Hypothesis Hax : Forall (axis_ok mode) (take k (ashape src)).
Hypothesis Hc : Forall (fun c => is_floating (dtype c) = true \/
                                 forall p, in_bounds (ashape c) p -> integral (aat c p))
                       coords.
Hypothesis Hfl : Exists (fun c => is_floating (dtype c) = true) coords.

Lemma taps_of_axis (Wp : weight -> Prop) cs L :
  axis_rel src fx _linear_indices_and_weights coords bsh Wp cs L ->
  good_fixer fx (Z.of_nat cs.2) ->
  fits (ashape cs.1) bsh ->
  (is_floating (dtype cs.1) = true \/
   forall p, in_bounds (ashape cs.1) p -> integral (aat cs.1 p)) ->
  forall P, in_bounds OS P ->
    Forall2 (tap_of mode bsh P) (linear_taps (aview cs.1 (take (length bsh) P), cs.2)) L.
Proof.
  intros (raws & Ek & _ & _ & _ & Hcs) Hgood Hf Hci P HP.
  rewrite linear_raws in Ek. injection Ek as <-.
  apply Forall2_cons_inv_l in Hcs. destruct Hcs as (c0 & L' & Hc0 & Hcs & ->).
  apply Forall2_cons_inv_l in Hcs. destruct Hcs as (c1 & L'' & Hc1 & Hcs & ->).
  apply Forall2_nil_inv_l in Hcs. subst L''.
  set (bp := take (length bsh) P).
  set (p := bindex (ashape cs.1) bp).
  assert (Hlen : length bp = length (ashape cs.1)).
  { unfold bp. rewrite length_take. apply in_bounds_length in HP.
    unfold OS in HP. rewrite length_app in HP. rewrite (fits_length _ _ Hf). lia. }
  assert (Hpp : bindex (ashape cs.1) p = p).
  { unfold p. apply bindex_fits; [apply fits_refl|exact Hlen]. }
  assert (Hq : aview cs.1 bp = aat cs.1 p) by reflexivity.
  assert (Hci' : is_floating (dtype cs.1) = true \/ integral (aat cs.1 p)).
  { destruct Hci as [H|H]; [by left|right; apply H].
    unfold p. apply (bindex_in_bounds_fits _ bsh); [exact Hf|].
    unfold bp. apply (in_bounds_app_inv bsh T P HP). }
  destruct (floor_at cs.1 p Hci') as [Ef Ei].
  assert (Hi0 : view (astype_int32 (mx_floor cs.1)) bp = Qfloor (aat cs.1 p)).
  { unfold view. cbn [astype_int32 tmap shape]. fold (ashape (mx_floor cs.1)).
    rewrite mx_floor_shape. exact Ei. }
  assert (Hw1 : aview (Array (promote_types (dtype cs.1) (dtype (mx_floor cs.1)))
                         (Tensor (ashape cs.1)
                            (fun p => aat cs.1 (bindex (ashape cs.1) p)
                                      - aat (mx_floor cs.1)
                                          (bindex (ashape (mx_floor cs.1)) p))%Q)) bp
                = (aat cs.1 p - inject_Z (Qfloor (aat cs.1 p)))%Q).
  { unfold aview, view. cbn [data shape at_]. fold p.
    by rewrite mx_floor_shape, Hpp, Ef. }
  unfold linear_taps. cbn [fst snd]. rewrite Hq.
  constructor; [|constructor; [|constructor]].
  - destruct Hc0 as (Hfx0 & Hsh & _ & Hmask & (a' & Ew & _ & Hw)). cbn [fst snd] in *.
    unfold tap_of. cbv zeta. cbn [fst snd]. fold bp.
    split; [|split; [|split]].
    + rewrite (Hmask P HP). fold bp. by rewrite Hi0.
    + rewrite <- (fixer_of_mode mode fx Efx) in Hfx0.
      destruct (fix_index_pointwise mode _ _ _ Hm Hfx0) as [_ Hp].
      unfold view. rewrite Hsh. rewrite <- Hp. fold (view (astype_int32 (mx_floor cs.1)) bp).
      by rewrite Hi0.
    + destruct (Hgood (astype_int32 (mx_floor cs.1))) as (r & Er & _ & Hrange).
      rewrite Hfx0 in Er. injection Er as <-. apply Hrange.
    + unfold wview. rewrite Ew, (Hw P HP). fold bp.
      unfold mx_rsub_py. unfold aview, view. cbn [data tmap shape at_].
      fold p. rewrite mx_floor_shape, Hpp, Ef. cbn [dtype scalar_dtype].
      change (py_value (PyInt 1)) with (inject_Z 1).
      rewrite cast_py_one. reflexivity.
  - destruct Hc1 as (Hfx1 & Hsh & _ & Hmask & (a' & Ew & _ & Hw)). cbn [fst snd] in *.
    unfold tap_of. cbv zeta. cbn [fst snd]. fold bp.
    assert (Hi1 : view (i_add (astype_int32 (mx_floor cs.1)) 1) bp
                  = (Qfloor (aat cs.1 p) + 1)%Z).
    { unfold view. cbn [i_add tmap shape at_].
      fold (view (astype_int32 (mx_floor cs.1)) bp). by rewrite Hi0. }
    split; [|split; [|split]].
    + rewrite (Hmask P HP). fold bp. by rewrite Hi1.
    + rewrite <- (fixer_of_mode mode fx Efx) in Hfx1.
      destruct (fix_index_pointwise mode _ _ _ Hm Hfx1) as [_ Hp].
      unfold view. rewrite Hsh. rewrite <- Hp.
      fold (view (i_add (astype_int32 (mx_floor cs.1)) 1) bp).
      by rewrite Hi1.
    + destruct (Hgood (i_add (astype_int32 (mx_floor cs.1)) 1)) as (r & Er & _ & Hrange).
      rewrite Hfx1 in Er. injection Er as <-. apply Hrange.
    + unfold wview. rewrite Ew, (Hw P HP). fold bp. rewrite Hw1. reflexivity.
Qed.

Lemma taps_of_axes (Wp : weight -> Prop) (xs : list (array * nat)) Ls :
  Forall2 (axis_rel src fx _linear_indices_and_weights coords bsh Wp) xs Ls ->
  Forall (fun cs : array * nat =>
            good_fixer fx (Z.of_nat cs.2) /\ fits (ashape cs.1) bsh /\
            (is_floating (dtype cs.1) = true \/
             forall p, in_bounds (ashape cs.1) p -> integral (aat cs.1 p))) xs ->
  forall P, in_bounds OS P ->
    Forall2 (Forall2 (tap_of mode bsh P))
            (map (fun cs : array * nat =>
                    linear_taps (aview cs.1 (take (length bsh) P), cs.2)) xs) Ls.
Proof.
  induction 1 as [|cs L xs Ls Hax1 _ IH]; intros Hg P HP; cbn [map].
  - constructor.
  - apply Forall_cons in Hg as [(Hg1 & Hf1 & Hc1) Hg].
    constructor; [by apply (taps_of_axis Wp)|by apply IH].
Qed.

Lemma zip_views (f : array -> Q) (l : list array) (sizes : list nat) :
  zip (map f l) sizes = map (fun cs : array * nat => (f cs.1, cs.2)) (zip l sizes).
Proof.
  revert sizes. induction l as [|c l IH]; intros [|d sizes]; cbn [map zip zip_with];
    try reflexivity.
  f_equal. apply IH.
Qed.

Lemma finalize_floating acc s P :
  is_floating (dtype acc) = true -> (aat acc P == s)%Q ->
  (aat (astype (dtype src)
          (if _is_integer src && negb (_is_integer acc) then mx_round acc else acc)) P
   == finalized src s)%Q.
Proof.
  intros Hf Hs. rewrite (floating_not_integer acc Hf). cbn [negb]. rewrite andb_true_r.
  unfold finalized. destruct (_is_integer src) eqn:Ei.
  - unfold mx_round. rewrite Hf. unfold astype. cbn [dtype].
    case_bool_decide as E.
    + exfalso. rewrite E in Hf. unfold _is_integer, to_mlx_dtype in Ei.
      by destruct (dtype src).
    + unfold aat. cbn [data tmap at_]. fold (aat acc P).
      by rewrite (Qround_even_comp _ _ Hs).
  - unfold astype. case_bool_decide as E.
    + rewrite <- E. unfold cast. by rewrite Hf.
    + unfold aat. cbn [data tmap at_]. fold (aat acc P). by apply cast_comp.
Qed.

(** The resampler with the linear kernel: the weighted sum over the corners
    of the cell around the sample point, rounded for an integer source and
    converted to its element type. *)
Lemma extract_linear :
  exists out,
    _extract_coordinates src coords _linear_indices_and_weights fx (PyNum n) cv 0 = Ok out /\
    ashape out = OS /\ dtype out = dtype src /\
    forall P, in_bounds OS P ->
      exists s,
        blend mode src n cv
              (zip (map (fun c => aview c (take k P)) coords) (ashape src)) (drop k P)
        = Ok s /\
        (aat out P == finalized src s)%Q.
Proof.
  pose proof (fixers_good src mode fx coords bsh Hm Efx Hk Hr Hax) as Hgood.
  destruct (accumulate_spec src fx _linear_indices_and_weights n cv coords bsh
              (fun w => exists a, w = WArr a) Hne Hk Hfit Hb Hr Hgood)
    as (Ls & acc & HLs & Eacc & Hs & Hv).
  { intros ci. apply linear_uniform. }
  { right. auto. }
  pose proof (accumulate_some_float src coords fx (PyNum n) cv acc Hfl Hk Eacc) as Hacc.
  assert (Hg : Forall (fun cs : array * nat =>
            good_fixer fx (Z.of_nat cs.2) /\ fits (ashape cs.1) bsh /\
            (is_floating (dtype cs.1) = true \/
             forall p, in_bounds (ashape cs.1) p -> integral (aat cs.1 p))) css).
  { eapply Forall_impl;
      [apply (Forall_zip (fun c : array => fits (ashape c) bsh /\
                            (is_floating (dtype c) = true \/
                             forall p, in_bounds (ashape c) p -> integral (aat c p)))
                (fun size => good_fixer fx (Z.of_nat size)) coords (ashape src))|].
    - apply Forall_and. split; [exact Hfit|exact Hc].
    - exact Hgood.
    - intros cs [[H1 H2] H3]. auto. }
  pose proof (taps_of_axes _ css Ls HLs Hg) as Htaps.
  unfold _extract_coordinates. rewrite Eacc. cbn [mbind result_bind].
  eexists. split; [reflexivity|]. split; [by rewrite finalize_shape|].
  split; [apply astype_dtype|].
  intros P HP. specialize (Htaps P HP). apply product_related in Htaps.
  rewrite <- Hr. rewrite zip_views. fold css.
  destruct (blend_terms mode src bsh n cv P _ _ Htaps) as (terms & Et & Hsum).
  { apply Forall_forall. intros items Hin. apply product_elem in Hin.
    apply Forall2_length in Hin. rewrite Hin.
    apply Forall2_length in HLs. rewrite <- HLs. unfold css.
    rewrite (length_zip_coords src coords bsh Hk Hr). exact Hk. }
  unfold blend. rewrite map_map. cbn [fst snd].
  exists (sum_list terms). split.
  - rewrite Et. reflexivity.
  - apply finalize_floating; [exact Hacc|]. rewrite (Hv P HP). symmetry. exact Hsum.
Qed.

End LinearSampling.

Section Bilinear.
Local Open Scope nat_scope.
Local Open Scope list_scope.

Lemma traverse_app {A B} (f : A -> result B) l1 l2 :
  traverse f (l1 ++ l2) = (y1 ← traverse f l1; y2 ← traverse f l2; Ok (y1 ++ y2)).
Proof.
  induction l1 as [|x l1 IH]; cbn [traverse app].
  - destruct (traverse f l2); reflexivity.
  - destruct (f x) as [y|e]; cbn [mbind result_bind]; [|reflexivity].
    rewrite IH. destruct (traverse f l1) as [y1|e]; cbn [mbind result_bind]; [|reflexivity].
    destruct (traverse f l2); reflexivity.
Qed.

Lemma traverse_map {A B C} (f : B -> result C) (g : A -> B) l :
  traverse f (map g l) = traverse (fun x => f (g x)) l.
Proof. induction l as [|x l IH]; [reflexivity|]. cbn [map traverse]. by rewrite IH. Qed.

Lemma traverse_rel {A B} (R : B -> B -> Prop) (f g : A -> result B) l ys :
  (forall x y, x ∈ l -> f x = Ok y -> exists y', g x = Ok y' /\ R y y') ->
  traverse f l = Ok ys ->
  exists ys', traverse g l = Ok ys' /\ Forall2 R ys ys'.
Proof.
  revert ys. induction l as [|x l IH]; intros ys Hfg H; cbn [traverse] in *.
  - injection H as <-. exists []. split; [reflexivity|constructor].
  - inv_bind H. inv_bind H. injection H as <-.
    destruct (Hfg x a) as (y' & Ey & Hy); [left|exact Ha|].
    destruct (IH a0) as (ys' & Eys & Hys); [|exact Ha0|].
    { intros x' y0 Hin. apply Hfg. by right. }
    rewrite Ey, Eys. cbn [mbind result_bind]. exists (y' :: ys').
    split; [reflexivity|by constructor].
Qed.

Lemma traverse_ext_in {A B} (f g : A -> result B) l :
  (forall x, x ∈ l -> f x = g x) -> traverse f l = traverse g l.
Proof.
  induction l as [|x l IH]; intros E; [reflexivity|]. cbn [traverse].
  rewrite (E x) by left. rewrite IH; [reflexivity|]. intros x' Hin. apply E. by right.
Qed.

Lemma sum_list_Qeq l l' : Forall2 Qeq l l' -> (sum_list l == sum_list l')%Q.
Proof. induction 1 as [|x y l l' Hxy _ IH]; simpl; [reflexivity|]. by rewrite Hxy, IH. Qed.

Lemma sum_list_zeros l : Forall (fun q => q == 0)%Q l -> (sum_list l == 0)%Q.
Proof. induction 1 as [|x l Hx _ IH]; simpl; [reflexivity|]. rewrite Hx, IH. ring. Qed.

Lemma corner_pair {A} (T1 T2 : list A) corner :
  corner ∈ product [T1; T2] -> exists t1 t2, corner = [t1; t2].
Proof.
  intros Hin. apply product_elem in Hin.
  apply Forall2_cons_inv_r in Hin. destruct Hin as (t1 & r & _ & Hin & ->).
  apply Forall2_cons_inv_r in Hin. destruct Hin as (t2 & r' & _ & Hin & ->).
  apply Forall2_nil_inv_r in Hin. subst. eauto.
Qed.

Lemma blend_rank3 mode src n cv y x c ys xs H W C :
  ashape src = [H; W; C] ->
  blend mode src n cv [(ys, H); (xs, W)] [c] = bilinear_at mode cv src n [y; x; c] ys xs.
Proof.
  intros Hs. unfold blend, bilinear_at. rewrite Hs.
  unfold pixel_row, pixel_col. cbn [length Nat.sub nth map].
  rewrite (traverse_ext_in (blend_term mode src n cv [c])
             (bilinear_term mode cv src n [y; x; c])); [reflexivity|].
  intros corner Hin. destruct (corner_pair _ _ _ Hin) as (t1 & t2 & ->).
  unfold blend_term, bilinear_term, corner_index. cbn [traverse].
  destruct (fix_scalar mode t1.1.1 (Z.of_nat t1.2)) as [z1|e]; [|reflexivity].
  destruct (fix_scalar mode t2.1.1 (Z.of_nat t2.2)) as [z2|e]; reflexivity.
Qed.

Lemma blend_rank4 mode src n cv b y x c ys xs B H W C s :
  mode ∈ AFFINE_TRANSFORM_FILL_MODES ->
  ashape src = [B; H; W; C] -> b < B -> axis_ok mode B ->
  blend mode src n cv [(inject_Z (Z.of_nat b), B); (ys, H); (xs, W)] [c] = Ok s ->
  exists s', bilinear_at mode cv src n [b; y; x; c] ys xs = Ok s' /\ (s' == s)%Q.
Proof.
  intros Hm Hs Hb HB E. unfold blend in E. cbn [map] in E.
  unfold linear_taps at 1 in E. cbn [fst snd] in E. rewrite Qfloor_Z in E.
  rewrite product_cons, product_cons, product_nil_head, app_nil_r in E.
  rewrite traverse_app, !traverse_map in E.
  apply bind_Ok in E as (terms & E & Es). injection Es as <-.
  apply bind_Ok in E as (t1s & Ha & E). apply bind_Ok in E as (t2s & Ha0 & E).
  injection E as <-.
  assert (Eb : fix_scalar mode (Z.of_nat b) (Z.of_nat B) = Ok (Z.of_nat b)).
  { apply fix_scalar_inside; [exact Hm| |lia]. intros Em. destruct HB as [_ HB].
    specialize (HB Em). lia. }
  unfold bilinear_at. rewrite Hs. unfold pixel_row, pixel_col. cbn [length Nat.sub nth].
  assert (Hrel : forall corner t,
             corner ∈ product [linear_taps (ys, H); linear_taps (xs, W)] ->
             blend_term mode src n cv [c]
               ((Z.of_nat b, (1 - (inject_Z (Z.of_nat b) - inject_Z (Z.of_nat b)))%Q, B)
                :: corner) = Ok t ->
             exists t', bilinear_term mode cv src n [b; y; x; c] corner = Ok t' /\
                        (t == t')%Q); cycle 1.
  - destruct (traverse_rel Qeq _ (bilinear_term mode cv src n [b; y; x; c]) _ _ Hrel Ha)
      as (ts & -> & Hts).
    cbn [mbind result_bind]. eexists. split; [reflexivity|].
    rewrite sum_list_app, <- (sum_list_Qeq _ _ Hts).
    rewrite (sum_list_zeros t2s); [ring|].
    apply traverse_Forall2 in Ha0. clear -Ha0.
    induction Ha0 as [|corner t corners ts Ht _ IH]; constructor; [|exact IH].
    unfold blend_term in Ht. inv_bind Ht. injection Ht as <-.
    unfold corner_weight. cbn [fold_right fst snd]. ring.
  - intros corner t Hin Et. destruct (corner_pair _ _ _ Hin) as (t1 & t2 & ->).
    unfold blend_term, corner_index in Et. cbn [traverse fst snd] in Et.
    rewrite Eb in Et. cbn [mbind result_bind] in Et.
    unfold bilinear_term, corner_index. cbn [traverse].
    destruct (fix_scalar mode t1.1.1 (Z.of_nat t1.2)) as [z1|e]; [|discriminate].
    destruct (fix_scalar mode t2.1.1 (Z.of_nat t2.2)) as [z2|e]; [|discriminate].
    cbn [mbind result_bind] in *. injection Et as <-.
    eexists. split; [reflexivity|].
    unfold corner_weight, corner_inside, move_pixel.
    cbn [fold_right forallb fst snd map app nth length Nat.sub insert list_insert].
    rewrite (in_range_inside B b Hb), Nat2Z.id. cbn [andb].
    match goal with
    | |- context [if ?c then _ else _] => destruct c
    end; ring.
Qed.

End Bilinear.

Section BilinearPixels.
Local Open Scope nat_scope.
Local Open Scope list_scope.

Variable mode : string.
Variable fx : index_fixer.
Variable n : pynum.
Variable cv : bool.
Hypothesis Hm : mode ∈ AFFINE_TRANSFORM_FILL_MODES.
Hypothesis Efx : _INDEX_FIXERS !! mode = Some fx.

Lemma affine_linear_rank3 src transform Ht Wt H W C :
  ashape src = [H; W; C] -> ashape transform = [8] ->
  axis_ok mode H -> axis_ok mode W ->
  exists out,
    _affine_transform src transform (Ht, Wt) _linear_indices_and_weights fx (PyNum n) cv
    = Ok out /\
    dtype out = dtype src /\ ashape out = [Ht; Wt; C] /\
    forall y x c, y < Ht -> x < Wt -> c < C ->
      exists s,
        bilinear_at mode cv src n [y; x; c] (y_src_at transform y x) (x_src_at transform y x)
        = Ok s /\
        (aat out [y; x; c] == finalized src s)%Q.
Proof.
  intros Hs Ht8 HH HW.
  destruct (affine_coordinates src transform Ht Wt _linear_indices_and_weights fx
              (PyNum n) cv Ht8) as (y_src & x_src & -> & Sy & Sx & Fy & Fx & Hv).
  assert (Hrank : andim src = 3) by (unfold andim, ndim; fold (ashape src); by rewrite Hs).
  rewrite Hrank. cbn [Nat.eqb].
  destruct (asqueeze0_spec y_src [Ht; Wt] Sy) as (y & -> & Dy' & Sy' & Vy).
  destruct (asqueeze0_spec x_src [Ht; Wt] Sx) as (x & -> & Dx' & Sx' & Vx).
  cbn [mbind result_bind].
  pose proof (extract_linear src mode fx n cv [y; x] [Ht; Wt] Hm Efx) as Hx.
  cbn [length] in Hx. rewrite Hs in Hx. cbn [drop take zip zip_with map] in Hx.
  destruct Hx as (out & -> & So & Do & Vo).
  - discriminate.
  - rewrite Hrank. lia.
  - repeat (apply Forall_cons; split); try apply Forall_nil; cbv beta; solve_fits.
  - cbn [map broadcast_shapes_list]. rewrite Sy', Sx'. cbn [mbind result_bind].
    rewrite broadcast_shapes_nil. cbn [mbind result_bind].
    rewrite !broadcast_shapes_same. reflexivity.
  - reflexivity.
  - constructor; [assumption|constructor; [assumption|constructor]].
  - constructor; [left; by rewrite Dy'|constructor; [left; by rewrite Dx'|constructor]].
  - apply Exists_cons_hd. by rewrite Dy'.
  - exists out. split; [reflexivity|]. split; [exact Do|]. split; [exact So|].
    intros y0 x0 c Hy0 Hx0 Hc0.
    destruct (Hv 0 y0 x0 Hy0 Hx0) as [Ey' Ex'].
    destruct (Vo [y0; x0; c]) as (s & Es & Hval).
    { repeat constructor; assumption. }
    cbn [take drop] in Es. rewrite Vy, Vx, Ey', Ex' in Es by reflexivity.
    rewrite (blend_rank3 mode src n cv y0 x0 c _ _ H W C Hs) in Es.
    exists s. split; [exact Es|exact Hval].
Qed.

Lemma grid_integral B batch p :
  grid 0 B batch -> in_bounds (ashape batch) p -> integral (aat batch p).
Proof.
  intros (_ & Hs & Hv) Hp. rewrite Hs in Hp. unfold grid_shape in Hp.
  cbn [insert list_insert] in Hp.
  destruct p as [|b [|y [|x [|? ?]]]]; try (apply Forall2_length in Hp; discriminate).
  apply Forall2_cons in Hp as [Hb Hp]. apply Forall2_cons in Hp as [Hy Hp].
  apply Forall2_cons in Hp as [Hx _].
  assert (y = 0) as -> by lia. assert (x = 0) as -> by lia.
  exists (Z.of_nat b). apply (Hv b Hb).
Qed.

Lemma affine_linear_rank4 src transform Ht Wt B H W C :
  ashape src = [B; H; W; C] -> ashape transform = [8] ->
  axis_ok mode B -> axis_ok mode H -> axis_ok mode W ->
  exists out,
    _affine_transform src transform (Ht, Wt) _linear_indices_and_weights fx (PyNum n) cv
    = Ok out /\
    dtype out = dtype src /\ ashape out = [B; Ht; Wt; C] /\
    forall b y x c, b < B -> y < Ht -> x < Wt -> c < C ->
      exists s,
        bilinear_at mode cv src n [b; y; x; c]
                    (y_src_at transform y x) (x_src_at transform y x) = Ok s /\
        (aat out [b; y; x; c] == finalized src s)%Q.
Proof.
  intros Hs Ht8 HB HH HW.
  destruct (affine_coordinates src transform Ht Wt _linear_indices_and_weights fx
              (PyNum n) cv Ht8) as (y_src & x_src & -> & Sy & Sx & Fy & Fx & Hv).
  assert (Hrank : andim src = 4) by (unfold andim, ndim; fold (ashape src); by rewrite Hs).
  rewrite Hrank, Hs. cbn [Nat.eqb hd].
  destruct (areshape_arange 0 B) as (batch & Eb & Hb); [lia|].
  change (grid_dims 0) with [-1; 1; 1]%Z in Eb. rewrite Eb. cbn [mbind result_bind].
  assert (Sb : ashape batch = [B; 1; 1]) by apply Hb.
  pose proof (extract_linear src mode fx n cv [batch; y_src; x_src] [B; Ht; Wt] Hm Efx) as Hx.
  cbn [length] in Hx. rewrite Hs in Hx. cbn [drop take zip zip_with map] in Hx.
  destruct Hx as (out & -> & So & Do & Vo).
  - discriminate.
  - rewrite Hrank. lia.
  - repeat (apply Forall_cons; split); try apply Forall_nil; cbv beta; solve_fits.
  - cbn [map broadcast_shapes_list]. rewrite Sb, Sy, Sx. cbn [mbind result_bind].
    rewrite broadcast_shapes_nil. cbn [mbind result_bind].
    rewrite broadcast_shapes_same. cbn [mbind result_bind].
    rewrite broadcast_shapes_eq_length by reflexivity. cbn [bdims].
    rewrite !bdim_1_l, !bdim_1_r. reflexivity.
  - reflexivity.
  - constructor; [assumption|constructor; [assumption|constructor; [assumption|constructor]]].
  - constructor; [right; intros p; by apply (grid_integral B)|].
    constructor; [by left|constructor; [by left|constructor]].
  - apply Exists_cons_tl, Exists_cons_hd. exact Fy.
  - exists out. split; [reflexivity|]. split; [exact Do|]. split; [exact So|].
    intros b0 y0 x0 c Hb0 Hy0 Hx0 Hc0.
    destruct (Hv b0 y0 x0 Hy0 Hx0) as [Ey' Ex'].
    destruct (Vo [b0; y0; x0; c]) as (s & Es & Hval).
    { repeat constructor; assumption. }
    cbn [take drop] in Es. rewrite Ey', Ex' in Es.
    rewrite (grid_view 0 B batch [b0; y0; x0] b0 Hb) in Es by (auto; lia).
    destruct (blend_rank4 mode src n cv b0 y0 x0 c _ _ B H W C s Hm Hs Hb0 HB Es)
      as (s' & Es' & Hss).
    exists s'. split; [exact Es'|]. rewrite Hval. unfold finalized.
    apply cast_comp. destruct (_is_integer src); [|by symmetry].
    by rewrite (Qround_even_comp _ _ Hss).
Qed.

End BilinearPixels.

Section BilinearTheorems.
Local Open Scope nat_scope.
Local Open Scope list_scope.



(** Bilinear interpolation by [affine_transform], pixel by pixel. *)
Lemma affine_bilinear_sampling image transform fill_mode n data_format :
  fill_mode ∈ AFFINE_TRANSFORM_FILL_MODES ->
  data_format <> "channels_first" ->
  andim image = 3 \/ andim image = 4 ->
  ashape transform = [8] ->
  Forall (axis_ok fill_mode) (take (andim image - 1) (ashape image)) ->
  exists out,
    affine_transform image transform "bilinear" fill_mode (PyNum n) data_format = Ok out /\
    dtype out = dtype image /\ ashape out = ashape image /\
    forall P, in_bounds (ashape image) P ->
      ~ (k_at transform (pixel_row P) (pixel_col P) == 0)%Q ->
      exists s,
        bilinear_at fill_mode (bool_decide (fill_mode = "constant")) image n P
                    (y_src_at transform (pixel_row P) (pixel_col P))
                    (x_src_at transform (pixel_row P) (pixel_col P)) = Ok s /\
        (aat out P == finalized image s)%Q.
Proof.
  intros Hm Hdf Hrank Ht8 Hax.
  destruct (index_fixer_lookup fill_mode Hm) as (fx & Efx & _).
  unfold affine_transform, convert_to_tensor.
  change (AFFINE_TRANSFORM_INTERPOLATIONS !! "bilinear")
    with (Some _linear_indices_and_weights).
  rewrite (bool_decide_eq_true_2 _ Hm). cbn [negb].
  assert (Hr : bool_decide (andim image ∈ [3; 4]) = true).
  { destruct Hrank as [E | E]; rewrite E; reflexivity. }
  rewrite Hr. cbn [negb].
  assert (Hr' : bool_decide (andim transform ∈ [1; 2]) = true).
  { by rewrite (rank_of_shape _ _ Ht8). }
  rewrite Hr'. cbn [negb].
  rewrite (bool_decide_eq_false_2 _ Hdf).
  match goal with
  | |- context [match ?o with Some _ => _ | None => Raise ValueError end] =>
      replace o with (Some fx) by (symmetry; exact Efx)
  end.
  destruct (rank_cases image Hrank) as [(H & W & C & Hs) | (B & H & W & C & Hs)].
  - pose proof (rank_of_shape _ _ Hs) as E. cbn [length] in E.
    rewrite E, Hs in Hax. cbn [Nat.sub take] in Hax.
    apply Forall_cons in Hax as [HH Hax]. apply Forall_cons in Hax as [HW _].
    rewrite E. cbn [Nat.eqb]. cbv zeta.
    replace (nth 0 (ashape image) 0) with H by (by rewrite Hs).
    replace (nth 1 (ashape image) 0) with W by (by rewrite Hs).
    destruct (affine_linear_rank3 fill_mode fx n (bool_decide (fill_mode = "constant"))
                Hm Efx image transform H W H W C Hs Ht8 HH HW)
      as (out & -> & Do & So & Vo).
    cbn [mbind result_bind]. exists out. split; [reflexivity|]. split; [exact Do|].
    split; [by rewrite Hs|]. rewrite Hs. intros P HP.
    destruct P as [|y [|x [|c [|? ?]]]]; try (apply Forall2_length in HP; discriminate).
    apply Forall2_cons in HP as [Hy HP]. apply Forall2_cons in HP as [Hx HP].
    apply Forall2_cons in HP as [Hc _].
    unfold pixel_row at 1 2 3, pixel_col at 1 2 3. cbn [length Nat.sub nth].
    intros _. by apply Vo.
  - pose proof (rank_of_shape _ _ Hs) as E. cbn [length] in E.
    rewrite E, Hs in Hax. cbn [Nat.sub take] in Hax.
    apply Forall_cons in Hax as [HB Hax]. apply Forall_cons in Hax as [HH Hax].
    apply Forall_cons in Hax as [HW _].
    rewrite E. cbn [Nat.eqb]. cbv zeta.
    replace (nth 1 (ashape image) 0) with H by (by rewrite Hs).
    replace (nth 2 (ashape image) 0) with W by (by rewrite Hs).
    destruct (affine_linear_rank4 fill_mode fx n (bool_decide (fill_mode = "constant"))
                Hm Efx image transform H W B H W C Hs Ht8 HB HH HW)
      as (out & -> & Do & So & Vo).
    cbn [mbind result_bind]. exists out. split; [reflexivity|]. split; [exact Do|].
    split; [by rewrite Hs|]. rewrite Hs. intros P HP.
    destruct P as [|b [|y [|x [|c [|? ?]]]]];
      try (apply Forall2_length in HP; discriminate).
    apply Forall2_cons in HP as [Hb HP]. apply Forall2_cons in HP as [Hy HP].
    apply Forall2_cons in HP as [Hx HP]. apply Forall2_cons in HP as [Hc _].
    unfold pixel_row at 1 2 3, pixel_col at 1 2 3. cbn [length Nat.sub nth].
    intros _. by apply Vo.
Qed.



Lemma traverse_rel2 {A B} (RA : A -> A -> Prop) (RB : B -> B -> Prop)
    (f g : A -> result B) l l' ys :
  Forall2 RA l l' ->
  (forall x x' y, RA x x' -> f x = Ok y -> exists y', g x' = Ok y' /\ RB y y') ->
  traverse f l = Ok ys ->
  exists ys', traverse g l' = Ok ys' /\ Forall2 RB ys ys'.
Proof.
  intros Hl Hfg. revert ys. induction Hl as [|x x' l l' Hx _ IH]; intros ys H;
    cbn [traverse] in *.
  - injection H as <-. exists []. split; [reflexivity|constructor].
  - inv_bind H. inv_bind H. injection H as <-.
    destruct (Hfg x x' a Hx Ha) as (y' & Ey & Hy).
    destruct (IH a0 Ha0) as (ys' & Eys & Hys).
    rewrite Ey, Eys. cbn [mbind result_bind]. exists (y' :: ys').
    split; [reflexivity|by constructor].
Qed.

Lemma linear_taps_comp q q' d :
  (q == q')%Q -> Forall2 same_tap (linear_taps (q, d)) (linear_taps (q', d)).
Proof.
  intros E. unfold linear_taps. cbn [fst snd]. rewrite (Qfloor_comp _ _ E).
  repeat constructor; cbn [fst snd]; by rewrite E.
Qed.

Lemma same_corner mode corner corner' :
  Forall2 same_tap corner corner' ->
  corner_index mode corner = corner_index mode corner' /\
  corner_inside corner = corner_inside corner' /\
  (corner_weight corner == corner_weight corner')%Q.
Proof.
  induction 1 as [|t t' corner corner' (E1 & E2 & E3) _ (IH1 & IH2 & IH3)].
  - repeat split; reflexivity.
  - unfold corner_index, corner_inside, corner_weight in *.
    cbn [traverse forallb fold_right]. rewrite E1, E3, IH1, IH2, E2, IH3.
    repeat split; reflexivity.
Qed.

Lemma bilinear_at_comp mode cv image n P ys xs ys' xs' s :
  (ys == ys')%Q -> (xs == xs')%Q ->
  bilinear_at mode cv image n P ys xs = Ok s ->
  exists s', bilinear_at mode cv image n P ys' xs' = Ok s' /\ (s == s')%Q.
Proof.
  intros Ey Ex E. unfold bilinear_at in *.
  apply bind_Ok in E as (terms & E & Es). injection Es as <-.
  destruct (traverse_rel2 (Forall2 same_tap) Qeq (bilinear_term mode cv image n P)
              (bilinear_term mode cv image n P)
              (product [linear_taps (ys, pixel_row (ashape image));
                        linear_taps (xs, pixel_col (ashape image))])
              (product [linear_taps (ys', pixel_row (ashape image));
                        linear_taps (xs', pixel_col (ashape image))]) terms)
    as (terms' & -> & Ht); [| |exact E|].
  - apply product_related.
    constructor; [by apply linear_taps_comp|].
    constructor; [by apply linear_taps_comp|constructor].
  - intros corner corner' t Hc Et.
    destruct (same_corner mode corner corner' Hc) as (E1 & E2 & E3).
    unfold bilinear_term in *. rewrite <- E1, <- E2.
    destruct (corner_index mode corner) as [idx|e]; [|discriminate].
    cbn [mbind result_bind] in *. injection Et as <-.
    eexists. split; [reflexivity|]. by rewrite E3.
  - cbn [mbind result_bind]. eexists. split; [reflexivity|]. by apply sum_list_Qeq.
Qed.

Lemma finalized_comp src s s' : (s == s')%Q -> (finalized src s == finalized src s')%Q.
Proof.
  intros E. unfold finalized. apply cast_comp.
  destruct (_is_integer src); [|exact E]. by rewrite (Qround_even_comp _ _ E).
Qed.

(** Bilinear interpolation by [resize], pixel by pixel. *)
Lemma resize_bilinear_sampling image (s0 s1 : nat) data_format :
  data_format <> "channels_first" ->
  andim image = 3 \/ andim image = 4 ->
  0 < s0 -> 0 < s1 ->
  Forall (fun d => 0 < d) (take (andim image - 1) (ashape image)) ->
  exists out,
    resize image (s0, s1) "bilinear" false data_format = Ok out /\
    dtype out = dtype image /\ ashape out = move_pixel (ashape image) s0 s1 /\
    forall P, in_bounds (move_pixel (ashape image) s0 s1) P ->
      let H := Z.of_nat (pixel_row (ashape image)) in
      let W := Z.of_nat (pixel_col (ashape image)) in
      exists s,
        bilinear_at "constant" false image (PyInt 0) P
                    ((W # Pos.of_nat s1) * inject_Z (Z.of_nat (pixel_row P)))%Q
                    ((H # Pos.of_nat s0) * inject_Z (Z.of_nat (pixel_col P)))%Q = Ok s /\
        (aat out P == finalized image s)%Q.
Proof.
  intros Hdf Hrank Hs0 Hs1 Hax.
  assert (Hm : "constant" ∈ AFFINE_TRANSFORM_FILL_MODES) by (vm_compute; reflexivity).
  destruct (index_fixer_lookup "constant" Hm) as (fx & Efx & _).
  assert (Hok : forall d, 0 < d -> axis_ok "constant" d)
    by (intros d Hd; split; [exact Hd|discriminate]).
  unfold resize, convert_to_tensor.
  change (AFFINE_TRANSFORM_INTERPOLATIONS !! "bilinear")
    with (Some _linear_indices_and_weights).
  assert (Hr : bool_decide (andim image ∈ [3; 4]) = true).
  { destruct Hrank as [E | E]; rewrite E; reflexivity. }
  rewrite Hr. cbn [negb].
  rewrite (bool_decide_eq_false_2 _ Hdf). cbv zeta. cbn [fst snd].
  unfold py_truediv.
  destruct (Nat.eqb_spec s0 0) as [|_]; [lia|]. destruct (Nat.eqb_spec s1 0) as [|_]; [lia|].
  cbn [mbind result_bind].
  match goal with
  | |- context [match ?o with Some _ => _ | None => Raise ValueError end] =>
      replace o with (Some fx) by (symmetry; exact Efx)
  end.
  destruct (rank_cases image Hrank) as [(H & W & C & Hs) | (B & H & W & C & Hs)].
  - pose proof (rank_of_shape _ _ Hs) as E. cbn [length] in E.
    rewrite E, Hs in Hax. cbn [Nat.sub take] in Hax.
    apply Forall_cons in Hax as [HH Hax]. apply Forall_cons in Hax as [HW _].
    rewrite Hs. cbn [length Nat.sub nth].
    set (sy := (Z.of_nat H # Pos.of_nat s0)%Q). set (sx := (Z.of_nat W # Pos.of_nat s1)%Q).
    destruct (affine_linear_rank3 "constant" fx (PyInt 0) false Hm Efx image
                (mx_array [sy; 0; 0; 0; sx; 0; 0; 0]%Q) s0 s1 H W C Hs eq_refl
                (Hok _ HH) (Hok _ HW))
      as (out & -> & Do & So & Vo).
    cbn [mbind result_bind]. exists out. split; [reflexivity|]. split; [exact Do|].
    unfold move_pixel at 1 2. cbn [length Nat.sub insert list_insert].
    split; [exact So|]. intros P HP.
    destruct P as [|y [|x [|c [|? ?]]]]; try (apply Forall2_length in HP; discriminate).
    apply Forall2_cons in HP as [Hy HP]. apply Forall2_cons in HP as [Hx HP].
    apply Forall2_cons in HP as [Hc _].
    unfold pixel_row, pixel_col. cbn [length Nat.sub nth].
    cbv zeta. fold sy sx.
    destruct (resize_transform_sources sy sx y x) as (_ & Ey' & Ex').
    destruct (Vo y x c Hy Hx Hc) as (s & Es & Hv).
    destruct (bilinear_at_comp _ _ _ _ _ _ _ _ _ s Ey' Ex' Es) as (s' & Es' & Hss).
    exists s'. split; [exact Es'|]. by rewrite Hv, (finalized_comp image s s' Hss).
  - pose proof (rank_of_shape _ _ Hs) as E. cbn [length] in E.
    rewrite E, Hs in Hax. cbn [Nat.sub take] in Hax.
    apply Forall_cons in Hax as [HB Hax]. apply Forall_cons in Hax as [HH Hax].
    apply Forall_cons in Hax as [HW _].
    rewrite Hs. cbn [length Nat.sub nth].
    set (sy := (Z.of_nat H # Pos.of_nat s0)%Q). set (sx := (Z.of_nat W # Pos.of_nat s1)%Q).
    destruct (affine_linear_rank4 "constant" fx (PyInt 0) false Hm Efx image
                (mx_array [sy; 0; 0; 0; sx; 0; 0; 0]%Q) s0 s1 B H W C Hs eq_refl
                (Hok _ HB) (Hok _ HH) (Hok _ HW))
      as (out & -> & Do & So & Vo).
    cbn [mbind result_bind]. exists out. split; [reflexivity|]. split; [exact Do|].
    unfold move_pixel at 1 2. cbn [length Nat.sub insert list_insert].
    split; [exact So|]. intros P HP.
    destruct P as [|b [|y [|x [|c [|? ?]]]]];
      try (apply Forall2_length in HP; discriminate).
    apply Forall2_cons in HP as [Hb HP]. apply Forall2_cons in HP as [Hy HP].
    apply Forall2_cons in HP as [Hx HP]. apply Forall2_cons in HP as [Hc _].
    unfold pixel_row, pixel_col. cbn [length Nat.sub nth].
    cbv zeta. fold sy sx.
    destruct (resize_transform_sources sy sx y x) as (_ & Ey' & Ex').
    destruct (Vo b y x c Hb Hy Hx Hc) as (s & Es & Hv).
    destruct (bilinear_at_comp _ _ _ _ _ _ _ _ _ s Ey' Ex' Es) as (s' & Es' & Hss).
    exists s'. split; [exact Es'|]. by rewrite Hv, (finalized_comp image s s' Hss).
Qed.



End BilinearTheorems.

(** ** Bilinear interpolation stays within the range of the image *)

Section Bounds.
Local Open Scope nat_scope.
Local Open Scope list_scope.

Lemma linear_taps_weights (a : Q * nat) :
  Forall (fun t : Z * Q * nat => 0 <= t.1.2)%Q (linear_taps a) /\
  (sum_list (map (fun t : Z * Q * nat => t.1.2) (linear_taps a)) == 1)%Q.
Proof.
  unfold linear_taps. cbn [map sum_list fold_right fst snd].
  pose proof (Qfloor_le a.1) as Hlo. pose proof (Qlt_floor a.1) as Hhi.
  rewrite inject_Z_plus in Hhi. change (inject_Z 1) with 1%Q in Hhi.
  split; [|ring]. repeat constructor; cbn [fst snd]; lra.
Qed.

Lemma corner_weights_cons (t : Z * Q * nat) (corners : list (list (Z * Q * nat))) :
  (sum_list (map corner_weight (map (cons t) corners))
   == t.1.2 * sum_list (map corner_weight corners))%Q.
Proof.
  induction corners as [|c corners IH]; cbn [map sum_list fold_right]; [ring|].
  fold (sum_list (map corner_weight (map (cons t) corners))).
  fold (sum_list (map corner_weight corners)).
  rewrite IH. unfold corner_weight at 1. cbn [fold_right]. fold (corner_weight c). ring.
Qed.

Lemma corner_weights_total (axes : list (Q * nat)) :
  Forall (fun corner => 0 <= corner_weight corner)%Q (product (map linear_taps axes)) /\
  (sum_list (map corner_weight (product (map linear_taps axes))) == 1)%Q.
Proof.
  induction axes as [|a axes [IHp IHs]]; cbn [map].
  - split; [repeat constructor; unfold corner_weight; cbn; lra|].
    cbn. unfold corner_weight. cbn. ring.
  - destruct (linear_taps_weights a) as [Hp Hs].
    unfold linear_taps in Hp, Hs |- *. cbn [map sum_list fold_right fst snd] in Hs.
    apply Forall_cons in Hp as [Hp0 Hp]. apply Forall_cons in Hp as [Hp1 _].
    cbn [fst snd] in Hp0, Hp1.
    rewrite product_cons, product_cons, product_nil_head, app_nil_r.
    split.
    + apply Forall_app. split; apply Forall_fmap; (eapply Forall_impl; [exact IHp|]);
        intros corner Hc; cbv beta; unfold compose, corner_weight; cbn [fold_right fst snd];
        fold (corner_weight corner); cbv beta in Hc; apply Qmult_le_0_compat; assumption.
    + rewrite map_app, sum_list_app, !corner_weights_cons, IHs. cbn [fst snd]. lra.
Qed.

Lemma weighted_sum_bounds {A} (w : A -> Q) (f : A -> result Q) (lo hi : Q) l terms :
  Forall (fun x => 0 <= w x)%Q l ->
  (forall x t, x ∈ l -> f x = Ok t -> exists v, (t == w x * v)%Q /\ (lo <= v <= hi)%Q) ->
  traverse f l = Ok terms ->
  (lo * sum_list (map w l) <= sum_list terms <= hi * sum_list (map w l))%Q.
Proof.
  intros Hw. revert terms. induction Hw as [|x l Hx _ IH]; intros terms Hf H;
    cbn [traverse] in H.
  - injection H as <-. cbn. lra.
  - inv_bind H. inv_bind H. injection H as <-.
    destruct (Hf x a) as (v & Ev & Hv); [left|exact Ha|].
    destruct (IH a0) as [H1 H2]; [|exact Ha0|].
    { intros x' t Hin. apply Hf. by right. }
    cbn [map sum_list fold_right]. fold (sum_list a0). fold (sum_list (map w l)).
    rewrite Ev. nra.
Qed.

Lemma fix_scalar_range mode z size r :
  mode ∈ AFFINE_TRANSFORM_FILL_MODES -> axis_ok mode size ->
  fix_scalar mode z (Z.of_nat size) = Ok r -> (0 <= r < Z.of_nat size)%Z.
Proof.
  intros Hm [Hd Hmirror] E. unfold fix_scalar in E. inv_bind E. injection E as <-.
  assert (Hg : good_fixer (fix_index mode) (Z.of_nat size)).
  { apply fix_index_good; [exact Hm|lia|]. intros Em. specialize (Hmirror Em). lia. }
  destruct (Hg (scalar z)) as (r' & Er & _ & Hr).
  rewrite Ha in Er. injection Er as <-. apply Hr.
Qed.

Lemma bilinear_at_bounds mode cv image n P ys xs s (lo hi : Q) :
  mode ∈ AFFINE_TRANSFORM_FILL_MODES ->
  axis_ok mode (pixel_row (ashape image)) -> axis_ok mode (pixel_col (ashape image)) ->
  (forall zy zx, zy < pixel_row (ashape image) -> zx < pixel_col (ashape image) ->
                 (lo <= aat image (move_pixel P zy zx) <= hi)%Q) ->
  (cv = true -> (lo <= fill_element n (dtype image) <= hi)%Q) ->
  bilinear_at mode cv image n P ys xs = Ok s ->
  (lo <= s <= hi)%Q.
Proof.
  intros Hm HH HW Himg Hfill E. unfold bilinear_at in E.
  apply bind_Ok in E as (terms & E & Es). injection Es as <-.
  set (axes := [(ys, pixel_row (ashape image)); (xs, pixel_col (ashape image))]).
  change [linear_taps (ys, pixel_row (ashape image));
          linear_taps (xs, pixel_col (ashape image))] with (map linear_taps axes) in E.
  destruct (corner_weights_total axes) as [Hp Hs].
  pose proof (weighted_sum_bounds corner_weight (bilinear_term mode cv image n P) lo hi
                _ terms Hp) as Hb.
  rewrite Hs in Hb. rewrite !Qmult_1_r in Hb. apply Hb; [|exact E].
  intros corner t Hin Et.
  apply product_elem in Hin.
  apply Forall2_cons_inv_r in Hin. destruct Hin as (t1 & r & Ht1 & Hin & ->).
  apply Forall2_cons_inv_r in Hin. destruct Hin as (t2 & r' & Ht2 & Hin & ->).
  apply Forall2_nil_inv_r in Hin. subst r'.
  assert (Hsz1 : t1.2 = pixel_row (ashape image)).
  { unfold linear_taps in Ht1. cbn [fst snd] in Ht1.
    rewrite !elem_of_cons, elem_of_nil in Ht1. by destruct Ht1 as [-> | [-> | []]]. }
  assert (Hsz2 : t2.2 = pixel_col (ashape image)).
  { unfold linear_taps in Ht2. cbn [fst snd] in Ht2.
    rewrite !elem_of_cons, elem_of_nil in Ht2. by destruct Ht2 as [-> | [-> | []]]. }
  unfold bilinear_term, corner_index in Et. cbn [traverse] in Et.
  destruct (fix_scalar mode t1.1.1 (Z.of_nat t1.2)) as [z1|e] eqn:E1; [|discriminate].
  destruct (fix_scalar mode t2.1.1 (Z.of_nat t2.2)) as [z2|e] eqn:E2; [|discriminate].
  cbn [mbind result_bind nth] in Et. injection Et as <-.
  eexists. split; [reflexivity|].
  rewrite Hsz1 in E1. rewrite Hsz2 in E2.
  pose proof (fix_scalar_range _ _ _ _ Hm HH E1) as R1.
  pose proof (fix_scalar_range _ _ _ _ Hm HW E2) as R2.
  destruct cv; cbn [andb]; [destruct (negb _); [by apply Hfill|]|]; apply Himg; lia.
Qed.

Lemma finalized_floating src s : is_floating (dtype src) = true -> finalized src s = s.
Proof.
  intros Hf. unfold finalized. rewrite (floating_not_integer src Hf).
  unfold cast. by rewrite Hf.
Qed.

Lemma fill_element_floating n d : is_floating d = true -> fill_element n d = py_value n.
Proof.
  intros Hf. unfold fill_element, cast. by destruct n, d.
Qed.

Lemma move_pixel_target sh P a b y x :
  length sh = 3 \/ length sh = 4 ->
  in_bounds (move_pixel sh a b) P -> y < pixel_row sh -> x < pixel_col sh ->
  in_bounds sh (move_pixel P y x).
Proof.
  intros Hl HP Hy Hx. pose proof (in_bounds_length _ _ HP) as HlP.
  destruct Hl as [Hl|Hl].
  - destruct sh as [|H [|W [|C [|? ?]]]]; try discriminate.
    destruct P as [|y0 [|x0 [|c [|? ?]]]]; try discriminate.
    unfold pixel_row, pixel_col, move_pixel in *.
    cbn [length Nat.sub nth insert list_insert] in *.
    apply Forall2_cons in HP as [_ HP]. apply Forall2_cons in HP as [_ HP].
    constructor; [exact Hy|constructor; [exact Hx|exact HP]].
  - destruct sh as [|B [|H [|W [|C [|? ?]]]]]; try discriminate.
    destruct P as [|b0 [|y0 [|x0 [|c [|? ?]]]]]; try discriminate.
    unfold pixel_row, pixel_col, move_pixel in *.
    cbn [length Nat.sub nth insert list_insert] in *.
    apply Forall2_cons in HP as [Hb HP]. apply Forall2_cons in HP as [_ HP].
    apply Forall2_cons in HP as [_ HP].
    constructor; [exact Hb|constructor; [exact Hy|constructor; [exact Hx|exact HP]]].
Qed.

Lemma move_pixel_same sh :
  length sh = 3 \/ length sh = 4 -> move_pixel sh (pixel_row sh) (pixel_col sh) = sh.
Proof.
  intros [Hl|Hl].
  - by destruct sh as [|H [|W [|C [|? ?]]]].
  - by destruct sh as [|B [|H [|W [|C [|? ?]]]]].
Qed.

Lemma pixel_axes (Q : nat -> Prop) sh :
  length sh = 3 \/ length sh = 4 ->
  Forall Q (take (length sh - 1) sh) -> Q (pixel_row sh) /\ Q (pixel_col sh).
Proof.
  intros [Hl|Hl] H.
  - destruct sh as [|H0 [|W [|C [|? ?]]]]; try discriminate.
    cbn [length Nat.sub take] in H. unfold pixel_row, pixel_col. cbn [length Nat.sub nth].
    apply Forall_cons in H as [H1 H]. apply Forall_cons in H as [H2 _]. by split.
  - destruct sh as [|B [|H0 [|W [|C [|? ?]]]]]; try discriminate.
    cbn [length Nat.sub take] in H. unfold pixel_row, pixel_col. cbn [length Nat.sub nth].
    apply Forall_cons in H as [_ H]. apply Forall_cons in H as [H1 H].
    apply Forall_cons in H as [H2 _]. by split.
Qed.





End Bounds.
